(** * recsys-examples: the dynamicemb MovieLens example

    A shallow embedding of [corelib/dynamicemb/example/example.py]
    (argument parsing, the dataset split, the capacity estimate of
    [get_planner], the [main] driver and the dump and incremental-dump
    modes) and of the L2-norm postprocessor of
    [examples/hstu/modules/output_postprocessors.py], followed by the
    properties the specification states about them. *)

From Stdlib Require Import ZArith Lia List Bool Ascii String.
From Stdlib Require Import Sorting.Sorted Sorting.Permutation Sorting.Mergesort.
From Stdlib Require Import Floats.SpecFloat.
From stdpp Require Import base strings gmap list pretty.

(** ** Python exceptions and fallible computations *)

Inductive exn : Type :=
| ValueError        (* math domain error, invalid literal for int() *)
| KeyError          (* missing dict key, missing merge column *)
| OverflowError     (* int too large to convert to float *)
| FileNotFoundError
| ZeroDivisionError
| SystemExit.       (* argparse rejecting the command line *)

Inductive result (A : Type) : Type :=
| Ok (a : A)
| Raise (e : exn).
Arguments Ok {A} a.
Arguments Raise {A} e.

#[global] Instance result_ret : MRet result := fun A a => Ok a.
#[global] Instance result_bind : MBind result := fun A B f r =>
  match r with
  | Ok a => f a
  | Raise e => Raise e
  end.

#[global] Instance result_fmap : FMap result := fun A B f r =>
  match r with
  | Ok a => Ok (f a)
  | Raise e => Raise e
  end.

Definition raises {A} (r : result A) : Prop :=
  match r with Ok _ => False | Raise _ => True end.

(** ** CPython floats: IEEE-754 binary64

    A double is kept as the exact dyadic number [m * 2^e] it denotes.  The
    sign of a zero is not tracked (no operation below observes it). *)

Module Binary64.
Local Open Scope Z_scope.

Inductive double : Type :=
| Fin (m e : Z)          (* the finite value m * 2^e *)
| Inf (neg : bool)
| NaN.

Definition prec : Z := 53.
Definition emin : Z := -1074.   (* exponent of the smallest subnormal *)
Definition emax : Z := 1024.    (* finite doubles are below 2^emax *)

(** [a / 2^sh] rounded to the nearest integer, ties to even ([0 <= a],
    [0 < sh]). *)
Definition rne_shift (a sh : Z) : Z :=
  let q := Z.shiftr a sh in
  let r := Z.land a (Z.ones sh) in
  let half := 2 ^ (sh - 1) in
  if (half <? r) || ((r =? half) && Z.odd q) then q + 1 else q.

(** Round the exact value [m * 2^e] to binary64, round-to-nearest-even,
    overflowing to an infinity. *)
Definition round (m e : Z) : double :=
  let a := Z.abs m in
  let sh := Z.max (Z.log2 a - (prec - 1)) (emin - e) in
  if sh <=? 0 then
    (if (a =? 0) || (Z.log2 a + e <? emax) then Fin m e else Inf (m <? 0))
  else
    let q := rne_shift a sh in
    if (q =? 0) || (Z.log2 q + (e + sh) <? emax)
    then Fin (Z.sgn m * q) (e + sh)
    else Inf (m <? 0).

(** C [double] multiplication. *)
Definition fmul (x y : double) : double :=
  match x, y with
  | NaN, _ | _, NaN => NaN
  | Fin m1 e1, Fin m2 e2 => round (m1 * m2) (e1 + e2)
  | Inf s, Fin m _ | Fin m _, Inf s =>
      if m =? 0 then NaN else Inf (xorb s (m <? 0))
  | Inf s1, Inf s2 => Inf (xorb s1 s2)
  end.

(** [PyLong_AsDouble]: the nearest double, or OverflowError. *)
Definition PyLong_AsDouble (n : Z) : result double :=
  match round n 0 with
  | Inf _ => Raise OverflowError
  | x => Ok x
  end.

(** [float * int] as [float.__mul__] does it: convert, then multiply. *)
Definition float_mul_int (x : double) (n : Z) : result double :=
  y ← PyLong_AsDouble n; mret (fmul x y).

(** [a / 2^k] on Python ints ([bits / 8]): true division of two ints is
    correctly rounded, and by a power of two that is the rounding of
    [a * 2^-k]. *)
Definition int_truediv_pow2 (a k : Z) : double := round a (- k).

(** The integer a double denotes, when it denotes one. *)
Definition int_value (x : double) : option Z :=
  match x with
  | Fin m e =>
      if 0 <=? e then Some (m * 2 ^ e)
      else if m mod 2 ^ (- e) =? 0 then Some (m / 2 ^ (- e)) else None
  | _ => None
  end.

(** [int(x)] on a float: truncation toward zero. *)
Definition int_of_float (x : double) : result Z :=
  match x with
  | Fin m e => Ok (if 0 <=? e then m * 2 ^ e else Z.quot m (2 ^ (- e)))
  | Inf _ => Raise OverflowError
  | NaN => Raise ValueError
  end.

End Binary64.


(** ** Capacity estimation: the per-table loop of [get_planner] *)

Module Capacity.
Import Binary64.
Local Open Scope Z_scope.

(** torchrec's [DataType] enumeration. *)
Inductive DataType : Type :=
| FP32 | FP16 | BF16 | INT64 | INT32 | INT8 | UINT8 | INT4 | INT2 | BIT.

(** The fields of torchrec's [EmbeddingConfig] that [get_planner] reads. *)
Record EmbeddingConfig : Type := {
  name : string;
  embedding_dim : Z;
  num_embeddings : Z;
  data_type : DataType;
}.

(** [DATA_TYPE_NUM_BITS[tmp_type]]: a dict with three keys. *)
Definition DATA_TYPE_NUM_BITS (t : DataType) : result Z :=
  match t with
  | FP32 => Ok 32
  | FP16 => Ok 16
  | BF16 => Ok 16
  | _ => Raise KeyError
  end.

(** *** [math.log2] on a Python int

    The double that [math.log2] returns is consumed by [math.ceil] only, so
    it is kept as its integer part together with the fact whether a
    fractional part survives the rounding to binary64: [l2_frac = false]
    says the double is exactly [l2_floor], [l2_frac = true] that it lies in
    the interval (l2_floor, l2_floor + 1].  libm's [log2] is taken to be
    correctly rounded (and hence exact at powers of two). *)

Record log2_double : Type := { l2_floor : Z; l2_frac : bool }.

(** [(a/b)^(2^q) < 2] for [0 < b <= a], by repeated squaring; stops as soon
    as the power has reached 2. *)
Fixpoint sq_below_2 (q : nat) (a b : Z) : bool :=
  match q with
  | O => a <? 2 * b
  | S q' => if 2 * b <=? a then false else sq_below_2 q' (a * a) (b * b)
  end.

(** [log2 (a/b) < c / 2^s], as a comparison of integer powers. *)
Definition log2_below (a b c : Z) (s : Z) : bool :=
  a ^ (2 ^ s) <? 2 ^ c * b ^ (2 ^ s).

(** libm [log2] at a double of integer value [X >= 1].  With
    [E = floor (log2 X)], the real logarithm [E + f] rounds down to the
    double [E] exactly when [f] is below half the gap [2^(log2 E - 52)]
    between [E] and the next double, that is when
    [(X / 2^E) ^ (2 ^ (53 - log2 E)) < 2]. *)
Definition libm_log2 (X : Z) : log2_double :=
  let E := Z.log2 X in
  if X =? 2 ^ E then {| l2_floor := E; l2_frac := false |}
  else {| l2_floor := E;
          l2_frac := negb (sq_below_2 (Z.to_nat (53 - Z.log2 E)) X (2 ^ E)) |}.

(** [_PyLong_Frexp] rounds the int to 53 bits with an unbounded exponent;
    the result is returned here as the integer [x * 2^e] it denotes. *)
Definition PyLong_Frexp (n : Z) : Z :=
  let sh := Z.log2 n - (prec - 1) in
  if sh <=? 0 then n else rne_shift n sh * 2 ^ sh.

(** The branch of [loghelper] for ints beyond the double range:
    [log2(x) + log2(2.0) * e] with [x * 2^e] from [_PyLong_Frexp],
    [0.5 <= x < 1].  With [X = x * 2^e], [E = e - 1] and [f = log2 (X/2^E)],
    the first rounding gives [t = RN(f - 1)], the sum [RN(t + e)] is the
    double [E] exactly when [1 + t <= 2^(log2 E - 53)], and that is
    [f < (2^(log2 E + 1) + 1) / 2^54] (for [E < 2^52]; no int that CPython
    can hold has more bits). *)
Definition loghelper_big (n : Z) : log2_double :=
  let X := PyLong_Frexp n in
  let E := Z.log2 X in
  if X =? 2 ^ E then {| l2_floor := E; l2_frac := false |}
  else {| l2_floor := E;
          l2_frac := negb (log2_below X (2 ^ E) (2 ^ (Z.log2 E + 1) + 1) 54) |}.

(** [math.log2(n)] for an int [n] (CPython's [loghelper]). *)
Definition math_log2 (n : Z) : result log2_double :=
  if n <=? 0 then Raise ValueError           (* math domain error *)
  else match PyLong_AsDouble n with
       | Ok (Fin m e) => Ok (libm_log2 (m * 2 ^ e))
       | Ok _ => Raise ValueError            (* no int converts to inf/nan *)
       | Raise _ => Ok (loghelper_big n)
       end.

(** [math.ceil] of that double. *)
Definition math_ceil (r : log2_double) : Z :=
  if l2_frac r then l2_floor r + 1 else l2_floor r.

(** [2 ** math.ceil(math.log2(emb_num_embeddings))] *)
Definition next_power_of_2 (n : Z) : result Z :=
  r ← math_log2 n; mret (2 ^ math_ceil r).

(** [total_hbm_need] of one table, in evaluation order: the dict lookup,
    the true division by 8, the rounding of the row count, the two
    [float * int] products. *)
Definition total_hbm_need (c : EmbeddingConfig) : result double :=
  let dim := embedding_dim c in
  bits ← DATA_TYPE_NUM_BITS (data_type c);
  let embedding_type_bytes := int_truediv_pow2 bits 3 in
  p ← next_power_of_2 (num_embeddings c);
  x ← float_mul_int embedding_type_bytes dim;
  float_mul_int x p.

(** *** The planner object

    What [get_planner] passes to [DynamicEmbParameterConstraints],
    [Topology] and [DynamicEmbeddingShardingPlanner]. *)

Inductive ShardingType : Type := ROW_WISE.
Inductive DynamicEmbInitializerMode : Type := NORMAL.
Inductive DynamicEmbScoreStrategy : Type := STEP.

Record DynamicEmbTableOptions : Type := {
  global_hbm_for_values : double;
  initializer_mode : DynamicEmbInitializerMode;
  score_strategy : DynamicEmbScoreStrategy;
}.

Record DynamicEmbParameterConstraints : Type := {
  sharding_types : list ShardingType;
  use_dynamicemb : bool;
  dynamicemb_options : DynamicEmbTableOptions;
}.

Record Topology : Type := {
  local_world_size : Z;
  world_size : Z;
  compute_device : string;
  hbm_cap : Z;
  ddr_cap : Z;
  intra_host_bw : Z;
  inter_host_bw : Z;
}.

Record DynamicEmbeddingShardingPlanner : Type := {
  planner_eb_configs : list EmbeddingConfig;
  planner_topology : Topology;
  planner_constraints : gmap string DynamicEmbParameterConstraints;
  planner_batch_size : Z;
  planner_reserved_percent : Z;     (* HeuristicalStorageReservation(0.05) *)
}.

Definition make_constraints (total : double) : DynamicEmbParameterConstraints :=
  {| sharding_types := [ROW_WISE];
     use_dynamicemb := true;
     dynamicemb_options :=
       {| global_hbm_for_values := total;
          initializer_mode := NORMAL;
          score_strategy := STEP |} |}.

(** The [for eb_config in eb_configs] loop filling [dict_const]; the first
    exception leaves the loop and the function. *)
Fixpoint fill_dict_const (eb_configs : list EmbeddingConfig)
    (dict_const : gmap string DynamicEmbParameterConstraints)
  : result (gmap string DynamicEmbParameterConstraints) :=
  match eb_configs with
  | [] => Ok dict_const
  | eb_config :: rest =>
      total ← total_hbm_need eb_config;
      fill_dict_const rest (<[name eb_config := make_constraints total]> dict_const)
  end.

(** [get_planner(device, eb_configs, batch_size)]; [get_local_size()] and
    [dist.get_world_size()] are read from the process group and passed in. *)
Definition get_planner (device_type : string) (local_size group_size : Z)
    (eb_configs : list EmbeddingConfig) (batch_size : Z)
  : result DynamicEmbeddingShardingPlanner :=
  dict_const ← fill_dict_const eb_configs ∅;
  let topology :=
    {| local_world_size := local_size;
       world_size := group_size;
       compute_device := device_type;
       hbm_cap := 80 * 1024 * 1024 * 1024;
       ddr_cap := 512 * 1024 * 1024 * 1024;
       intra_host_bw := 450 * 10 ^ 9;
       inter_host_bw := 25 * 10 ^ 9 |} in
  mret {| planner_eb_configs := eb_configs;
          planner_topology := topology;
          planner_constraints := dict_const;
          planner_batch_size := batch_size;
          planner_reserved_percent := 5 |}.

(** The specification's rounding: the smallest power of two that is not
    below [n]. *)
Definition spec_next_power_of_two (n : Z) : Z := 2 ^ Z.log2_up n.

(** The specification's capacity: [b * d * next_power_of_two(n)]. *)
Definition spec_capacity (b d n : Z) : Z := b * d * spec_next_power_of_two n.

End Capacity.



(** ** [MovieLensDataset]: join, ordering by timestamp, 80/20 split *)

Module Dataset.
Import Binary64.
Local Open Scope Z_scope.

(** One parsed line of [ratings.dat], [users.dat] and [movies.dat]. *)
Record Rating : Type := {
  rating_user_id : Z;
  rating_movie_id : Z;
  rating_value : double;
  rating_timestamp : Z;
}.

Record User : Type := {
  user_user_id : Z;
  user_gender : Z;
  user_age : Z;
  user_occupation : Z;
}.

Record Movie : Type := {
  movie_movie_id : Z;
  movie_year : Z;
}.

(** A row of the joined frame; the columns that come from the right side of
    a left join are missing (NaN) when no key matched. *)
Record Row : Type := {
  user_id : Z;
  movie_id : Z;
  rating : double;
  timestamp : Z;
  gender : option Z;
  age : option Z;
  occupation : option Z;
  year : option Z;
}.

(** [pd.merge(left, right, on=key, how="left")]: every left row, in left
    order, once per matching right row (in right order), or once with the
    right columns missing.  A frame built from an empty list of dicts has
    no columns, and merging on a missing column raises KeyError. *)
Definition merge_left {L R O : Type} (key_l : L -> Z) (key_r : R -> Z)
    (combine : L -> option R -> O) (left : list L) (right : list R)
  : result (list O) :=
  match left, right with
  | [], _ | _, [] => Raise KeyError
  | _, _ =>
      Ok (List.flat_map
            (fun l =>
               match List.filter (fun r => key_r r =? key_l l) right with
               | [] => [combine l None]
               | ms => List.map (fun r => combine l (Some r)) ms
               end) left)
  end.

Definition with_user (r : Rating) (u : option User) : Row :=
  {| user_id := rating_user_id r;
     movie_id := rating_movie_id r;
     rating := rating_value r;
     timestamp := rating_timestamp r;
     gender := user_gender <$> u;
     age := user_age <$> u;
     occupation := user_occupation <$> u;
     year := None |}.

Definition with_movie (r : Row) (m : option Movie) : Row :=
  {| user_id := user_id r;
     movie_id := movie_id r;
     rating := rating r;
     timestamp := timestamp r;
     gender := gender r;
     age := age r;
     occupation := occupation r;
     year := movie_year <$> m |}.

(** The contract of [DataFrame.sort_values("timestamp")] as the source
    calls it, with the default [kind="quicksort"]: the rows come back
    reordered, ascending in the column.  pandas documents only
    [kind="mergesort"] and [kind="stable"] as stable, so nothing is said
    about rows with equal keys. *)
Definition timestamp_le (a b : Row) : Prop := timestamp a <= timestamp b.

Class SortKernel : Type := {
  sort_values : list Row -> list Row;
  sort_values_perm : forall d, Permutation d (sort_values d);
  sort_values_sorted : forall d, Sorted timestamp_le (sort_values d);
}.

(** The double nearest to the literal [0.8]. *)
Definition point_eight : double := Fin 3602879701896397 (-52).

(** [int(len(data) * 0.8)] *)
Definition split_idx (len : Z) : result Z :=
  x ← PyLong_AsDouble len; int_of_float (fmul x point_eight).

(** [Series.max()], which skips missing values. *)
Definition column_max (col : Row -> option Z) (d : list Row) : option Z :=
  List.fold_left
    (fun acc r =>
       match acc, col r with
       | Some a, Some v => Some (Z.max a v)
       | None, v => v
       | a, None => a
       end) d None.

Record MovieLensDataset : Type := {
  data : list Row;
  max_user_id : option Z;
  max_movie_id : option Z;
  max_age : option Z;
  max_occupation : option Z;
}.

(** The two [pd.merge] calls. *)
Definition joined_frame (ratings_df : list Rating) (users_df : list User)
    (movies_df : list Movie) : result (list Row) :=
  d ← merge_left rating_user_id user_user_id with_user ratings_df users_df;
  merge_left movie_id movie_movie_id with_movie d movies_df.

(** The frame before the split: both joins, then the ordering. *)
Definition ordered_frame `{SortKernel} (ratings_df : list Rating)
    (users_df : list User) (movies_df : list Movie) : result (list Row) :=
  d ← joined_frame ratings_df users_df movies_df;
  mret (sort_values d).

(** [MovieLensDataset.__init__] from the three parsed files on. *)
Definition MovieLensDataset_init `{SortKernel} (ratings_df : list Rating)
    (users_df : list User) (movies_df : list Movie) (split : string)
  : result MovieLensDataset :=
  d ← ordered_frame ratings_df users_df movies_df;
  idx ← split_idx (Z.of_nat (length d));
  let part :=
    if String.eqb split "train" then take (Z.to_nat idx) d
    else drop (Z.to_nat idx) d in
  mret {| data := part;
          max_user_id := column_max (fun r => Some (user_id r)) d;
          max_movie_id := column_max (fun r => Some (movie_id r)) d;
          max_age := column_max age d;
          max_occupation := column_max occupation d |}.

(** Largest and smallest timestamp of a split, [None] on an empty one. *)
Definition max_timestamp (d : list Row) : option Z :=
  column_max (fun r => Some (timestamp r)) d.

Definition min_timestamp (d : list Row) : option Z :=
  match d with
  | [] => None
  | r :: rs => Some (List.fold_left (fun m x => Z.min m (timestamp x)) rs (timestamp r))
  end.


End Dataset.

(** ** [parse_args]: command-line flags and their defaults *)

Module Cli.
Local Open Scope Z_scope.

(** Python values that occur as argument defaults; a float is kept as the
    text of its literal. *)
Inductive pyval : Type :=
| VInt (z : Z)
| VStr (s : string)
| VFloat (literal : string)
| VBool (b : bool).

(** *** [int(...)] on an ASCII string: optional surrounding whitespace, an
    optional sign, decimal digits with single underscores between them. *)

Definition is_space (c : Ascii.ascii) : bool :=
  let n := Ascii.nat_of_ascii c in
  ((9 <=? n) && (n <=? 13))%nat || (n =? 32)%nat.

Fixpoint lstrip (s : string) : string :=
  match s with
  | String c s' => if is_space c then lstrip s' else s
  | EmptyString => s
  end.

Definition strip (s : string) : string :=
  String.rev (lstrip (String.rev (lstrip s))).

Definition digit_of (c : Ascii.ascii) : option Z :=
  let n := Ascii.nat_of_ascii c in
  if ((48 <=? n) && (n <=? 57))%nat then Some (Z.of_nat n - 48) else None.

Fixpoint parse_digits (s : string) (acc : Z) (after_digit : bool) : option Z :=
  match s with
  | EmptyString => if after_digit then Some acc else None
  | String c s' =>
      match digit_of c with
      | Some d => parse_digits s' (10 * acc + d) true
      | None =>
          if Ascii.eqb c "_" && after_digit then parse_digits s' acc false
          else None
      end
  end.

Definition int_of_string (s : string) : result Z :=
  let body sign t :=
    match parse_digits t 0 false with
    | Some z => Ok (sign * z)
    | None => Raise ValueError
    end in
  match strip s with
  | String "+" t => body 1 t
  | String "-" t => body (-1) t
  | t => body 1 t
  end.

(** [int(x)] where [x] is a default taken from [os.environ.get]. *)
Definition py_int (v : pyval) : result Z :=
  match v with
  | VInt z => Ok z
  | VStr s => int_of_string s
  | VBool b => Ok (if b then 1 else 0)
  | VFloat _ => Raise ValueError
  end.

(** [os.environ.get(key, default)] *)
Definition environ_get (environ : gmap string string) (key : string)
    (default : pyval) : pyval :=
  match environ !! key with
  | Some s => VStr s
  | None => default
  end.

(** The [default=] expression of every [add_argument] call, evaluated in
    the environment of the process. *)
Definition default_value (environ : gmap string string) (flag : string)
  : result pyval :=
  if String.eqb flag "--train" then Ok (VBool false)
  else if String.eqb flag "--load" then Ok (VBool false)
  else if String.eqb flag "--dump" then Ok (VBool false)
  else if String.eqb flag "--incremental_dump" then Ok (VBool false)
  else if String.eqb flag "--data_path" then Ok (VStr "./ml-1m")
  else if String.eqb flag "--epochs" then Ok (VInt 5)
  else if String.eqb flag "--batch_size" then Ok (VInt 1024)
  else if String.eqb flag "--lr" then Ok (VFloat "0.01")
  else if String.eqb flag "--embedding_dim" then Ok (VInt 64)
  else if String.eqb flag "--num_embeddings" then Ok (VInt 10000)
  else if String.eqb flag "--mlp_dims" then Ok (VStr "128,64,32")
  else if String.eqb flag "--save_dir" then Ok (VStr "./model_checkpoints")
  else if String.eqb flag "--seed" then Ok (VInt 42)
  else if String.eqb flag "--local_rank" then
    VInt <$> py_int (environ_get environ "LOCAL_RANK" (VInt 0))
  else if String.eqb flag "--local_world_size" then
    VInt <$> py_int (environ_get environ "LOCAL_WORLD_SIZE" (VInt 1))
  else if String.eqb flag "--node_rank" then
    VInt <$> py_int (environ_get environ "RANK" (VInt 0))
  else if String.eqb flag "--num_nodes" then
    VInt <$> py_int (environ_get environ "PET_NNODES" (VInt 1))
  else if String.eqb flag "--master_addr" then
    Ok (environ_get environ "MASTER_ADDR" (VStr "localhost"))
  else if String.eqb flag "--master_port" then
    Ok (environ_get environ "MASTER_PORT" (VStr "29500"))
  else if String.eqb flag "--backend" then Ok (VStr "nccl")
  else Raise KeyError.

(** The [args] namespace. *)
Record Namespace : Type := {
  train : bool;
  load : bool;
  dump : bool;
  incremental_dump : bool;
  data_path : string;
  epochs : Z;
  batch_size : Z;
  lr : string;
  embedding_dim : Z;
  num_embeddings : Z;
  mlp_dims : string;
  save_dir : string;
  seed : Z;
  local_rank : Z;
  local_world_size : Z;
  node_rank : Z;
  num_nodes : Z;
  master_addr : string;
  master_port : string;
  backend : string;
}.

(** The flags in the order of the [add_argument] calls. *)
Definition all_flags : list string :=
  [ "--train"; "--load"; "--dump"; "--incremental_dump";
    "--data_path"; "--epochs"; "--batch_size"; "--lr"; "--embedding_dim";
    "--num_embeddings"; "--mlp_dims"; "--save_dir"; "--seed"; "--local_rank";
    "--local_world_size"; "--node_rank"; "--num_nodes"; "--master_addr";
    "--master_port"; "--backend" ].

(** Building the parser evaluates every default expression, in order; an
    environment variable that [int] cannot read raises here, before the
    command line is looked at. *)
Fixpoint build_parser (environ : gmap string string) (flags : list string)
  : result unit :=
  match flags with
  | [] => Ok tt
  | flag :: rest => _ ← default_value environ flag; build_parser environ rest
  end.

(** One option of the parser: the raw text given on the command line, run
    through [type=] (argparse exits when that fails), or else the
    default. *)
Definition int_option (environ cli : gmap string string) (flag : string)
  : result Z :=
  d ← default_value environ flag;
  match cli !! flag with
  | Some raw =>
      match int_of_string raw with
      | Ok z => Ok z
      | Raise _ => Raise SystemExit
      end
  | None => py_int d
  end.

Definition str_option (environ cli : gmap string string) (flag : string)
  : result string :=
  d ← default_value environ flag;
  match cli !! flag, d with
  | Some raw, _ => Ok raw
  | None, VStr s => Ok s
  | None, VFloat s => Ok s
  | None, _ => Raise ValueError
  end.

Definition store_true (cli : gmap string string) (flag : string) : bool :=
  bool_decide (is_Some (cli !! flag)).

(** [parse_args()]: [cli] holds the flags present on the command line with
    their raw text.  The text given for [--lr] is kept as it is; reading
    it as a float is not modelled. *)
Definition parse_args (environ cli : gmap string string) : result Namespace :=
  _ ← build_parser environ all_flags;
  a_data_path ← str_option environ cli "--data_path";
  a_epochs ← int_option environ cli "--epochs";
  a_batch_size ← int_option environ cli "--batch_size";
  a_lr ← str_option environ cli "--lr";
  a_embedding_dim ← int_option environ cli "--embedding_dim";
  a_num_embeddings ← int_option environ cli "--num_embeddings";
  a_mlp_dims ← str_option environ cli "--mlp_dims";
  a_save_dir ← str_option environ cli "--save_dir";
  a_seed ← int_option environ cli "--seed";
  a_local_rank ← int_option environ cli "--local_rank";
  a_local_world_size ← int_option environ cli "--local_world_size";
  a_node_rank ← int_option environ cli "--node_rank";
  a_num_nodes ← int_option environ cli "--num_nodes";
  a_master_addr ← str_option environ cli "--master_addr";
  a_master_port ← str_option environ cli "--master_port";
  a_backend ← str_option environ cli "--backend";
  mret {| train := store_true cli "--train";
          load := store_true cli "--load";
          dump := store_true cli "--dump";
          incremental_dump := store_true cli "--incremental_dump";
          data_path := a_data_path;
          epochs := a_epochs;
          batch_size := a_batch_size;
          lr := a_lr;
          embedding_dim := a_embedding_dim;
          num_embeddings := a_num_embeddings;
          mlp_dims := a_mlp_dims;
          save_dir := a_save_dir;
          seed := a_seed;
          local_rank := a_local_rank;
          local_world_size := a_local_world_size;
          node_rank := a_node_rank;
          num_nodes := a_num_nodes;
          master_addr := a_master_addr;
          master_port := a_master_port;
          backend := a_backend |}.

(** The flags the interface section of the specification lists with
    "defaulting from an environment variable". *)
Definition listed_flags : list string :=
  [ "--data_path"; "--epochs"; "--batch_size"; "--lr"; "--embedding_dim";
    "--num_embeddings"; "--mlp_dims"; "--save_dir"; "--seed"; "--local_rank";
    "--local_world_size"; "--node_rank"; "--num_nodes"; "--master_addr";
    "--master_port"; "--backend" ].

(** A flag takes its default from the environment variable [var]: whenever
    the variable is set, the default is its text, as it is or read as an
    int. *)
Definition default_from_variable (flag var : string) : Prop :=
  forall (environ : gmap string string) (s : string),
    environ !! var = Some s ->
    default_value environ flag = Ok (VStr s) \/
    default_value environ flag = VInt <$> int_of_string s.

Definition default_from_environment (flag : string) : Prop :=
  exists var : string, default_from_variable flag var.

End Cli.

(** ** The driver: [download_movielens], [dump], [inc_dump], [main] *)

Module Driver.
Import Cli.
Local Open Scope Z_scope.

(** *** [os.path] on POSIX *)

Definition starts_with_slash (s : string) : bool :=
  match s with
  | String c _ => Ascii.eqb c "/"
  | EmptyString => false
  end.

(** [os.path.join(a, b)] *)
Definition path_join (a b : string) : string :=
  if starts_with_slash b then b
  else if String.eqb a "" || starts_with_slash (String.rev a) then a ++ b
  else a ++ "/" ++ b.

Fixpoint from_slash (r : string) : string :=
  match r with
  | String c r' => if Ascii.eqb c "/" then r else from_slash r'
  | EmptyString => r
  end.

Fixpoint lstrip_slashes (r : string) : string :=
  match r with
  | String c r' => if Ascii.eqb c "/" then lstrip_slashes r' else r
  | EmptyString => r
  end.

(** [os.path.dirname(p)]: the text up to the last slash, without trailing
    slashes unless it consists of slashes only. *)
Definition dirname (p : string) : string :=
  let head := from_slash (String.rev p) in
  match lstrip_slashes head with
  | EmptyString => String.rev head
  | stripped => String.rev stripped
  end.

(** The last component of a path. *)
Fixpoint until_slash (r : string) : string :=
  match r with
  | String c r' => if Ascii.eqb c "/" then EmptyString else String c (until_slash r')
  | EmptyString => r
  end.

Definition basename (p : string) : string :=
  String.rev (until_slash (String.rev p)).

Section Program.

(** The objects of torch and dynamicemb stay abstract: a model with its
    optimizer, a collated batch, a dump watermark, a tensor of dumped
    rows. *)
Context {Model Batch Score Tensor : Type}.

Inductive blob : Type :=
| ZipArchive
| DatasetFile (member : string)
| Checkpoint (m : Model)        (* torch.save of the two state dicts *)
| EmbeddingDump (m : Model).    (* DynamicEmbDump *)

Inductive mode : Type := TrainMode | DumpMode | LoadMode | IncDumpMode.

Inductive event : Type :=
| EvInitProcessGroup
| EvDownloadCall (data_dir : string) (global_rank : Z)
| EvUrlRetrieve (url zip_path : string)
| EvBarrier
| EvEnter (m : mode)
| EvIncrementalDump (since returned : Score)
| EvLog (epoch batch_idx : Z) (dump_number : option Z)
| EvLogAverage (epoch : Z)
| EvLogText (line : string)
| EvWrite (path : string)
| EvDestroyProcessGroup.

(** What a process can change: regular files, directories, and the
    sequence of calls it has made so far. *)
Record World : Type := {
  files : gmap string blob;
  dirs : gset string;
  trace : list event;
}.

(** State and exceptions. *)
Definition M (A : Type) : Type := World -> result A * World.

#[export] Instance M_ret : MRet M := fun A a w => (Ok a, w).
#[export] Instance M_bind : MBind M := fun A B f m w =>
  match m w with
  | (Ok a, w') => f a w'
  | (Raise e, w') => (Raise e, w')
  end.

Definition raise {A : Type} (e : exn) : M A := fun w => (Raise e, w).

Definition lift {A : Type} (r : result A) : M A := fun w => (r, w).

Definition emit (e : event) : M unit := fun w =>
  (Ok tt, {| files := files w; dirs := dirs w; trace := trace w ++ [e] |}).

Definition makedirs (path : string) : M unit := fun w =>
  (Ok tt, {| files := files w; dirs := {[ path ]} ∪ dirs w; trace := trace w |}).

Definition exists_file (path : string) : M bool := fun w =>
  (Ok (bool_decide (is_Some (files w !! path))), w).

Definition write_file (path : string) (b : blob) : M unit := fun w =>
  (Ok tt, {| files := <[ path := b ]> (files w); dirs := dirs w;
             trace := trace w ++ [EvWrite path] |}).

Definition remove_file (path : string) : M unit := fun w =>
  (Ok tt, {| files := delete path (files w); dirs := dirs w; trace := trace w |}).

(** [shutil.move(src, dst)] of a regular file. *)
Definition move_file (src dst : string) : M unit := fun w =>
  match files w !! src with
  | Some b =>
      (Ok tt, {| files := <[ dst := b ]> (delete src (files w)); dirs := dirs w;
                 trace := trace w ++ [EvWrite dst] |})
  | None => (Raise FileNotFoundError, w)
  end.

(** [shutil.rmtree(dir)] *)
Definition rmtree (dir : string) : M unit := fun w =>
  (Ok tt, {| files := filter (fun kv => dirname kv.1 ≠ dir) (files w);
             dirs := dirs w ∖ {[ dir ]}; trace := trace w |}).

(** [os.listdir(dir)] for the regular files directly below [dir]. *)
Definition listdir (dir : string) : M (list string) := fun w =>
  (Ok (basename <$> List.filter (fun k => String.eqb (dirname k) dir)
                      (elements (dom (files w)))), w).

Fixpoint for_each {A S : Type} (body : S -> A -> M S) (l : list A) (s : S) : M S :=
  match l with
  | [] => mret s
  | x :: rest => s' ← body s x; for_each body rest s'
  end.

(** *** [download_movielens] *)

Definition movielens_url : string :=
  "https://files.grouplens.org/datasets/movielens/ml-1m.zip".

(** The regular files of the archive, as the paths stored in it. *)
Definition archive_members : list string :=
  [ "ml-1m/README"; "ml-1m/movies.dat"; "ml-1m/ratings.dat"; "ml-1m/users.dat" ].

Definition extractall (dest : string) : M unit :=
  for_each (fun _ member => write_file (path_join dest member) (DatasetFile member))
           archive_members tt.

Definition download_movielens (data_dir : string) (global_rank : Z) : M string :=
  _ ← emit (EvDownloadCall data_dir global_rank);
  if global_rank =? 0 then
    _ ← makedirs data_dir;
    present ← exists_file (path_join data_dir "ratings.dat");
    if (present : bool) then
      _ ← emit (EvLogText ("MovieLens in " ++ data_dir));
      mret data_dir
    else
      let zip_path := path_join data_dir "ml-1m.zip" in
      _ ← emit (EvLogText "download MovieLens-1M...");
      _ ← emit (EvUrlRetrieve movielens_url zip_path);
      _ ← write_file zip_path ZipArchive;
      _ ← extractall (dirname data_dir);
      let extracted_dir := path_join (dirname data_dir) "ml-1m" in
      _ ← (if String.eqb extracted_dir data_dir then mret tt
           else
             names ← listdir extracted_dir;
             _ ← for_each (fun _ file =>
                             move_file (path_join extracted_dir file)
                                       (path_join data_dir file)) names tt;
             rmtree extracted_dir);
      _ ← remove_file zip_path;
      mret data_dir
  else mret data_dir.

(** *** The collaborators of the training modes *)

(** What [incremental_dump] returns besides the new watermark: per module
    path and per table name, the tensors of the dumped keys and values. *)
Definition ret_tensors_t : Type :=
  list (string * list (string * (Tensor * Tensor))).

(** [t.size(0)] *)
Variable size0 : Tensor -> Z.

Variable create_model : Namespace -> Model.
(** The batches the loader of this rank yields in an epoch (the sampler is
    reshuffled by [set_epoch]). *)
Variable train_loader : Namespace -> Z -> list Batch.
(** Forward, loss, backward and optimizer step on one batch. *)
Variable train_step : Model -> Batch -> Model.
Variable get_score : Model -> Score.
Variable incremental_dump : Model -> Score -> ret_tensors_t * Score.
(** The modes [train] and [load] are not looked into here: each is given
    by its outcome, the files it leaves and the calls it adds to the
    trace. *)
Variable train load :
  Namespace -> Z -> Z -> World -> result unit * gmap string blob * list event.

Definition external
    (f : World -> result unit * gmap string blob * list event) : M unit :=
  fun w =>
    let out := f w in
    (out.1.1, {| files := out.1.2; dirs := dirs w; trace := trace w ++ out.2 |}).

(** [MovieLensDataset(data_path, split)] opens the three files.  Only
    that is followed here: reading the lines and joining the frames,
    which can raise as well (see [Dataset]), leave no mark on the world
    and are not part of the driver. *)
Definition open_dataset (data_path : string) : M unit :=
  r ← exists_file (path_join data_path "ratings.dat");
  u ← exists_file (path_join data_path "users.dat");
  m ← exists_file (path_join data_path "movies.dat");
  if (r : bool) && u && m then mret tt else raise FileNotFoundError.

Definition enumerate (l : list Batch) : list (Z * Batch) :=
  imap (fun i b => (Z.of_nat i, b)) l.

(** The double loop over [ret_tensors] that sums [tensors[0].size(0)]. *)
Definition count_dumped (ret_tensors : ret_tensors_t) : Z :=
  List.fold_left
    (fun dump_number named_tensors =>
       List.fold_left
         (fun dump_number table => dump_number + size0 table.2.1)
         named_tensors.2 dump_number)
    ret_tensors 0.

(** *** [inc_dump] *)

Definition inc_dump_batch (epoch : Z) (st : Model * Score) (ib : Z * Batch)
  : M (Model * Score) :=
  let model := train_step st.1 ib.2 in
  let undumped_score := st.2 in
  if ib.1 `mod` 100 =? 0 then
    let ret := incremental_dump model undumped_score in
    _ ← emit (EvIncrementalDump undumped_score ret.2);
    _ ← emit (EvLog epoch ib.1 (Some (count_dumped ret.1)));
    mret (model, ret.2)
  else mret (model, undumped_score).

Definition inc_dump_epoch (args : Namespace) (st : Model * Score) (epoch : Z)
  : M (Model * Score) :=
  let batches := train_loader args epoch in
  st' ← for_each (inc_dump_batch epoch) (enumerate batches) st;
  if bool_decide (batches = []) then raise ZeroDivisionError   (* total_loss / 0 *)
  else _ ← emit (EvLogAverage epoch); mret st'.

Definition inc_dump (args : Namespace) (global_rank world_size : Z) : M unit :=
  _ ← makedirs (save_dir args);
  _ ← open_dataset (data_path args);
  let model := create_model args in
  let undumped_score := get_score model in
  _ ← for_each (inc_dump_epoch args) (seqZ 0 (epochs args)) (model, undumped_score);
  mret tt.

(** *** [dump] *)

Definition dump_batch (epoch : Z) (model : Model) (ib : Z * Batch) : M Model :=
  let model := train_step model ib.2 in
  if ib.1 `mod` 100 =? 0 then
    _ ← emit (EvLog epoch ib.1 None); mret model
  else mret model.

Definition checkpoint_name (epoch global_rank : Z) : string :=
  "model_epoch_" ++ pretty (epoch + 1) ++ "_rank" ++ pretty global_rank ++ ".pt".

Definition dump_epoch (args : Namespace) (global_rank : Z) (model : Model)
    (epoch : Z) : M Model :=
  let batches := train_loader args epoch in
  model' ← for_each (dump_batch epoch) (enumerate batches) model;
  if bool_decide (batches = []) then raise ZeroDivisionError
  else
    _ ← emit (EvLogAverage epoch);
    _ ← write_file (path_join (save_dir args) (checkpoint_name epoch global_rank))
                   (Checkpoint model');
    mret model'.

Definition dump (args : Namespace) (global_rank world_size : Z) : M unit :=
  _ ← makedirs (save_dir args);
  _ ← open_dataset (data_path args);
  model ← for_each (dump_epoch args global_rank) (seqZ 0 (epochs args))
                   (create_model args);
  write_file (path_join (save_dir args) "dynamicemb") (EmbeddingDump model).

(** *** [main]

    [global_rank] and [world_size] are what [dist.get_rank()] and
    [dist.get_world_size()] return after [init_process_group].  The rank
    prefix of [print] and the seeding of the random generators leave no
    mark on the world and are left out. *)

Definition when (b : bool) (m : M unit) : M unit := if b then m else mret tt.

Definition main (environ cli : gmap string string) (global_rank world_size : Z)
  : M unit :=
  args ← lift (parse_args environ cli);
  _ ← emit EvInitProcessGroup;
  _ ← when (local_rank args =? 0)
           (_ ← download_movielens (data_path args) 0; mret tt);
  _ ← emit EvBarrier;
  _ ← when (Cli.train args)
           (_ ← emit (EvEnter TrainMode);
            external (train args global_rank world_size));
  _ ← when (Cli.dump args)
           (_ ← emit (EvEnter DumpMode); dump args global_rank world_size);
  _ ← when (Cli.load args)
           (_ ← emit (EvEnter LoadMode);
            external (load args global_rank world_size));
  _ ← when (Cli.incremental_dump args)
           (_ ← emit (EvEnter IncDumpMode); inc_dump args global_rank world_size);
  emit EvDestroyProcessGroup.

(** *** Reading a trace *)

(** The arguments and results of the [incremental_dump] calls, in order. *)
Definition dump_calls (t : list event) : list (Score * Score) :=
  omap (fun e => match e with
                 | EvIncrementalDump since returned => Some (since, returned)
                 | _ => None
                 end) t.

(** Each call is made with the watermark the call before it returned,
    starting from [first]; [last] is the watermark held at the end. *)
Inductive forwarded : Score -> list (Score * Score) -> Score -> Prop :=
| forwarded_nil (s : Score) : forwarded s [] s
| forwarded_cons (s r last : Score) (calls : list (Score * Score)) :
    forwarded r calls last -> forwarded s ((s, r) :: calls) last.

Definition is_write (e : event) : bool :=
  match e with EvWrite _ => true | _ => false end.

End Program.

End Driver.

(** ** The network: [create_model] and [MovieLensModel.__init__] *)

Module Network.
Import Cli.
Local Open Scope Z_scope.

(** The six tables [create_model] declares.  [data_type] is not given and
    stays at torchrec's default, [DataType.FP32]. *)
Definition eb_configs (args : Namespace) : list Capacity.EmbeddingConfig :=
  [ {| Capacity.name := "user_id";
       Capacity.embedding_dim := embedding_dim args;
       Capacity.num_embeddings := num_embeddings args;
       Capacity.data_type := Capacity.FP32 |};
    {| Capacity.name := "movie_id";
       Capacity.embedding_dim := embedding_dim args;
       Capacity.num_embeddings := num_embeddings args;
       Capacity.data_type := Capacity.FP32 |};
    {| Capacity.name := "gender";
       Capacity.embedding_dim := embedding_dim args;
       Capacity.num_embeddings := 2;
       Capacity.data_type := Capacity.FP32 |};
    {| Capacity.name := "age";
       Capacity.embedding_dim := embedding_dim args;
       Capacity.num_embeddings := 100;
       Capacity.data_type := Capacity.FP32 |};
    {| Capacity.name := "occupation";
       Capacity.embedding_dim := embedding_dim args;
       Capacity.num_embeddings := 50;
       Capacity.data_type := Capacity.FP32 |};
    {| Capacity.name := "year";
       Capacity.embedding_dim := embedding_dim args;
       Capacity.num_embeddings := 2050;
       Capacity.data_type := Capacity.FP32 |} ].

(** *** [args.mlp_dims.split(",")] and the [int] of every field *)

(** [s.split(sep)] for a separator of one character: the first field and
    the fields after it.  There is always a first field. *)
Fixpoint split_fields (sep : Ascii.ascii) (s : string) : string * list string :=
  match s with
  | EmptyString => (EmptyString, [])
  | String c s' =>
      let (w, ws) := split_fields sep s' in
      if Ascii.eqb c sep then (EmptyString, w :: ws) else (String c w, ws)
  end.

Definition str_split (sep : Ascii.ascii) (s : string) : list string :=
  let (w, ws) := split_fields sep s in w :: ws.

(** [[int(dim) for dim in fields]]: the first field that [int] rejects
    raises. *)
Fixpoint ints_of (fields : list string) : result (list Z) :=
  match fields with
  | [] => Ok []
  | f :: rest => z ← int_of_string f; zs ← ints_of rest; mret (z :: zs)
  end.

Definition mlp_dims_of (args : Namespace) : result (list Z) :=
  ints_of (str_split "," (mlp_dims args)).

(** *** [MovieLensModel.__init__] *)

(** The modules put into the two [nn.Sequential] containers. *)
Inductive layer : Type :=
| Linear (in_features out_features : Z)
| ReLU.

Record MovieLensModel : Type := {
  dense_arch : list layer;
  over_arch : list layer;
}.

(** What the constructor can raise. *)
Inductive init_error : Type :=
| IndexError         (* [sizes[0]], [sizes[-1]], [configs[0]] on an empty list *)
| AssertionError     (* tables of different widths *)
| RuntimeError.      (* torch: a tensor with a negative dimension *)

Definition try {E A B : Type} (r : E + A) (k : A -> E + B) : E + B :=
  match r with
  | inl e => inl e
  | inr a => k a
  end.

(** [nn.Linear(i, o)] allocates a weight of shape [(o, i)]; torch rejects
    a negative dimension.  Running out of memory is not modelled. *)
Definition nn_Linear (i o : Z) : init_error + layer :=
  if (i <? 0) || (o <? 0) then inl RuntimeError else inr (Linear i o).

(** The loop [for i in range(len(sizes) - 1)] appending
    [nn.Linear(sizes[i], sizes[i + 1])] and [nn.ReLU()]. *)
Fixpoint hidden_layers (sizes : list Z) : init_error + list layer :=
  match sizes with
  | a :: (b :: _) as rest =>
      try (nn_Linear a b) (fun l =>
      try (hidden_layers rest) (fun ls => inr (l :: ReLU :: ls)))
  | _ => inr []
  end.

(** [sizes[0]] and [sizes[-1]] *)
Definition first_item (sizes : list Z) : init_error + Z :=
  match sizes with
  | [] => inl IndexError
  | a :: _ => inr a
  end.

Definition last_item (sizes : list Z) : init_error + Z :=
  match List.rev sizes with
  | [] => inl IndexError
  | a :: _ => inr a
  end.

(** The loop of assertions over the tables. *)
Fixpoint assert_widths (embedding_dim : Z) (configs : list Capacity.EmbeddingConfig)
  : init_error + unit :=
  match configs with
  | [] => inr tt
  | config :: rest =>
      if embedding_dim =? Capacity.embedding_dim config
      then assert_widths embedding_dim rest
      else inl AssertionError
  end.

(** [MovieLensModel(embedding_module, dense_in_features,
    dense_arch_layer_sizes, over_arch_layer_sizes)], with the tables of
    the embedding module given as [embedding_configs]. *)
Definition MovieLensModel_init (embedding_configs : list Capacity.EmbeddingConfig)
    (dense_in_features : Z) (dense_arch_layer_sizes over_arch_layer_sizes : list Z)
  : init_error + MovieLensModel :=
  try (hidden_layers dense_arch_layer_sizes) (fun dense_arch_layers =>
  try (match embedding_configs with
       | [] => inl IndexError
       | config :: _ => inr (Capacity.embedding_dim config)
       end) (fun embedding_dim =>
  try (assert_widths embedding_dim embedding_configs) (fun _ =>
  try (if dense_in_features =? 0 then inr embedding_dim
       else try (last_item dense_arch_layer_sizes)
                (fun d => inr (d + embedding_dim))) (fun input_dim =>
  try (first_item over_arch_layer_sizes) (fun first_size =>
  try (nn_Linear input_dim first_size) (fun first_layer =>
  try (hidden_layers over_arch_layer_sizes) (fun hidden =>
  try (last_item over_arch_layer_sizes) (fun last_size =>
  try (nn_Linear last_size 1) (fun last_layer =>
  inr {| dense_arch := dense_arch_layers;
         over_arch := first_layer :: ReLU :: hidden ++ [last_layer] |}))))))))).

(** The model [create_model] builds on the parsed widths: no dense
    features, a placeholder dense arch of sizes [[1, 1]]. *)
Definition create_model_network (args : Namespace) (mlp_dims : list Z)
  : init_error + MovieLensModel :=
  MovieLensModel_init (eb_configs args) 0 [1; 1] mlp_dims.

(** The width that comes out of a stack of layers fed with rows of width
    [w]: a [Linear] accepts only its own [in_features]. *)
Fixpoint output_width (layers : list layer) (w : Z) : option Z :=
  match layers with
  | [] => Some w
  | ReLU :: rest => output_width rest w
  | Linear i o :: rest => if w =? i then output_width rest o else None
  end.

(** *** [create_model] up to the planner *)

(** Where [create_model] can stop. *)
Inductive create_error : Type :=
| TableError                      (* raised by torchrec for the tables *)
| DimsError (e : exn)             (* [int(dim)] on a field of [--mlp_dims] *)
| ModelError (e : init_error)     (* [MovieLensModel.__init__] *)
| PlannerError (e : exn).         (* [get_planner] *)

Section CreateModel.

(** torchrec's constructors of the six [EmbeddingConfig]s and of the
    [EmbeddingCollection] on the meta device: left to torchrec, [false]
    when one of them raises. *)
Variable embedding_collection : list Capacity.EmbeddingConfig -> bool.

(** [create_model(args, device)] in the order of the source: the tables
    and their collection, the widths of [--mlp_dims], the model, and then,
    in [get_dynamicemb_dmp], [get_planner] on the tables of the collection
    with [args.batch_size].  The sharding plan and the wrapping of the
    collection that follow are torchrec's and are not modelled: the result
    is the model together with the planner that was asked for. *)
Definition create_model (args : Namespace) (device_type : string)
    (local_size group_size : Z)
  : create_error + (MovieLensModel * Capacity.DynamicEmbeddingShardingPlanner) :=
  if embedding_collection (eb_configs args) then
    match mlp_dims_of args with
    | Raise e => inl (DimsError e)
    | Ok mlp_dims =>
        match create_model_network args mlp_dims with
        | inl e => inl (ModelError e)
        | inr model =>
            match Capacity.get_planner device_type local_size group_size
                                       (eb_configs args) (batch_size args) with
            | Raise e => inl (PlannerError e)
            | Ok planner => inr (model, planner)
            end
        end
    end
  else inl TableError.

End CreateModel.

End Network.

(** ** Batches: [__len__], [__getitem__] and [collate_fn] *)

Module Batching.
Import Binary64.
Local Open Scope Z_scope.

(** The features [collate_fn] gathers, in the order of its dict. *)
Definition feature_keys : list string :=
  [ "user_id"; "movie_id"; "gender"; "age"; "occupation"; "year" ].

Section Items.

(** How [torch.tensor([x], dtype=torch.long)] reads a cell of a frame row
    ([None] is the missing value of a left join): left to torch. *)
Variable to_long : option Z -> Z.

Definition len (ds : Dataset.MovieLensDataset) : Z :=
  Z.of_nat (length (Dataset.data ds)).

(** [self.data.iloc[idx]]: a negative index counts from the end; [None]
    is pandas' IndexError. *)
Definition iloc (d : list Dataset.Row) (idx : Z) : option Dataset.Row :=
  let n := Z.of_nat (length d) in
  if (0 <=? idx) && (idx <? n) then d !! Z.to_nat idx
  else if (- n <=? idx) && (idx <? 0) then d !! Z.to_nat (idx + n)
  else None.

(** The dict of one-element tensors of [__getitem__]. *)
Definition sparse_features_of (row : Dataset.Row) : gmap string (list Z) :=
  list_to_map
    [ ("user_id"%string, [to_long (Some (Dataset.user_id row))]);
      ("movie_id"%string, [to_long (Some (Dataset.movie_id row))]);
      ("gender"%string, [to_long (Dataset.gender row)]);
      ("age"%string, [to_long (Dataset.age row)]);
      ("occupation"%string, [to_long (Dataset.occupation row)]);
      ("year"%string, [to_long (Dataset.year row)]) ].

(** [dataset[idx]]; the label is the rating before its narrowing to
    float32. *)
Definition getitem (ds : Dataset.MovieLensDataset) (idx : Z)
  : option (gmap string (list Z) * double) :=
  row ← iloc (Dataset.data ds) idx;
  Some (sparse_features_of row, Dataset.rating row).

End Items.

Record KeyedJaggedTensor : Type := {
  keys : list string;
  values : list Z;
  lengths : list Z;
}.

(** The dict [sparse_features] of [collate_fn], a list per feature. *)
Definition empty_features : gmap string (list Z) :=
  list_to_map ((fun key => (key, [])) <$> feature_keys).

(** [sparse_features[key].extend(features[key].tolist())]; a batch item
    without the feature raises KeyError. *)
Definition extend_feature (features : gmap string (list Z))
    (sparse_features : gmap string (list Z)) (key : string)
  : result (gmap string (list Z)) :=
  match features !! key with
  | Some t => Ok (<[ key := default [] (sparse_features !! key) ++ t ]> sparse_features)
  | None => Raise KeyError
  end.

Fixpoint extend_features (features : gmap string (list Z)) (keys : list string)
    (sparse_features : gmap string (list Z)) : result (gmap string (list Z)) :=
  match keys with
  | [] => Ok sparse_features
  | key :: rest =>
      sf ← extend_feature features sparse_features key;
      extend_features features rest sf
  end.

(** The loop [for features, label in batch]. *)
Fixpoint gather {Label : Type} (batch : list (gmap string (list Z) * Label))
    (sparse_features : gmap string (list Z)) : result (gmap string (list Z)) :=
  match batch with
  | [] => Ok sparse_features
  | item :: rest =>
      sf ← extend_features item.1 feature_keys sparse_features;
      gather rest sf
  end.

(** [collate_fn(batch)]: the values of each feature over the batch, one
    feature after the other, and a length of 1 per item and feature. *)
Definition collate_fn {Label : Type} (batch : list (gmap string (list Z) * Label))
  : result (KeyedJaggedTensor * list Label) :=
  sparse_features ← gather batch empty_features;
  let lengths_of (key : string) := replicate (length batch) 1 in
  let values_of (key : string) := default [] (sparse_features !! key) in
  mret ({| keys := feature_keys;
           values := List.concat (values_of <$> feature_keys);
           lengths := List.concat (lengths_of <$> feature_keys) |},
        snd <$> batch).

End Batching.

(** ** The sort behind [sort_values]: numpy's quicksort on positions

    [data.sort_values("timestamp")] orders the frame by the positions that
    [numpy.argsort] returns for the column, with the default
    [kind="quicksort"].  For a column of 64-bit integers that is numpy's
    [aquicksort] (npysort/quicksort): an introsort on the array [tosort]
    of positions, which compares the keys [v] the positions point at.
    numpy is not part of the repository; the kernel is followed here
    statement by statement, in its scalar form (on processors with
    AVX-512 numpy hands the array to a vectorised sort instead). *)

Module Argsort.
Local Open Scope Z_scope.

Section Kernel.

(** The column, and the array of positions as the pointers [pl], [pr],
    [pi], [pj], [pk] index it (from 0). *)
Variable v : list Z.

(** [v[*p]] *)
Definition key (tosort : list nat) (p : Z) : Z :=
  v !!! (tosort !!! Z.to_nat p).

(** [INTP_SWAP] of the positions at [p] and [q] *)
Definition INTP_SWAP (tosort : list nat) (p q : Z) : list nat :=
  <[ Z.to_nat p := tosort !!! Z.to_nat q ]>
    (<[ Z.to_nat q := tosort !!! Z.to_nat p ]> tosort).

(** *** The partition loop

    [do ++pi; while (v[*pi] < vp);] and [do --pj; while (vp < v[*pj]);]
    The median of three leaves a key that is not below [vp] at [pr - 1]
    and one that is not above it at [pl], so both scans stop inside the
    partition; [fuel] only makes them structural. *)
Fixpoint scan_up (fuel : nat) (tosort : list nat) (vp pi : Z) : Z :=
  match fuel with
  | O => pi
  | S fuel =>
      let pi := pi + 1 in
      if key tosort pi <? vp then scan_up fuel tosort vp pi else pi
  end.

Fixpoint scan_down (fuel : nat) (tosort : list nat) (vp pj : Z) : Z :=
  match fuel with
  | O => pj
  | S fuel =>
      let pj := pj - 1 in
      if vp <? key tosort pj then scan_down fuel tosort vp pj else pj
  end.

(** [for (;;) { scan up; scan down; if (pi >= pj) break;
    swap at pi, pj; }] *)
Fixpoint partition_loop (fuel : nat) (tosort : list nat) (vp pi pj : Z)
  : list nat * Z :=
  match fuel with
  | O => (tosort, pi)
  | S fuel =>
      let pi := scan_up (length tosort) tosort vp pi in
      let pj := scan_down (length tosort) tosort vp pj in
      if pj <=? pi then (tosort, pi)
      else partition_loop fuel (INTP_SWAP tosort pi pj) vp pi pj
  end.

(** One pass of the body of [while ((pr - pl) > SMALL_QUICKSORT)] up to
    the push: median of three, pivot parked at [pr - 1], partition, pivot
    put in place at [pi]. *)
Definition partition (tosort : list nat) (pl pr : Z) : list nat * Z :=
  let pm := pl + Z.shiftr (pr - pl) 1 in
  let tosort :=
    if key tosort pm <? key tosort pl then INTP_SWAP tosort pm pl else tosort in
  let tosort :=
    if key tosort pr <? key tosort pm then INTP_SWAP tosort pr pm else tosort in
  let tosort :=
    if key tosort pm <? key tosort pl then INTP_SWAP tosort pm pl else tosort in
  let vp := key tosort pm in
  let pi := pl in
  let pj := pr - 1 in
  let tosort := INTP_SWAP tosort pm pj in
  let '(tosort, pi) := partition_loop (length tosort) tosort vp pi pj in
  let pk := pr - 1 in
  (INTP_SWAP tosort pi pk, pi).

(** *** Insertion sort of [pl .. pr]

    [while (pj > pl && vp < v[*pk]) { *pj-- = *pk--; }] with
    [pk = pj - 1] throughout. *)
Fixpoint shift (fuel : nat) (tosort : list nat) (pl vp pj : Z)
  : list nat * Z :=
  match fuel with
  | O => (tosort, pj)
  | S fuel =>
      if (pl <? pj) && (vp <? key tosort (pj - 1))
      then shift fuel (<[ Z.to_nat pj := tosort !!! Z.to_nat (pj - 1) ]> tosort)
                 pl vp (pj - 1)
      else (tosort, pj)
  end.

(** The body of [for (pi = pl + 1; pi <= pr; ++pi)]. *)
Definition insert (tosort : list nat) (pl pi : Z) : list nat :=
  let vi := tosort !!! Z.to_nat pi in
  let vp := v !!! vi in
  let '(tosort, pj) := shift (Z.to_nat (pi - pl)) tosort pl vp pi in
  <[ Z.to_nat pj := vi ]> tosort.

Fixpoint insertion_loop (n : nat) (tosort : list nat) (pl pi : Z) : list nat :=
  match n with
  | O => tosort
  | S n => insertion_loop n (insert tosort pl pi) pl (pi + 1)
  end.

Definition insertion_sort (tosort : list nat) (pl pr : Z) : list nat :=
  insertion_loop (Z.to_nat (pr - pl)) tosort pl (pl + 1).

(** *** Heap sort of the [n] positions from [pl] on ([aheapsort], called
    when the depth limit is used up); [a[i]], counted from 1, is
    [tosort[pl + i - 1]]. *)
Definition a_get (tosort : list nat) (pl i : Z) : nat :=
  tosort !!! Z.to_nat (pl + i - 1).

Definition a_set (tosort : list nat) (pl i : Z) (x : nat) : list nat :=
  <[ Z.to_nat (pl + i - 1) := x ]> tosort.

(** [for (...; j <= n;) { if (j < n && v[a[j]] < v[a[j+1]]) j += 1;
    if (v[tmp] < v[a[j]]) { a[i] = a[j]; i = j; j += j; } else break; }
    a[i] = tmp;] *)
Fixpoint sift (fuel : nat) (tosort : list nat) (pl n : Z) (tmp : nat) (i j : Z)
  : list nat :=
  match fuel with
  | O => a_set tosort pl i tmp
  | S fuel =>
      if j <=? n then
        let j :=
          if (j <? n) &&
             (v !!! a_get tosort pl j <? v !!! a_get tosort pl (j + 1))
          then j + 1 else j in
        if v !!! tmp <? v !!! a_get tosort pl j
        then sift fuel (a_set tosort pl i (a_get tosort pl j)) pl n tmp j (j + j)
        else a_set tosort pl i tmp
      else a_set tosort pl i tmp
  end.

(** [for (l = n >> 1; l > 0; --l) { tmp = a[l]; sift from l }] *)
Fixpoint build_heap (l : nat) (tosort : list nat) (pl n : Z) : list nat :=
  match l with
  | O => tosort
  | S l' =>
      let tmp := a_get tosort pl (Z.of_nat l) in
      build_heap l' (sift (length tosort) tosort pl n tmp
                          (Z.of_nat l) (Z.shiftl (Z.of_nat l) 1)) pl n
  end.

(** [for (; n > 1;) { tmp = a[n]; a[n] = a[1]; n -= 1; sift from 1 }] *)
Fixpoint drain_heap (fuel : nat) (tosort : list nat) (pl n : Z) : list nat :=
  match fuel with
  | O => tosort
  | S fuel =>
      if 1 <? n then
        let tmp := a_get tosort pl n in
        let tosort := a_set tosort pl n (a_get tosort pl 1) in
        let n := n - 1 in
        drain_heap fuel (sift (length tosort) tosort pl n tmp 1 2) pl n
      else tosort
  end.

Definition aheapsort (tosort : list nat) (pl n : Z) : list nat :=
  drain_heap (Z.to_nat n)
             (build_heap (Z.to_nat (Z.shiftr n 1)) tosort pl n) pl n.

(** *** The loop over the stack of pending partitions

    [SMALL_QUICKSORT] is 16.  [inner] tells that control is inside
    [while ((pr - pl) > SMALL_QUICKSORT)], where the depth limit is not
    looked at; a frame of the stack is a pending partition with the depth
    it was pushed with. *)
Definition SMALL_QUICKSORT : Z := 16.

Fixpoint aquicksort_loop (fuel : nat) (tosort : list nat) (pl pr cdepth : Z)
    (inner : bool) (stack : list (Z * Z * Z)) : list nat :=
  match fuel with
  | O => tosort
  | S fuel =>
      let stack_pop (tosort : list nat) :=
        match stack with
        | [] => tosort
        | (pl', pr', cdepth') :: stack =>
            aquicksort_loop fuel tosort pl' pr' cdepth' false stack
        end in
      if negb inner && (cdepth <? 0) then
        stack_pop (aheapsort tosort pl (pr - pl + 1))
      else if SMALL_QUICKSORT <? pr - pl then
        let '(tosort, pi) := partition tosort pl pr in
        (* push largest partition on stack *)
        if pi - pl <? pr - pi
        then aquicksort_loop fuel tosort pl (pi - 1) (cdepth - 1) true
                             ((pi + 1, pr, cdepth - 1) :: stack)
        else aquicksort_loop fuel tosort (pi + 1) pr (cdepth - 1) true
                             ((pl, pi - 1, cdepth - 1) :: stack)
      else stack_pop (insertion_sort tosort pl pr)
  end.

(** [aquicksort(v, tosort, num)]; [npy_get_msb(num)] is the position of
    the highest set bit.  Every pass of the loop partitions or retires a
    partition, so [2 * num + 2] passes are enough. *)
Definition aquicksort (tosort : list nat) : list nat :=
  let num := Z.of_nat (length tosort) in
  aquicksort_loop (2 * length tosort + 2) tosort 0 (num - 1) (Z.log2 num * 2)
                  false [].

End Kernel.

(** [numpy.argsort(v, kind="quicksort")]: the kernel run on the positions
    [0 .. len(v) - 1]. *)
Definition argsort (v : list Z) : list nat :=
  aquicksort v (seq 0 (length v)).


End Argsort.

(** ** [L2NormEmbeddingPostprocessor]
    (examples/hstu/modules/output_postprocessors.py) *)

Module Postprocessor.
Import Binary64.
Local Open Scope Z_scope.

(** The dtype of the tensor.  The two floating types whose elementwise
    kernels compute in the type of the tensor itself, on the CPU and on
    the GPU alike; the half-precision types are left out. *)
Inductive dtype : Type := float32 | float64.

(** Round the exact value [m * 2^e] to binary32, round-to-nearest-even,
    overflowing to an infinity: [Binary64.round] with 24 bits of
    precision, smallest subnormal [2^-149], finite values below
    [2^128]. *)
Definition round32 (m e : Z) : double :=
  let a := Z.abs m in
  let sh := Z.max (Z.log2 a - (24 - 1)) (-149 - e) in
  if sh <=? 0 then
    (if (a =? 0) || (Z.log2 a + e <? 128) then Fin m e else Inf (m <? 0))
  else
    let q := rne_shift a sh in
    if (q =? 0) || (Z.log2 q + (e + sh) <? 128)
    then Fin (Z.sgn m * q) (e + sh)
    else Inf (m <? 0).

(** A Python float (a binary64) as a scalar of the dtype: the C conversion
    from [double]. *)
Definition to_dtype (d : dtype) (x : double) : double :=
  match d, x with
  | float32, Fin m e => round32 m e
  | _, _ => x
  end.

(** [x < y] on floats; false when either side is NaN. *)
Definition flt (x y : double) : bool :=
  match x, y with
  | NaN, _ | _, NaN => false
  | Inf true, Inf true => false
  | Inf true, _ => true
  | _, Inf true => false
  | Inf false, _ => false
  | Fin _ _, Inf false => true
  | Fin m1 e1, Fin m2 e2 =>
      let e := Z.min e1 e2 in
      m1 * 2 ^ (e1 - e) <? m2 * 2 ^ (e2 - e)
  end.

(** One element of [torch.clamp(t, min=eps)]: the limit is [eps] as a
    scalar of the dtype of [t]; a NaN element stays NaN, any other
    element is replaced by the limit when it is below it. *)
Definition clamp_min (d : dtype) (v eps : double) : double :=
  let lim := to_dtype d eps in
  match v with
  | NaN => NaN
  | _ => if flt v lim then lim else v
  end.

(** [row[: embedding_dim]] on the last axis; a negative bound counts from
    the end. *)
Definition slice_to (embedding_dim : Z) (row : list double) : list double :=
  if 0 <=? embedding_dim then take (Z.to_nat embedding_dim) row
  else take (Z.to_nat (Z.of_nat (length row) + embedding_dim)) row.

Section Forward.

(** [torch.linalg.norm(row, ord=None, dim=-1)] of one row and the
    elementwise division, both in the dtype of the tensor: left to
    torch. *)
Variable linalg_norm : dtype -> list double -> double.
Variable true_divide : dtype -> double -> double -> double.

(** The divisor of one row of the last axis. *)
Definition divisor (d : dtype) (embedding_dim : Z) (eps : double)
    (row : list double) : double :=
  clamp_min d (linalg_norm d (slice_to embedding_dim row)) eps.

(** [forward(output_embeddings)], the tensor given as the list of its
    rows along the last axis. *)
Definition forward (d : dtype) (embedding_dim : Z) (eps : double)
    (output_embeddings : list (list double)) : list (list double) :=
  (fun row =>
     let output_embeddings := slice_to embedding_dim row in
     let divisor := clamp_min d (linalg_norm d output_embeddings) eps in
     (fun x => true_divide d x divisor) <$> output_embeddings)
  <$> output_embeddings.

End Forward.

(** The default [eps = 1e-6], as the binary64 nearest to it. *)
Definition default_eps : double := Fin 4722366482869645 (-72).

End Postprocessor.

(** * Properties *)

Module Binary64Facts.
Import Binary64.
Local Open Scope Z_scope.

(** *** Agreement with the Standard Library's IEEE-754 specification *)

Definition same_value (x : double) (y : spec_float) : bool :=
  match x, y with
  | Fin m e, S754_zero _ => m =? 0
  | Fin m e, S754_finite s p e' =>
      let lo := Z.min e e' in
      m * 2 ^ (e - lo) =? (if s then - Z.pos p else Z.pos p) * 2 ^ (e' - lo)
  | Inf s, S754_infinity s' => Bool.eqb s s'
  | NaN, S754_nan => true
  | _, _ => false
  end.

Definition mantissas : list Z :=
  [ 0; 1; 3; 7; 2 ^ 52; 2 ^ 53 - 1; 2 ^ 53; 2 ^ 53 + 1; 2 ^ 53 + 2; 2 ^ 53 + 3;
    2 ^ 54 + 1; 2 ^ 54 + 2; 2 ^ 54 + 3; 2 ^ 54 + 5; 2 ^ 54 + 6; 2 ^ 54 + 7;
    2 ^ 60 + 2 ^ 7; 2 ^ 60 + 2 ^ 7 + 1; 2 ^ 60 + 3 * 2 ^ 7;
    2 ^ 100 + 2 ^ 46; 2 ^ 100 + 2 ^ 47; 2 ^ 100 + 2 ^ 47 + 1;
    3602879701896397 * 1000209; 123456789012345678901234567890;
    2 ^ 1024 - 2 ^ 970 - 1; 2 ^ 1024 - 2 ^ 970; 2 ^ 1024;
    - 5; - (2 ^ 53 + 1); - (2 ^ 53 + 3) ].

Definition exponents : list Z :=
  [ 0; 1; 10; -3; -52; -53; -200; -1074; -1075; -1076; -1100; -1130;
    900; 970; 971; 1000 ].

Example round_matches_binary_normalize :
  forallb (fun m =>
             forallb (fun e => same_value (round m e)
                                 (binary_normalize 53 1024 m e false))
                     exponents) mantissas = true.
Proof. vm_compute. reflexivity. Qed.

Example fmul_matches_SFmul :
  forallb (fun a =>
             forallb (fun b =>
                        same_value (fmul (round a 0) (round b (-52)))
                          (SFmul 53 1024 (binary_normalize 53 1024 a 0 false)
                                         (binary_normalize 53 1024 b (-52) false)))
                     mantissas) mantissas = true.
Proof. vm_compute. reflexivity. Qed.

(** *** Exact cases of the rounding *)

Lemma round_exact (n : Z) : Z.abs n < 2 ^ 53 -> round n 0 = Fin n 0.
Proof.
  intros Hn. unfold round, prec, emin, emax.
  assert (Hl : Z.log2 (Z.abs n) < 53).
  { destruct (Z.eq_dec (Z.abs n) 0) as [->|Hz]; [reflexivity|].
    apply Z.log2_lt_pow2; lia. }
  replace (Z.max (Z.log2 (Z.abs n) - (53 - 1)) (-1074 - 0) <=? 0) with true
    by (symmetry; apply Z.leb_le; lia).
  replace (Z.log2 (Z.abs n) + 0 <? 1024) with true
    by (symmetry; apply Z.ltb_lt; lia).
  now rewrite orb_true_r.
Qed.

(** Rounding loses nothing when the bits shifted out are zero. *)
Lemma rne_shift_exact (a sh : Z) :
  0 <= a -> 0 < sh -> a mod 2 ^ sh = 0 -> rne_shift a sh = a / 2 ^ sh.
Proof.
  intros Ha Hsh Hm. unfold rne_shift.
  rewrite Z.land_ones by lia. rewrite Hm.
  assert (0 < 2 ^ (sh - 1)) by (apply Z.pow_pos_nonneg; lia).
  replace (2 ^ (sh - 1) <? 0) with false by (symmetry; apply Z.ltb_ge; lia).
  replace (0 =? 2 ^ (sh - 1)) with false by (symmetry; apply Z.eqb_neq; lia).
  cbn. apply Z.shiftr_div_pow2. lia.
Qed.

(** A 53-bit integer scaled by a power of two is a double. *)
Lemma round_trailing_zeros (c k e : Z) :
  Z.abs c < 2 ^ 53 -> 0 <= k -> emin <= e -> k + e + 53 <= emax ->
  exists m' e', round (c * 2 ^ k) e = Fin m' e' /\ e <= e' <= e + k /\
                m' * 2 ^ (e' - e) = c * 2 ^ k.
Proof.
  intros Hc Hk He Hmax. unfold round, prec, emin, emax in *.
  assert (Hpk : 0 < 2 ^ k) by (apply Z.pow_pos_nonneg; lia).
  destruct (Z.eq_dec c 0) as [->|Hc0].
  { exists 0, e. rewrite Z.mul_0_l.
    change (Z.abs 0) with 0. change (Z.log2 0) with 0.
    replace (Z.max (0 - (53 - 1)) (-1074 - e) <=? 0) with true
      by (symmetry; apply Z.leb_le; lia).
    cbn. repeat split; lia. }
  set (m := c * 2 ^ k).
  assert (Habs : Z.abs m = Z.abs c * 2 ^ k).
  { unfold m. rewrite Z.abs_mul, (Z.abs_eq (2 ^ k)); lia. }
  assert (HL : Z.log2 (Z.abs m) = k + Z.log2 (Z.abs c)).
  { rewrite Habs. apply Z.log2_mul_pow2; lia. }
  assert (Hlc : 0 <= Z.log2 (Z.abs c) < 53).
  { split; [apply Z.log2_nonneg|]. apply Z.log2_lt_pow2; lia. }
  destruct (Z.max (Z.log2 (Z.abs m) - (53 - 1)) (-1074 - e) <=? 0) eqn:Hsh.
  - exists m, e.
    replace (Z.log2 (Z.abs m) + e <? 1024) with true
      by (symmetry; apply Z.ltb_lt; lia).
    rewrite orb_true_r, Z.sub_diag, Z.mul_1_r. repeat split; lia || reflexivity.
  - apply Z.leb_gt in Hsh.
    set (sh := Z.max (Z.log2 (Z.abs m) - (53 - 1)) (-1074 - e)) in *.
    assert (Hshv : sh = k + Z.log2 (Z.abs c) - 52) by lia.
    assert (Hfac : Z.abs m = (Z.abs c * 2 ^ (k - sh)) * 2 ^ sh).
    { rewrite Habs, <- Z.mul_assoc, <- Z.pow_add_r by lia.
      do 2 f_equal. lia. }
    assert (Hq : rne_shift (Z.abs m) sh = Z.abs c * 2 ^ (k - sh)).
    { rewrite rne_shift_exact; [| lia | lia |].
      - rewrite Hfac. apply Z.div_mul. apply Z.pow_nonzero; lia.
      - rewrite Hfac. apply Z.mod_mul. apply Z.pow_nonzero; lia. }
    rewrite Hq.
    assert (Hlq : Z.log2 (Z.abs c * 2 ^ (k - sh)) = 52).
    { rewrite Z.log2_mul_pow2; lia. }
    rewrite Hlq.
    replace (52 + (e + sh) <? 1024) with true
      by (symmetry; apply Z.ltb_lt; lia).
    rewrite orb_true_r.
    exists (Z.sgn m * (Z.abs c * 2 ^ (k - sh))), (e + sh).
    split; [reflexivity|]. split; [lia|].
    replace (e + sh - e) with sh by lia.
    rewrite <- Z.mul_assoc, <- Hfac. rewrite Z.mul_comm. apply Z.abs_sgn.
Qed.

Lemma rne_shift_bounds (a sh : Z) :
  Z.shiftr a sh <= rne_shift a sh <= Z.shiftr a sh + 1.
Proof. unfold rne_shift. destruct (_ || _); lia. Qed.

End Binary64Facts.
Module CapacityFacts.
Import Binary64 Binary64Facts Capacity.
Local Open Scope Z_scope.

(** The repeated squaring decides the comparison of powers it stands
    for. *)
Lemma sq_below_2_spec (q : nat) : forall a b : Z,
  0 < b -> b <= a ->
  sq_below_2 q a b = log2_below a b 1 (Z.of_nat q).
Proof.
  unfold log2_below. induction q as [|q IH]; intros a b Hb Hab.
  - cbn [sq_below_2]. change (2 ^ Z.of_nat 0) with 1.
    now rewrite !Z.pow_1_r.
  - cbn [sq_below_2]. rewrite Nat2Z.inj_succ, Z.pow_succ_r by lia.
    set (N := 2 ^ Z.of_nat q).
    assert (HN : 0 < N) by (apply Z.pow_pos_nonneg; lia).
    rewrite !(Z.pow_mul_r _ 2 N) by lia. rewrite !Z.pow_2_r.
    destruct (2 * b <=? a) eqn:H2.
    + apply Z.leb_le in H2. symmetry. apply Z.ltb_ge.
      assert (H4 : 4 * (b * b) <= a * a) by nia.
      assert (Hbb : 0 < b * b) by nia.
      transitivity ((4 * (b * b)) ^ N).
      * rewrite (Z.pow_mul_l 4 (b * b) N).
        assert (0 < (b * b) ^ N) by (apply Z.pow_pos_nonneg; lia).
        assert (4 ^ 1 <= 4 ^ N) by (apply Z.pow_le_mono_r; lia).
        change (2 ^ 1) with 2. change (4 ^ 1) with 4 in *. nia.
      * apply Z.pow_le_mono_l. lia.
    + apply Z.leb_gt in H2. rewrite IH by nia. reflexivity.
Qed.

Lemma sq_below_2_false (q : nat) : forall a b : Z,
  0 < b -> b <= a -> b <= (a - b) * 2 ^ Z.of_nat q ->
  sq_below_2 q a b = false.
Proof.
  induction q as [|q IH]; intros a b Hb Hab Hq; cbn [sq_below_2].
  - apply Z.ltb_ge. cbn in Hq. lia.
  - destruct (2 * b <=? a) eqn:H2; [reflexivity|].
    apply Z.leb_gt in H2. apply IH; try nia.
    rewrite Nat2Z.inj_succ, Z.pow_succ_r in Hq by lia.
    assert (0 <= 2 ^ Z.of_nat q) by (apply Z.pow_nonneg; lia).
    nia.
Qed.

Lemma log2_small (E : Z) : 1 <= E <= 48 -> 0 <= Z.log2 E <= 5.
Proof.
  intros HE. split; [apply Z.log2_nonneg|].
  assert (Z.log2 E < 6); [|lia].
  apply Z.log2_lt_pow2; [lia|]. change (2 ^ 6) with 64. lia.
Qed.

(** Up to [2^49] rows the float detour is harmless: the ceiling of the
    rounded logarithm is the exact integer ceiling. *)
Lemma libm_log2_ceil (X : Z) :
  1 <= X <= 2 ^ 49 -> math_ceil (libm_log2 X) = Z.log2_up X.
Proof.
  intros HX. unfold libm_log2, math_ceil.
  pose proof (Z.log2_spec X ltac:(lia)) as [Hlo Hhi].
  pose proof (Z.log2_nonneg X) as HE0.
  set (E := Z.log2 X) in *.
  destruct (X =? 2 ^ E) eqn:Hp; cbn [l2_frac l2_floor].
  - apply Z.eqb_eq in Hp. rewrite Hp. symmetry. now apply Z.log2_up_pow2.
  - apply Z.eqb_neq in Hp.
    assert (HE48 : E <= 48).
    { assert (E < 49); [|lia]. apply (Z.pow_lt_mono_r_iff 2); lia. }
    assert (HE1 : 1 <= E).
    { destruct (Z.eq_dec E 0) as [HEz|]; [|lia].
      rewrite HEz in *. cbn in Hlo, Hhi, Hp. lia. }
    pose proof (log2_small E ltac:(lia)) as HL.
    rewrite sq_below_2_false; cbn [negb].
    + unfold Z.log2_up. destruct (1 ?= X) eqn:Hc.
      * apply Z.compare_eq in Hc. lia.
      * rewrite (Z.log2_unique (Z.pred X) E); [lia|lia|].
        rewrite <- Z.add_1_r in Hhi. lia.
      * apply Z.compare_gt_iff in Hc. lia.
    + lia.
    + lia.
    + rewrite Z2Nat.id by lia.
      assert (2 ^ E <= 2 ^ (53 - Z.log2 E)) by (apply Z.pow_le_mono_r; lia).
      nia.
Qed.

Lemma next_power_of_2_exact (n : Z) :
  1 <= n <= 2 ^ 49 -> next_power_of_2 n = Ok (2 ^ Z.log2_up n).
Proof.
  intros Hn. unfold next_power_of_2, math_log2, PyLong_AsDouble.
  replace (n <=? 0) with false by (symmetry; apply Z.leb_gt; lia).
  rewrite round_exact by (rewrite Z.abs_eq; lia).
  cbn. rewrite Z.mul_1_r. now rewrite libm_log2_ceil.
Qed.

(** The integer ceiling of the logarithm gives the smallest power of two
    that is not below [n]. *)
Lemma pow2_log2_up_bounds (n : Z) :
  1 <= n -> n <= 2 ^ Z.log2_up n /\ 2 ^ Z.log2_up n < 2 * n.
Proof.
  intros Hn. destruct (Z.eq_dec n 1) as [->|Hne]; [cbn; lia|].
  pose proof (Z.log2_up_spec n ltac:(lia)) as [Hlo Hhi].
  split; [exact Hhi|].
  assert (0 < Z.log2_up n) by (apply Z.log2_up_pos; lia).
  replace (Z.log2_up n) with (Z.succ (Z.pred (Z.log2_up n))) at 1 by lia.
  rewrite Z.pow_succ_r by lia. lia.
Qed.

Lemma spec_next_power_of_two_least (n k : Z) :
  1 <= n -> 0 <= k -> n <= 2 ^ k -> spec_next_power_of_two n <= 2 ^ k.
Proof.
  intros Hn Hk Hle. unfold spec_next_power_of_two.
  apply Z.pow_le_mono_r; [lia|].
  destruct (Z.eq_dec n 1) as [->|Hne]; [cbn; lia|].
  apply Z.log2_up_le_pow2; lia.
Qed.

Lemma math_log2_domain (n : Z) : n < 1 -> math_log2 n = Raise ValueError.
Proof.
  intros Hn. unfold math_log2.
  now replace (n <=? 0) with true by (symmetry; apply Z.leb_le; lia).
Qed.

Lemma total_hbm_need_domain (c : EmbeddingConfig) :
  num_embeddings c < 1 -> raises (total_hbm_need c).
Proof.
  intros Hn. unfold total_hbm_need, next_power_of_2.
  rewrite math_log2_domain by exact Hn.
  destruct (DATA_TYPE_NUM_BITS (data_type c)); exact I.
Qed.

Lemma fill_dict_const_raises (cs : list EmbeddingConfig) :
  Exists (fun c => num_embeddings c < 1) cs ->
  forall d, raises (fill_dict_const cs d).
Proof.
  induction 1 as [c cs Hc | c cs _ IH]; intros d; cbn [fill_dict_const].
  - pose proof (total_hbm_need_domain c Hc) as Hr.
    destruct (total_hbm_need c); [destruct Hr | exact I].
  - destruct (total_hbm_need c); [apply IH | exact I].
Qed.

Lemma float_mul_int_ok (x : double) (n : Z) :
  Z.abs n < 2 ^ 53 -> float_mul_int x n = Ok (fmul x (Fin n 0)).
Proof.
  intros Hn. unfold float_mul_int, PyLong_AsDouble.
  now rewrite round_exact.
Qed.

Lemma spec_next_power_of_two_small (n : Z) :
  1 <= n <= 2 ^ 49 -> 1 <= spec_next_power_of_two n <= 2 ^ 49.
Proof.
  intros Hn. unfold spec_next_power_of_two. split.
  - assert (0 < 2 ^ Z.log2_up n); [|lia].
    apply Z.pow_pos_nonneg; [lia|apply Z.log2_up_nonneg].
  - apply spec_next_power_of_two_least; lia.
Qed.

Lemma int_value_eighths (m e v : Z) :
  -3 <= e -> m * 2 ^ (e + 3) = 8 * v -> int_value (Fin m e) = Some v.
Proof.
  intros He Hv. unfold int_value. destruct (0 <=? e) eqn:H0.
  - apply Z.leb_le in H0. f_equal.
    rewrite Z.pow_add_r in Hv by lia. change (2 ^ 3) with 8 in Hv. lia.
  - apply Z.leb_gt in H0.
    assert (Hm : m = v * 2 ^ (- e)).
    { assert (H8 : 2 ^ (e + 3) * 2 ^ (- e) = 8).
      { rewrite <- Z.pow_add_r by lia. now replace (e + 3 + - e) with 3 by lia. }
      assert (0 < 2 ^ (e + 3)) by (apply Z.pow_pos_nonneg; lia).
      apply (Z.mul_reg_r _ _ (2 ^ (e + 3))); [lia|].
      rewrite Hv, <- H8. ring. }
    assert (2 ^ (- e) <> 0) by (apply Z.pow_nonzero; lia).
    rewrite Hm, Z.mod_mul, Z.div_mul by assumption. reflexivity.
Qed.

(** Bytes per element of the three float types of the table. *)
Definition bytes_of (t : DataType) : Z :=
  match t with FP32 => 4 | FP16 | BF16 => 2 | _ => 0 end.

Definition in_table (t : DataType) : Prop := t = FP32 \/ t = FP16 \/ t = BF16.

(** On row counts up to [2^49] and widths below [2^48] in absolute value
    every float operation of the estimate is exact and the estimate is the
    specified product. *)
Lemma total_hbm_need_exact (c : EmbeddingConfig) :
  in_table (data_type c) ->
  Z.abs (embedding_dim c) < 2 ^ 48 ->
  1 <= num_embeddings c <= 2 ^ 49 ->
  exists x, total_hbm_need c = Ok x /\
            int_value x =
            Some (spec_capacity (bytes_of (data_type c)) (embedding_dim c)
                                (num_embeddings c)).
Proof.
  intros Ht Hd Hn. unfold total_hbm_need.
  rewrite next_power_of_2_exact by exact Hn.
  pose proof (spec_next_power_of_two_small _ Hn) as Hp.
  unfold spec_capacity, spec_next_power_of_two in *.
  pose proof (Z.log2_up_nonneg (num_embeddings c)) as HK0.
  set (K := Z.log2_up (num_embeddings c)) in *.
  assert (HK : K <= 49).
  { apply (Z.pow_le_mono_r_iff 2); lia. }
  set (d := embedding_dim c) in *.
  assert (Hstep : forall j b, 0 <= j <= 5 -> 2 ^ j = 8 * b ->
            exists x, (x0 ← float_mul_int (round (2 ^ j) (-3)) d;
                       float_mul_int x0 (2 ^ K)) = Ok x /\
                      int_value x = Some (b * d * 2 ^ K)).
  { intros j b Hj Hb.
    destruct (round_trailing_zeros 1 j (-3)) as (m0 & e0 & H0 & He0 & Hm0);
      unfold emin, emax; try (cbn; lia).
    rewrite Z.mul_1_l in H0, Hm0. rewrite H0.
    rewrite float_mul_int_ok by (cbn; lia). cbn [mbind result_bind fmul].
    assert (Hm0' : Z.abs m0 <= 32).
    { assert (0 < 2 ^ (e0 - -3)) by (apply Z.pow_pos_nonneg; lia).
      assert (2 ^ j <= 2 ^ 5) by (apply Z.pow_le_mono_r; lia).
      change (2 ^ 5) with 32 in *. nia. }
    rewrite Z.add_0_r.
    destruct (round_trailing_zeros (m0 * d) 0 e0) as (m1 & e1 & H1 & He1 & Hm1);
      unfold emin, emax; try lia.
    { rewrite Z.abs_mul. change (2 ^ 53) with (32 * 2 ^ 48). nia. }
    rewrite Z.pow_0_r, Z.mul_1_r in H1, Hm1. rewrite H1.
    rewrite float_mul_int_ok by (rewrite Z.abs_eq; lia).
    cbn [fmul]. rewrite Z.add_0_r.
    assert (He1' : e1 = e0) by lia. subst e1.
    rewrite Z.sub_diag, Z.mul_1_r in Hm1. subst m1.
    destruct (round_trailing_zeros (m0 * d) K e0) as (m2 & e2 & H2 & He2 & Hm2);
      unfold emin, emax; try lia.
    { rewrite Z.abs_mul. change (2 ^ 53) with (32 * 2 ^ 48). nia. }
    exists (Fin m2 e2). split; [now rewrite H2|].
    apply int_value_eighths; [lia|].
    replace (e2 + 3) with ((e2 - e0) + (e0 - -3)) by lia.
    rewrite Z.pow_add_r by lia. nia. }
  destruct Ht as [Ht | [Ht | Ht]]; rewrite Ht; cbn [DATA_TYPE_NUM_BITS bytes_of];
    cbn [mbind result_bind]; unfold int_truediv_pow2.
  - apply (Hstep 5 4); [lia | reflexivity].
  - apply (Hstep 4 2); [lia | reflexivity].
  - apply (Hstep 4 2); [lia | reflexivity].
Qed.

(** On row counts up to [2^49] the rounding is the specified one: a power
    of two [p] with [n <= p < 2n]. *)
Lemma next_power_of_2_bounds (n : Z) :
  1 <= n <= 2 ^ 49 ->
  exists k, 0 <= k /\ next_power_of_2 n = Ok (2 ^ k) /\
            n <= 2 ^ k /\ 2 ^ k < 2 * n.
Proof.
  intros Hn. exists (Z.log2_up n).
  split; [apply Z.log2_up_nonneg|].
  split; [now apply next_power_of_2_exact|].
  apply pow2_log2_up_bounds. lia.
Qed.

(** The worked example of the specification: width 64, 10000 rows, single
    precision. *)
Example total_hbm_need_movielens :
  exists x,
    total_hbm_need {| name := "user_id"; embedding_dim := 64;
                      num_embeddings := 10000; data_type := FP32 |} = Ok x /\
    next_power_of_2 10000 = Ok 16384 /\
    int_value x = Some 4194304 /\
    spec_capacity 4 64 10000 = 4194304.
Proof. eexists. repeat split; vm_compute; reflexivity. Qed.

(** C1.  The row-count rounding [2 ** math.ceil(math.log2(n))] is meant to
    return a power of two [p] with [n <= p < 2n].  At [n = 2^53 + 1] the
    conversion of [n] to a double rounds to [2^53], the logarithm is
    exactly 53, and the code returns [p = 2^53], which is below [n]. *)
Theorem next_power_of_2_above_2_53 :
  next_power_of_2 (2 ^ 53 + 1) = Ok (2 ^ 53) /\
  2 ^ 53 < 2 ^ 53 + 1 /\
  spec_next_power_of_two (2 ^ 53 + 1) = 2 ^ 54.
Proof. repeat split; vm_compute; reflexivity. Qed.

(** C2.  The fast-memory bytes are meant to be
    [b * d * next_power_of_two(n)].  For one single-precision table of
    width 1 with [2^53 + 1] rows the code computes [2^55] bytes where the
    specified product is [2^56]. *)
Theorem total_hbm_need_above_2_53 :
  exists x,
    total_hbm_need {| name := "user_id"; embedding_dim := 1;
                      num_embeddings := 2 ^ 53 + 1; data_type := FP32 |} = Ok x /\
    int_value x = Some (2 ^ 55) /\
    spec_capacity 4 1 (2 ^ 53 + 1) = 2 ^ 56.
Proof. eexists. repeat split; vm_compute; reflexivity. Qed.

(** The claim C3 as stated fails: a table of width 0 with one row is
    accepted, and a capacity of zero bytes is handed to the planner. *)
Lemma zero_width_is_estimated :
  ~ (forall c : EmbeddingConfig,
       num_embeddings c < 1 \/ embedding_dim c < 1 ->
       raises (total_hbm_need c)).
Proof.
  intros H.
  exact (H {| name := "gender"; embedding_dim := 0; num_embeddings := 1;
              data_type := FP32 |} ltac:(right; cbn; lia)).
Qed.

(** C3 (amended).  A declared row count below 1 makes [get_planner] raise
    (the ValueError of [math.log2], or the KeyError of the bit-width table
    that is consulted first) and no planner is returned; the vector width
    is not validated, and a width below 1 yields the capacity value
    [b * d * next_power_of_two(n)]. *)
Theorem get_planner_row_count_domain :
  (forall dev ls ws (cs : list EmbeddingConfig) bs,
     Exists (fun c => num_embeddings c < 1) cs ->
     raises (get_planner dev ls ws cs bs)) /\
  (forall c : EmbeddingConfig,
     in_table (data_type c) -> num_embeddings c < 1 ->
     total_hbm_need c = Raise ValueError) /\
  (forall c : EmbeddingConfig,
     in_table (data_type c) -> 1 <= num_embeddings c <= 2 ^ 49 ->
     - 2 ^ 48 < embedding_dim c < 1 ->
     exists x, total_hbm_need c = Ok x /\
               int_value x =
               Some (spec_capacity (bytes_of (data_type c)) (embedding_dim c)
                                   (num_embeddings c))).
Proof.
  split; [|split].
  - intros dev ls ws cs bs Hex. unfold get_planner.
    pose proof (fill_dict_const_raises cs Hex ∅) as Hr.
    destruct (fill_dict_const cs ∅); [destruct Hr | exact I].
  - intros c Ht Hn. unfold total_hbm_need, next_power_of_2.
    rewrite math_log2_domain by exact Hn.
    destruct Ht as [Ht | [Ht | Ht]]; rewrite Ht; reflexivity.
  - intros c Ht Hn Hd. apply total_hbm_need_exact; [exact Ht | lia | exact Hn].
Qed.

Lemma get_planner_row_count_domain_witness :
  raises (get_planner "cuda" 1 1
            [ {| name := "user_id"; embedding_dim := 64; num_embeddings := 0;
                 data_type := FP32 |} ] 1024) /\
  total_hbm_need {| name := "user_id"; embedding_dim := 64; num_embeddings := 0;
                    data_type := FP32 |} = Raise ValueError /\
  exists x,
    total_hbm_need {| name := "gender"; embedding_dim := -1; num_embeddings := 2;
                      data_type := FP16 |} = Ok x /\
    int_value x = Some (spec_capacity 2 (-1) 2).
Proof.
  destruct get_planner_row_count_domain as (H1 & H2 & H3).
  split; [|split].
  - apply H1. constructor. cbn. lia.
  - apply H2; [left; reflexivity | cbn; lia].
  - apply (H3 {| name := "gender"; embedding_dim := -1; num_embeddings := 2;
                 data_type := FP16 |}).
    + right; left; reflexivity.
    + cbn. lia.
    + cbn. lia.
Defined.
End CapacityFacts.

Module DatasetFacts.
Import Binary64 Binary64Facts Dataset.
Local Open Scope Z_scope.

(** *** The split index [int(len * 0.8)] *)

(** Whatever is rounded at bit [sh] of [n * 0.8], the integer part is
    [floor (4n/5)]. *)
Lemma four_fifths_window (n q sh : Z) :
  0 <= n < 2 ^ 50 -> 0 <= sh <= 49 ->
  let a := n * 3602879701896397 in
  a / 2 ^ sh <= q <= a / 2 ^ sh + 1 ->
  q / 2 ^ (52 - sh) = 4 * n / 5.
Proof.
  intros Hn Hsh a Hq.
  set (k := 4 * n / 5).
  assert (Hk : 5 * k <= 4 * n < 5 * k + 5).
  { unfold k. pose proof (Z.mul_div_le (4 * n) 5 ltac:(lia)).
    pose proof (Z.mul_succ_div_gt (4 * n) 5 ltac:(lia)). lia. }
  set (S := 2 ^ sh) in *. set (T := 2 ^ (52 - sh)).
  assert (HS : 0 < S) by (apply Z.pow_pos_nonneg; lia).
  assert (HT : 0 < T) by (apply Z.pow_pos_nonneg; lia).
  assert (HST : S * T = 4503599627370496).
  { unfold S, T. rewrite <- Z.pow_add_r by lia.
    now replace (sh + (52 - sh)) with 52 by lia. }
  assert (HS49 : S <= 562949953421312).
  { unfold S. change 562949953421312 with (2 ^ 49).
    apply Z.pow_le_mono_r; lia. }
  change (2 ^ 50) with 1125899906842624 in Hn.
  assert (Ha : 5 * a = 4 * n * 4503599627370496 + n) by (unfold a; lia).
  set (d := a / S) in *.
  assert (Hd : S * d <= a < S * (d + 1)).
  { unfold d. pose proof (Z.mul_div_le a S HS).
    pose proof (Z.mul_succ_div_gt a S HS). lia. }
  assert (Hlo : T * k <= d).
  { assert (T * k < d + 1); [|lia].
    apply (Z.mul_lt_mono_pos_l S); [exact HS|].
    assert (S * (T * k) = k * 4503599627370496) by (rewrite Z.mul_assoc, HST; lia).
    lia. }
  assert (Hhi : d + 1 < T * (k + 1)).
  { assert (d < T * (k + 1) - 1); [|lia].
    apply (Z.mul_lt_mono_pos_l S); [exact HS|].
    assert (S * (T * (k + 1) - 1) = (k + 1) * 4503599627370496 - S)
      by (rewrite Z.mul_sub_distr_l, Z.mul_assoc, HST; lia).
    lia. }
  symmetry. apply (Z.div_unique _ _ _ (q - T * k)); lia.
Qed.

Lemma split_idx_floor (n : Z) :
  0 <= n < 2 ^ 50 -> split_idx n = Ok (4 * n / 5).
Proof.
  intros Hn. unfold split_idx, PyLong_AsDouble.
  rewrite round_exact
    by (rewrite Z.abs_eq by lia; change (2 ^ 53) with (8 * 2 ^ 50); lia).
  cbn [mbind result_bind]. unfold fmul, point_eight. rewrite Z.add_0_l.
  destruct (Z.eq_dec n 0) as [->|Hn0]; [reflexivity|].
  set (a := n * 3602879701896397).
  assert (Ha : 2 ^ 51 <= a < 2 ^ 102).
  { unfold a. change (2 ^ 51) with 2251799813685248.
    change (2 ^ 102) with (2 ^ 50 * 4503599627370496).
    change (2 ^ 50) with 1125899906842624 in *. nia. }
  assert (HL : 51 <= Z.log2 a <= 101).
  { split.
    - apply Z.log2_le_pow2; lia.
    - assert (Z.log2 a < 102); [|lia]. apply Z.log2_lt_pow2; lia. }
  unfold round, prec, emin, emax. rewrite Z.abs_eq by lia.
  replace (Z.max (Z.log2 a - (53 - 1)) (-1074 - -52)) with (Z.log2 a - 52) by lia.
  destruct (Z.log2 a - 52 <=? 0) eqn:Hsh.
  - apply Z.leb_le in Hsh.
    replace (Z.log2 a + -52 <? 1024) with true by (symmetry; apply Z.ltb_lt; lia).
    rewrite orb_true_r. cbn [int_of_float].
    change (0 <=? -52) with false. cbn iota. f_equal.
    rewrite Z.quot_div_nonneg by (cbn; lia).
    apply (four_fifths_window n a 0 Hn ltac:(lia)).
    fold a. rewrite Z.pow_0_r, Z.div_1_r. lia.
  - apply Z.leb_gt in Hsh.
    set (sh := Z.log2 a - 52) in *.
    pose proof (rne_shift_bounds a sh) as Hq.
    rewrite Z.shiftr_div_pow2 in Hq by lia.
    set (q := rne_shift a sh) in *.
    assert (Hdiv : 2 ^ 52 <= a / 2 ^ sh < 2 ^ 53).
    { pose proof (Z.log2_spec a ltac:(lia)) as [Hlo Hhi].
      assert (HS : 0 < 2 ^ sh) by (apply Z.pow_pos_nonneg; lia).
      replace (Z.log2 a) with (52 + sh) in Hlo by (unfold sh; lia).
      replace (Z.succ (Z.log2 a)) with (53 + sh) in Hhi by (unfold sh; lia).
      rewrite Z.pow_add_r in Hlo, Hhi by lia. split.
      - apply Z.div_le_lower_bound; lia.
      - apply Z.div_lt_upper_bound; lia. }
    assert (Hlq : Z.log2 q <= 53).
    { change 53 with (Z.log2 (2 ^ 53)). apply Z.log2_le_mono. lia. }
    replace (Z.log2 q + (-52 + sh) <? 1024) with true
      by (symmetry; apply Z.ltb_lt; lia).
    rewrite orb_true_r. cbn [int_of_float].
    replace (0 <=? -52 + sh) with false by (symmetry; apply Z.leb_gt; lia).
    f_equal. rewrite Z.sgn_pos, Z.mul_1_l by lia.
    rewrite Z.quot_div_nonneg.
    + replace (- (-52 + sh)) with (52 - sh) by lia.
      apply (four_fifths_window n q sh Hn ltac:(lia)). exact Hq.
    + change (2 ^ 52) with 4503599627370496 in Hdiv. lia.
    + apply Z.pow_pos_nonneg; lia.
Qed.

(** *** A kernel that meets the contract of [sort_values] *)

Module TimestampOrder <: Orders.TotalLeBool.
Definition t : Type := Row.
Definition leb (a b : Row) : bool := timestamp a <=? timestamp b.
Lemma leb_total : forall a b, leb a b = true \/ leb b a = true.
Proof.
  intros a b. unfold leb.
  destruct (Z.leb_spec (timestamp a) (timestamp b)); [now left|].
  right. apply Z.leb_le. lia.
Qed.
End TimestampOrder.

Module TimestampSort := Mergesort.Sort TimestampOrder.

Lemma sorted_leb_le (l : list Row) :
  Sorted (fun a b => is_true (TimestampOrder.leb a b)) l -> Sorted timestamp_le l.
Proof.
  induction 1 as [|a l Hs IH Hhd]; constructor; [exact IH|].
  destruct Hhd as [|b l' Hab]; constructor.
  apply Z.leb_le. exact Hab.
Qed.

(** A kernel within the contract: the merge sort of the Standard Library.
    It merges runs off a stack, and rows with equal keys can change
    places. *)
Definition merge_kernel : SortKernel :=
  {| sort_values := TimestampSort.sort;
     sort_values_perm := TimestampSort.Permuted_sort;
     sort_values_sorted := fun d => sorted_leb_le _ (TimestampSort.Sorted_sort d) |}.

#[local] Instance timestamp_le_trans : Transitive timestamp_le.
Proof. intros a b c. unfold timestamp_le. lia. Qed.

Lemma strongly_sorted_app (l1 l2 : list Row) (a b : Row) :
  StronglySorted timestamp_le (l1 ++ l2) ->
  In a l1 -> In b l2 -> timestamp a <= timestamp b.
Proof.
  induction l1 as [|x l1 IH]; intros Hs Ha Hb; [destruct Ha|].
  cbn in Hs. apply StronglySorted_inv in Hs as [Hs Hall].
  destruct Ha as [->|Ha]; [|now apply IH].
  rewrite List.Forall_forall in Hall. apply Hall.
  apply in_or_app. now right.
Qed.

Lemma column_max_attained (f : Row -> Z) (d : list Row) :
  forall acc m,
    List.fold_left
      (fun acc r =>
         match acc, Some (f r) with
         | Some a, Some v => Some (Z.max a v)
         | None, v => v
         | a, None => a
         end) d acc = Some m ->
    acc = Some m \/ exists r, In r d /\ f r = m.
Proof.
  induction d as [|x d IH]; intros acc m H; cbn in H; [now left|].
  apply IH in H as [H | (r & Hin & Hr)].
  - destruct acc as [a|]; injection H as H.
    + destruct (Z.max_spec a (f x)) as [[_ Hm] | [_ Hm]].
      * right. exists x. split; [now left | lia].
      * left. f_equal. lia.
    + right. exists x. split; [now left | exact H].
  - right. exists r. split; [now right | exact Hr].
Qed.

Lemma max_timestamp_attained (d : list Row) (m : Z) :
  max_timestamp d = Some m -> exists r, In r d /\ timestamp r = m.
Proof.
  intros H. apply column_max_attained in H as [H | H]; [discriminate | exact H].
Qed.

Lemma fold_min_attained (d : list Row) :
  forall acc, let m := List.fold_left (fun m x => Z.min m (timestamp x)) d acc in
    m = acc \/ exists r, In r d /\ timestamp r = m.
Proof.
  induction d as [|x d IH]; intros acc; cbn; [now left|].
  destruct (IH (Z.min acc (timestamp x))) as [H | (r & Hin & Hr)].
  - rewrite H. destruct (Z.min_spec acc (timestamp x)) as [[_ Hm] | [_ Hm]].
    + left. exact Hm.
    + right. exists x. split; [now left | lia].
  - right. exists r. split; [now right | exact Hr].
Qed.

Lemma min_timestamp_attained (d : list Row) (m : Z) :
  min_timestamp d = Some m -> exists r, In r d /\ timestamp r = m.
Proof.
  destruct d as [|x d]; [discriminate|]. cbn. intros [= <-].
  destruct (fold_min_attained d (timestamp x)) as [H | (r & Hin & Hr)].
  - exists x. split; [now left | now rewrite H].
  - exists r. split; [now right | exact Hr].
Qed.


Lemma ordered_frame_sorted `{SortKernel} ratings users movies (d : list Row) :
  ordered_frame ratings users movies = Ok d -> StronglySorted timestamp_le d.
Proof.
  unfold ordered_frame. destruct (joined_frame ratings users movies) as [j|];
    [|discriminate].
  cbn. intros [= <-].
  apply Sorted_StronglySorted; [exact timestamp_le_trans | apply sort_values_sorted].
Qed.

(** Both splits are cut from the same ordered frame at the same index. *)
Lemma init_splits `{SortKernel} ratings users movies (other : string)
    (train test : MovieLensDataset) :
  String.eqb other "train" = false ->
  MovieLensDataset_init ratings users movies "train" = Ok train ->
  MovieLensDataset_init ratings users movies other = Ok test ->
  exists (d : list Row) (idx : Z),
    ordered_frame ratings users movies = Ok d /\
    split_idx (Z.of_nat (length d)) = Ok idx /\
    data train = take (Z.to_nat idx) d /\ data test = drop (Z.to_nat idx) d.
Proof.
  intros Hother. unfold MovieLensDataset_init.
  destruct (ordered_frame ratings users movies) as [d|]; [|discriminate].
  cbn [mbind result_bind].
  destruct (split_idx (Z.of_nat (length d))) as [idx|] eqn:Hidx; [|discriminate].
  cbn [mbind result_bind mret result_ret]. rewrite Hother.
  change (String.eqb "train" "train") with true. cbn iota.
  intros [= <-] [= <-]. exists d, idx. repeat split; reflexivity || exact Hidx.
Qed.

(** C6.  The split is temporally causal: the largest timestamp of the
    train split (the first [int(len * 0.8)] rows of the frame ordered by
    timestamp) is at most the smallest timestamp of the test split (the
    remaining rows). *)
Theorem split_is_temporally_causal `{SortKernel} ratings users movies
    (other : string) (train test : MovieLensDataset) (mx mn : Z) :
  String.eqb other "train" = false ->
  MovieLensDataset_init ratings users movies "train" = Ok train ->
  MovieLensDataset_init ratings users movies other = Ok test ->
  max_timestamp (data train) = Some mx ->
  min_timestamp (data test) = Some mn ->
  mx <= mn.
Proof.
  intros Hother Htrain Htest Hmx Hmn.
  destruct (init_splits _ _ _ _ _ _ Hother Htrain Htest)
    as (d & idx & Hd & _ & Ht & Hs).
  apply ordered_frame_sorted in Hd.
  rewrite <- (take_drop (Z.to_nat idx) d), <- Ht, <- Hs in Hd.
  apply max_timestamp_attained in Hmx as (a & Ha & <-).
  apply min_timestamp_attained in Hmn as (b & Hb & <-).
  exact (strongly_sorted_app _ _ a b Hd Ha Hb).
Qed.

(** Five ratings by three users of two films, three of them at the same
    second. *)
Definition sample_ratings : list Rating :=
  [ {| rating_user_id := 1; rating_movie_id := 10; rating_value := Fin 5 0;
       rating_timestamp := 978300760 |};
    {| rating_user_id := 2; rating_movie_id := 10; rating_value := Fin 3 0;
       rating_timestamp := 978300760 |};
    {| rating_user_id := 1; rating_movie_id := 20; rating_value := Fin 4 0;
       rating_timestamp := 978302109 |};
    {| rating_user_id := 2; rating_movie_id := 20; rating_value := Fin 4 0;
       rating_timestamp := 978298709 |};
    {| rating_user_id := 3; rating_movie_id := 10; rating_value := Fin 1 0;
       rating_timestamp := 978300760 |} ].

Definition sample_users : list User :=
  [ {| user_user_id := 1; user_gender := 0; user_age := 1; user_occupation := 10 |};
    {| user_user_id := 2; user_gender := 1; user_age := 56; user_occupation := 16 |} ].

Definition sample_movies : list Movie :=
  [ {| movie_movie_id := 10; movie_year := 1995 |};
    {| movie_movie_id := 20; movie_year := 1996 |} ].

Lemma split_is_temporally_causal_witness :
  exists train test : MovieLensDataset,
    MovieLensDataset_init (H := merge_kernel)
      sample_ratings sample_users sample_movies "train" = Ok train /\
    MovieLensDataset_init (H := merge_kernel)
      sample_ratings sample_users sample_movies "test" = Ok test /\
    List.map timestamp (data train)
      = [978298709; 978300760; 978300760; 978300760] /\
    List.map timestamp (data test) = [978302109] /\
    max_timestamp (data train) = Some 978300760 /\
    min_timestamp (data test) = Some 978302109 /\
    978300760 <= 978302109.
Proof.
  do 2 eexists.
  do 6 (split; [vm_compute; reflexivity|]).
  eapply (split_is_temporally_causal (H := merge_kernel)
            sample_ratings sample_users sample_movies "test");
    vm_compute; reflexivity.
Defined.

End DatasetFacts.

(** ** The order of ties under numpy's quicksort *)

Module ArgsortFacts.
Import Binary64 Dataset Argsort.
Local Open Scope Z_scope.

(** *** Insertion into a list ordered by a key *)

Section Insertion.
Context {A : Type} (key : A -> Z).
















End Insertion.

(** *** The insertion sort of the kernel *)

Section Kernel.
Variable v : list Z.

Definition k (i : nat) : Z := v !!! i.







End Kernel.

(** *** From positions to rows *)


Section Rows.
Variable data : list Row.

Abbreviation kd := (k (timestamp <$> data)).







End Rows.

(** The kernel at work on 22 keys (one partitioning pass, then two
    insertion sorts) and the heap sort on 8. *)
Example argsort_sample :
  let v := [5; 3; 9; 1; 5; 5; 2; 8; 5; 0; 7; 5; 6; 4; 5; 3; 9; 5; 1; 5; 2; 7] in
  argsort v =
    [9; 3; 18; 6; 20; 1; 15; 13; 0; 19; 4; 5; 8; 11; 14; 17; 12; 10; 21; 7;
     2; 16]%nat /\
  (fun i : nat => v !!! i) <$> argsort v =
    [0; 1; 1; 2; 2; 3; 3; 4; 5; 5; 5; 5; 5; 5; 5; 5; 6; 7; 7; 8; 9; 9] /\
  aheapsort [5; 3; 9; 1; 5; 5; 2; 8] (seq 0 8) 0 8 =
    [3; 6; 1; 0; 5; 4; 7; 2]%nat.
Proof. vm_compute. repeat split. Qed.





End ArgsortFacts.

Module CliFacts.
Import Cli.
Local Open Scope Z_scope.

Example int_of_string_examples :
  int_of_string "3" = Ok 3 /\ int_of_string " 12 " = Ok 12 /\
  int_of_string "-4" = Ok (-4) /\ int_of_string "1_000" = Ok 1000 /\
  int_of_string "abc" = Raise ValueError /\ int_of_string "" = Raise ValueError /\
  int_of_string "1__0" = Raise ValueError /\ int_of_string "+" = Raise ValueError.
Proof. repeat split; reflexivity. Qed.

(** The claim C9 as stated fails: whatever variable is set, the default of
    [--epochs] stays the literal 5. *)
Lemma epochs_default_ignores_environment :
  ~ (forall flag : string,
       In flag listed_flags -> default_from_environment flag).
Proof.
  intros H.
  destruct (H "--epochs" ltac:(cbn; tauto)) as [var Hvar].
  destruct (Hvar {[ var := "7"%string ]} "7"%string (lookup_singleton_eq _ _))
    as [Hs | Hi]; vm_compute in Hs || vm_compute in Hi; discriminate.
Qed.

Ltac env_default :=
  let environ := fresh "environ" in
  let s := fresh "s" in
  let Hs := fresh "Hs" in
  intros environ s Hs; unfold default_value, environ_get;
  cbn [String.eqb Ascii.eqb Bool.eqb]; cbn iota; rewrite Hs;
  first [left; reflexivity | right; reflexivity].

Ltac env_fallback :=
  let Hs := fresh "Hs" in
  intros Hs; unfold default_value, environ_get;
  cbn [String.eqb Ascii.eqb Bool.eqb]; cbn iota; rewrite Hs; reflexivity.

(** C9 (amended).  Six of the listed flags take their default from an
    environment variable, with a literal fallback when it is unset:
    [--local_rank] from LOCAL_RANK (0), [--local_world_size] from
    LOCAL_WORLD_SIZE (1), [--node_rank] from RANK (0), [--num_nodes] from
    PET_NNODES (1), [--master_addr] from MASTER_ADDR ("localhost"),
    [--master_port] from MASTER_PORT ("29500").  The other ten have fixed
    defaults that no environment changes. *)
Theorem defaults_of_listed_flags (environ : gmap string string) :
  (default_from_variable "--local_rank" "LOCAL_RANK" /\
   default_from_variable "--local_world_size" "LOCAL_WORLD_SIZE" /\
   default_from_variable "--node_rank" "RANK" /\
   default_from_variable "--num_nodes" "PET_NNODES" /\
   default_from_variable "--master_addr" "MASTER_ADDR" /\
   default_from_variable "--master_port" "MASTER_PORT") /\
  ((environ !! "LOCAL_RANK" = None ->
    default_value environ "--local_rank" = Ok (VInt 0)) /\
   (environ !! "LOCAL_WORLD_SIZE" = None ->
    default_value environ "--local_world_size" = Ok (VInt 1)) /\
   (environ !! "RANK" = None ->
    default_value environ "--node_rank" = Ok (VInt 0)) /\
   (environ !! "PET_NNODES" = None ->
    default_value environ "--num_nodes" = Ok (VInt 1)) /\
   (environ !! "MASTER_ADDR" = None ->
    default_value environ "--master_addr" = Ok (VStr "localhost")) /\
   (environ !! "MASTER_PORT" = None ->
    default_value environ "--master_port" = Ok (VStr "29500"))) /\
  (default_value environ "--data_path" = Ok (VStr "./ml-1m") /\
   default_value environ "--epochs" = Ok (VInt 5) /\
   default_value environ "--batch_size" = Ok (VInt 1024) /\
   default_value environ "--lr" = Ok (VFloat "0.01") /\
   default_value environ "--embedding_dim" = Ok (VInt 64) /\
   default_value environ "--num_embeddings" = Ok (VInt 10000) /\
   default_value environ "--mlp_dims" = Ok (VStr "128,64,32") /\
   default_value environ "--save_dir" = Ok (VStr "./model_checkpoints") /\
   default_value environ "--seed" = Ok (VInt 42) /\
   default_value environ "--backend" = Ok (VStr "nccl")).
Proof.
  split; [|split].
  - repeat split; env_default.
  - repeat split; env_fallback.
  - repeat split; reflexivity.
Qed.


Lemma defaults_of_listed_flags_witness :
  default_value {[ "LOCAL_RANK"%string := "3"%string ]} "--local_rank" = Ok (VInt 3) /\
  default_value ∅ "--local_rank" = Ok (VInt 0) /\
  default_value {[ "LOCAL_RANK"%string := "3"%string ]} "--epochs" = Ok (VInt 5).
Proof.
  destruct (defaults_of_listed_flags {[ "LOCAL_RANK"%string := "3"%string ]})
    as ((Hrank & _) & _ & (_ & Hepochs & _)).
  destruct (defaults_of_listed_flags ∅) as (_ & (Hunset & _) & _).
  split; [|split].
  - destruct (Hrank {[ "LOCAL_RANK"%string := "3"%string ]} "3"%string
                (lookup_singleton_eq _ _)) as [Hs | Hi].
    + vm_compute in Hs. discriminate Hs.
    + exact Hi.
  - apply Hunset. apply lookup_empty.
  - exact Hepochs.
Defined.

(** With no flag on the command line and none of the six variables set,
    the namespace holds the literal defaults. *)
Lemma parse_args_plain (environ : gmap string string) :
  environ !! "LOCAL_RANK" = None -> environ !! "LOCAL_WORLD_SIZE" = None ->
  environ !! "RANK" = None -> environ !! "PET_NNODES" = None ->
  environ !! "MASTER_ADDR" = None -> environ !! "MASTER_PORT" = None ->
  parse_args environ ∅ =
  Ok {| train := false; load := false; dump := false; incremental_dump := false;
        data_path := "./ml-1m"; epochs := 5; batch_size := 1024; lr := "0.01";
        embedding_dim := 64; num_embeddings := 10000; mlp_dims := "128,64,32";
        save_dir := "./model_checkpoints"; seed := 42;
        local_rank := 0; local_world_size := 1; node_rank := 0; num_nodes := 1;
        master_addr := "localhost"; master_port := "29500"; backend := "nccl" |}.
Proof.
  intros H1 H2 H3 H4 H5 H6.
  unfold parse_args, all_flags, build_parser, int_option, str_option,
    default_value, environ_get, store_true.
  cbn [String.eqb Ascii.eqb Bool.eqb]. cbn iota.
  rewrite H1, H2, H3, H4, H5, H6. rewrite !lookup_empty. reflexivity.
Qed.

(** The launcher's variables reach the namespace when the flags are not
    given. *)
Example parse_args_torchrun :
  exists ns,
    parse_args (<[ "LOCAL_RANK"%string := "1"%string ]>
                  (<[ "RANK"%string := "3"%string ]>
                     {[ "MASTER_ADDR"%string := "10.0.0.1"%string ]}))
               {[ "--train"%string := ""%string; "--epochs"%string := "2"%string ]}
      = Ok ns /\
    local_rank ns = 1 /\ node_rank ns = 3 /\ master_addr ns = "10.0.0.1"%string /\
    epochs ns = 2 /\ train ns = true /\ dump ns = false.
Proof. eexists. split; [vm_compute; reflexivity|]. repeat split. Qed.
End CliFacts.

Module DriverFacts.
Import Cli Driver.
Local Open Scope Z_scope.

Section Program.
Context {Model Batch Score Tensor : Type}.

Abbreviation World := (@World Model Score).
Abbreviation M := (@M Model Score).
Abbreviation event := (@event Score).

(** *** What a computation adds to the trace *)

(** [m] only appends to the trace, and every call it appends satisfies
    [Q]. *)
Definition emits_only {A : Type} (Q : event -> Prop) (m : M A) : Prop :=
  forall w : World, exists new, trace (m w).2 = trace w ++ new /\ Forall Q new.

Lemma emits_only_ret {A} Q (a : A) : emits_only Q (mret a : M A).
Proof. intros w. exists []. cbn. now rewrite app_nil_r. Qed.

Lemma emits_only_raise {A} Q (e : exn) : emits_only Q (raise e : M A).
Proof. intros w. exists []. cbn. now rewrite app_nil_r. Qed.

Lemma emits_only_lift {A} Q (r : result A) : emits_only Q (lift r : M A).
Proof. intros w. exists []. cbn. now rewrite app_nil_r. Qed.

Lemma emits_only_bind {A B} Q (m : M A) (f : A -> M B) :
  emits_only Q m -> (forall a, emits_only Q (f a)) -> emits_only Q (m ≫= f).
Proof.
  intros Hm Hf w. unfold mbind, M_bind.
  destruct (Hm w) as (n1 & H1 & Q1).
  destruct (m w) as [[a|e] w1]; cbn in *.
  - destruct (Hf a w1) as (n2 & H2 & Q2).
    exists (n1 ++ n2). rewrite H2, H1, app_assoc. split; [reflexivity|].
    apply Forall_app. now split.
  - exists n1. now split.
Qed.

Lemma emits_only_emit Q (e : event) : Q e -> emits_only Q (emit e).
Proof. intros He w. exists [e]. cbn. split; [reflexivity|]. now constructor. Qed.

Lemma emits_only_makedirs Q (p : string) : emits_only Q (makedirs (Model:=Model) p).
Proof. intros w. exists []. cbn. now rewrite app_nil_r. Qed.

Lemma emits_only_exists_file Q (p : string) :
  emits_only Q (exists_file (Model:=Model) p).
Proof. intros w. exists []. cbn. now rewrite app_nil_r. Qed.

Lemma emits_only_remove_file Q (p : string) :
  emits_only Q (remove_file (Model:=Model) p).
Proof. intros w. exists []. cbn. now rewrite app_nil_r. Qed.

Lemma emits_only_rmtree Q (p : string) : emits_only Q (rmtree (Model:=Model) p).
Proof. intros w. exists []. cbn. now rewrite app_nil_r. Qed.

Lemma emits_only_listdir Q (p : string) : emits_only Q (listdir (Model:=Model) p).
Proof. intros w. exists []. cbn. now rewrite app_nil_r. Qed.

Lemma emits_only_write_file Q (p : string) (b : blob) :
  Q (EvWrite p) -> emits_only Q (write_file p b).
Proof. intros He w. exists [EvWrite p]. cbn. split; [reflexivity|]. now constructor. Qed.

Lemma emits_only_move_file Q (src dst : string) :
  Q (EvWrite dst) -> emits_only Q (move_file (Model:=Model) src dst).
Proof.
  intros He w. unfold move_file. destruct (files w !! src); cbn.
  - exists [EvWrite dst]. split; [reflexivity|]. now constructor.
  - exists []. now rewrite app_nil_r.
Qed.

Lemma emits_only_for_each {A S} Q (body : S -> A -> M S) (l : list A) :
  (forall s x, emits_only Q (body s x)) ->
  forall s, emits_only Q (for_each body l s).
Proof.
  intros Hb. induction l as [|x l IH]; intros s; cbn [for_each].
  - apply emits_only_ret.
  - apply emits_only_bind; [apply Hb | exact IH].
Qed.

Lemma emits_only_when Q (b : bool) (m : M unit) :
  emits_only Q m -> emits_only Q (when b m).
Proof. intros Hm. destruct b; [exact Hm | apply emits_only_ret]. Qed.

Lemma emits_only_external Q f :
  (forall w : World, Forall Q (f w).2) -> emits_only Q (external f).
Proof. intros Hf w. exists (f w).2. cbn. split; [reflexivity | apply Hf]. Qed.


(** Goals of the form [emits_only Q m] follow the shape of [m]. *)
Ltac emits :=
  repeat first
    [ apply emits_only_ret | apply emits_only_raise | apply emits_only_lift
    | apply emits_only_makedirs | apply emits_only_exists_file
    | apply emits_only_remove_file | apply emits_only_rmtree
    | apply emits_only_listdir
    | apply emits_only_emit; exact I
    | apply emits_only_write_file; exact I
    | apply emits_only_move_file; exact I
    | apply emits_only_for_each; intros
    | apply emits_only_when
    | apply emits_only_bind; [| intros ?]
    | match goal with
      | |- emits_only _ (if ?b then _ else _) => destruct b
      end ].

(** *** Computations that leave every file as it is *)

Definition keeps_files {A : Type} (m : M A) : Prop :=
  forall w : World, files (m w).2 = files w.

Lemma keeps_files_ret {A} (a : A) : keeps_files (mret a : M A).
Proof. now intros w. Qed.

Lemma keeps_files_raise {A} (e : exn) : keeps_files (raise e : M A).
Proof. now intros w. Qed.

Lemma keeps_files_bind {A B} (m : M A) (f : A -> M B) :
  keeps_files m -> (forall a, keeps_files (f a)) -> keeps_files (m ≫= f).
Proof.
  intros Hm Hf w. unfold mbind, M_bind. specialize (Hm w).
  destruct (m w) as [[a|e] w1]; cbn in *; [|exact Hm].
  now rewrite Hf.
Qed.

Lemma keeps_files_emit (e : event) : keeps_files (emit (Model:=Model) e).
Proof. now intros w. Qed.

Lemma keeps_files_makedirs (p : string) : keeps_files (makedirs (Model:=Model) (Score:=Score) p).
Proof. now intros w. Qed.

Lemma keeps_files_exists_file (p : string) :
  keeps_files (exists_file (Model:=Model) (Score:=Score) p).
Proof. now intros w. Qed.

Lemma keeps_files_for_each {A S} (body : S -> A -> M S) (l : list A) :
  (forall s x, keeps_files (body s x)) -> forall s, keeps_files (for_each body l s).
Proof.
  intros Hb. induction l as [|x l IH]; intros s; cbn [for_each].
  - apply keeps_files_ret.
  - apply keeps_files_bind; [apply Hb | exact IH].
Qed.

Lemma keeps_files_open_dataset (p : string) :
  keeps_files (open_dataset (Model:=Model) (Score:=Score) p).
Proof.
  unfold open_dataset.
  repeat (apply keeps_files_bind; [apply keeps_files_exists_file | intros ?]).
  destruct (_ && _); [apply keeps_files_ret | apply keeps_files_raise].
Qed.

Lemma open_dataset_pure (p : string) (w : World) :
  exists r, open_dataset p w = (r, w).
Proof.
  unfold open_dataset, mbind, M_bind, exists_file. cbn.
  destruct (_ && _); eexists; reflexivity.
Qed.

Lemma emits_only_open_dataset Q (p : string) :
  emits_only Q (open_dataset (Model:=Model) (Score:=Score) p).
Proof.
  unfold open_dataset.
  repeat (apply emits_only_bind; [apply emits_only_exists_file | intros ?]).
  destruct (_ && _); [apply emits_only_ret | apply emits_only_raise].
Qed.

(** *** The training modes *)

Variable size0 : Tensor -> Z.
Variable create_model : Namespace -> Model.
Variable train_loader : Namespace -> Z -> list Batch.
Variable train_step : Model -> Batch -> Model.
Variable get_score : Model -> Score.
Variable incremental_dump :
  Model -> Score -> @ret_tensors_t Tensor * Score.
Variable train load :
  Namespace -> Z -> Z -> World ->
  result unit * gmap string (@blob Model) * list event.

Abbreviation inc_dump_batch' := (inc_dump_batch size0 train_step incremental_dump).
Abbreviation inc_dump_epoch' :=
  (inc_dump_epoch size0 train_loader train_step incremental_dump).
Abbreviation inc_dump' :=
  (inc_dump size0 create_model train_loader train_step get_score
            incremental_dump).
Abbreviation dump' := (dump create_model train_loader train_step).
Abbreviation main' :=
  (main size0 create_model train_loader train_step get_score incremental_dump
        train load).

(** The calls [inc_dump] makes after opening the dataset: the incremental
    dump itself and the two log lines. *)
Definition inc_dump_event (e : event) : Prop :=
  match e with
  | EvIncrementalDump _ _ | EvLog _ _ (Some _) | EvLogAverage _ => True
  | _ => False
  end.

Lemma inc_dump_event_not_write (e : event) : inc_dump_event e -> is_write e = false.
Proof. now destruct e. Qed.

Lemma inc_dump_batch_events epoch st ib :
  emits_only inc_dump_event (inc_dump_batch' epoch st ib) /\
  keeps_files (inc_dump_batch' epoch st ib).
Proof.
  unfold inc_dump_batch. destruct (_ =? 0).
  - split.
    + repeat (apply emits_only_bind; [now apply emits_only_emit | intros ?]).
      apply emits_only_ret.
    + repeat (apply keeps_files_bind; [apply keeps_files_emit | intros ?]).
      apply keeps_files_ret.
  - split; [apply emits_only_ret | apply keeps_files_ret].
Qed.

Lemma inc_dump_epoch_events args st epoch :
  emits_only inc_dump_event (inc_dump_epoch' args st epoch) /\
  keeps_files (inc_dump_epoch' args st epoch).
Proof.
  unfold inc_dump_epoch. split.
  - apply emits_only_bind.
    + apply emits_only_for_each. intros. apply inc_dump_batch_events.
    + intros st'. destruct (bool_decide _); [apply emits_only_raise|].
      apply emits_only_bind; [now apply emits_only_emit | intros ?].
      apply emits_only_ret.
  - apply keeps_files_bind.
    + apply keeps_files_for_each. intros. apply inc_dump_batch_events.
    + intros st'. destruct (bool_decide _); [apply keeps_files_raise|].
      apply keeps_files_bind; [apply keeps_files_emit | intros ?].
      apply keeps_files_ret.
Qed.

(** *** Watermarks *)

Lemma forwarded_app (a b c : Score) (l1 l2 : list (Score * Score)) :
  forwarded a l1 b -> forwarded b l2 c -> forwarded a (l1 ++ l2) c.
Proof.
  induction 1 as [s | s r last calls _ IH]; intros H2; cbn; [exact H2|].
  constructor. now apply IH.
Qed.

(** Read positionally: the first call gets the initial watermark, and
    call [i + 1] gets what call [i] returned. *)
Lemma forwarded_lookup (s last : Score) (calls : list (Score * Score)) :
  forwarded s calls last ->
  (forall c, calls !! 0%nat = Some c -> c.1 = s) /\
  (forall (i : nat) c d,
     calls !! i = Some c -> calls !! S i = Some d -> d.1 = c.2).
Proof.
  induction 1 as [s | s r last calls H IH]; split.
  - intros c Hc. discriminate Hc.
  - intros i c d Hc. discriminate Hc.
  - intros c [= <-]. reflexivity.
  - destruct IH as [IH0 IHS]. intros [|i] c d Hc Hd; cbn in Hc, Hd.
    + injection Hc as <-. cbn. now apply IH0.
    + now apply (IHS i).
Qed.

(** Started with the watermark [s], [m] makes calls that forward it, and
    the state it returns holds the last watermark. *)
Definition forwards (s : Score) (m : M (Model * Score)) : Prop :=
  forall w : World, exists calls last,
    dump_calls (trace (m w).2) = dump_calls (trace w) ++ calls /\
    forwarded s calls last /\
    (forall st', (m w).1 = Ok st' -> st'.2 = last).

Lemma forwards_bind (s : Score) (m : M (Model * Score))
    (f : Model * Score -> M (Model * Score)) :
  forwards s m -> (forall st, forwards st.2 (f st)) -> forwards s (m ≫= f).
Proof.
  intros Hm Hf w. unfold mbind, M_bind.
  destruct (Hm w) as (c1 & l1 & Ht1 & Hc1 & Hr1).
  destruct (m w) as [[st|e] w1]; cbn in *.
  - destruct (Hf st w1) as (c2 & l2 & Ht2 & Hc2 & Hr2).
    exists (c1 ++ c2), l2. rewrite Ht2, Ht1, app_assoc.
    split; [reflexivity|]. split; [|exact Hr2].
    apply (forwarded_app _ l1); [exact Hc1|].
    now rewrite <- (Hr1 st eq_refl).
  - exists c1, l1. split; [exact Ht1|]. split; [exact Hc1|]. intros st' [=].
Qed.

Lemma forwards_ret (st : Model * Score) : forwards st.2 (mret st).
Proof.
  intros w. exists [], st.2. cbn. rewrite app_nil_r.
  split; [reflexivity|]. split; [constructor|]. now intros st' [= <-].
Qed.

Lemma forwards_for_each {A} (body : Model * Score -> A -> M (Model * Score))
    (l : list A) :
  (forall st x, forwards st.2 (body st x)) ->
  forall st, forwards st.2 (for_each body l st).
Proof.
  intros Hb. induction l as [|x l IH]; intros st; cbn [for_each].
  - apply forwards_ret.
  - apply forwards_bind; [apply Hb | exact IH].
Qed.

Lemma inc_dump_batch_forwards epoch st ib :
  forwards st.2 (inc_dump_batch' epoch st ib).
Proof.
  unfold inc_dump_batch. destruct (_ =? 0); [|apply (forwards_ret (_, _))].
  intros w.
  exists [(st.2, (incremental_dump (train_step st.1 ib.2) st.2).2)],
         (incremental_dump (train_step st.1 ib.2) st.2).2.
  unfold mbind, M_bind, mret, M_ret, emit. cbn. unfold dump_calls.
  rewrite !omap_app. cbn. rewrite app_nil_r.
  split; [reflexivity|]. split; [repeat constructor|].
  now intros st' [= <-].
Qed.

Lemma inc_dump_epoch_forwards args st epoch :
  forwards st.2 (inc_dump_epoch' args st epoch).
Proof.
  unfold inc_dump_epoch. apply forwards_bind.
  - apply forwards_for_each. intros. apply inc_dump_batch_forwards.
  - intros st'. destruct (bool_decide _).
    + intros w. exists [], st'.2. cbn. rewrite app_nil_r.
      split; [reflexivity|]. split; [constructor|]. intros ? [=].
    + intros w. exists [], st'.2.
      unfold mbind, M_bind, mret, M_ret, emit. cbn. unfold dump_calls.
      rewrite omap_app. cbn. rewrite !app_nil_r.
      split; [reflexivity|]. split; [constructor|]. now intros ? [= <-].
Qed.

(** C4.  The watermarks are passed forward: of the [incremental_dump]
    calls that a run of [inc_dump] makes, the first receives the watermark
    that [get_score] returned for the fresh model, and each later one
    receives exactly the watermark the call before it returned. *)
Theorem inc_dump_forwards_watermarks (args : Namespace)
    (global_rank world_size : Z) (w : World) :
  exists calls last,
    dump_calls (trace (inc_dump' args global_rank world_size w).2)
      = dump_calls (trace w) ++ calls /\
    forwarded (get_score (create_model args)) calls last /\
    (forall c, calls !! 0%nat = Some c -> c.1 = get_score (create_model args)) /\
    (forall (i : nat) c d,
       calls !! i = Some c -> calls !! S i = Some d -> d.1 = c.2).
Proof.
  assert (H : exists calls last,
             dump_calls (trace (inc_dump' args global_rank world_size w).2)
               = dump_calls (trace w) ++ calls /\
             forwarded (get_score (create_model args)) calls last).
  { set (w1 := {| files := files w; dirs := {[save_dir args]} ∪ dirs w;
                  trace := trace w |}).
    assert (Hrun : inc_dump' args global_rank world_size w =
                   (open_dataset (data_path args) ≫= fun _ =>
                    for_each (inc_dump_epoch' args) (seqZ 0 (epochs args))
                      (create_model args, get_score (create_model args))
                    ≫= fun _ => mret tt) w1) by reflexivity.
    rewrite Hrun. unfold mbind at 1, M_bind at 1.
    destruct (open_dataset_pure (data_path args) w1) as (r & ->).
    destruct r as [[]|e].
    - destruct (forwards_for_each (inc_dump_epoch' args) (seqZ 0 (epochs args))
                  (inc_dump_epoch_forwards args)
                  (create_model args, get_score (create_model args)) w1)
        as (calls & last & Ht & Hc & _).
      exists calls, last. split; [|exact Hc].
      unfold mbind, M_bind.
      destruct (for_each _ _ _ w1) as [[st|e] w3]; exact Ht.
    - exists [], (get_score (create_model args)). cbn.
      rewrite app_nil_r. split; [reflexivity | constructor]. }
  destruct H as (calls & last & Ht & Hc). exists calls, last.
  split; [exact Ht|]. split; [exact Hc|]. exact (forwarded_lookup _ _ _ Hc).
Qed.

Lemma inc_dump_events args global_rank world_size :
  emits_only inc_dump_event (inc_dump' args global_rank world_size) /\
  keeps_files (inc_dump' args global_rank world_size).
Proof.
  unfold inc_dump. split.
  - apply emits_only_bind; [apply emits_only_makedirs | intros ?].
    apply emits_only_bind; [apply emits_only_open_dataset | intros ?].
    apply emits_only_bind; [|intros ?; apply emits_only_ret].
    apply emits_only_for_each. intros. apply inc_dump_epoch_events.
  - apply keeps_files_bind; [apply keeps_files_makedirs | intros ?].
    apply keeps_files_bind; [apply keeps_files_open_dataset | intros ?].
    apply keeps_files_bind; [|intros ?; apply keeps_files_ret].
    apply keeps_files_for_each. intros. apply inc_dump_epoch_events.
Qed.

(** C5.  [inc_dump] writes none of the rows that [incremental_dump]
    returns: whatever the outcome, every file is as before, and all the
    mode adds to the trace are the [incremental_dump] calls and the log
    lines (one of which carries the count of the returned rows); no write
    is among them. *)
Theorem inc_dump_writes_nothing (args : Namespace) (global_rank world_size : Z)
    (w : World) :
  let w' := (inc_dump' args global_rank world_size w).2 in
  files w' = files w /\
  exists new, trace w' = trace w ++ new /\
              Forall inc_dump_event new /\
              Forall (fun e => is_write e = false) new.
Proof.
  cbn zeta.
  destruct (inc_dump_events args global_rank world_size) as [He Hf].
  split; [apply Hf|].
  destruct (He w) as (new & Ht & Hq). exists new.
  split; [exact Ht|]. split; [exact Hq|].
  eapply Forall_impl; [exact Hq|]. apply inc_dump_event_not_write.
Qed.

(** By contrast [dump], when it returns, has written the embedding dump
    below the save directory. *)
Lemma dump_writes (args : Namespace) (global_rank world_size : Z)
    (w w' : World) :
  dump' args global_rank world_size w = (Ok tt, w') ->
  exists m, files w' !! path_join (save_dir args) "dynamicemb"
            = Some (EmbeddingDump m) /\
            EvWrite (path_join (save_dir args) "dynamicemb") ∈ trace w'.
Proof.
  unfold dump, mbind, M_bind.
  destruct (makedirs _ w) as [[[]|] w1]; [|discriminate].
  destruct (open_dataset _ w1) as [[[]|] w2]; [|discriminate].
  destruct (for_each _ _ _ w2) as [[m|] w3]; [|discriminate].
  cbn. intros [= <-]. exists m. cbn. split.
  - apply lookup_insert_eq.
  - apply elem_of_app. right. constructor.
Qed.


(** *** [main] *)

Lemma emits_only_weaken {A} (Q Q' : event -> Prop) (m : M A) :
  (forall e, Q e -> Q' e) -> emits_only Q m -> emits_only Q' m.
Proof.
  intros HQ Hm w. destruct (Hm w) as (new & Ht & Hq). exists new.
  split; [exact Ht|]. eapply Forall_impl; [exact Hq | exact HQ].
Qed.

(** What can precede the barrier: anything but the barrier itself and the
    entry into a mode. *)
Definition prologue_event (e : event) : Prop :=
  match e with
  | EvBarrier | EvEnter _ => False
  | _ => True
  end.

Lemma download_movielens_events (data_dir : string) (global_rank : Z) :
  emits_only prologue_event
    (download_movielens (Model:=Model) (Score:=Score) data_dir global_rank).
Proof. unfold download_movielens, extractall. emits. Qed.

Definition any_event (e : event) : Prop := True.

Lemma dump_extends args global_rank world_size :
  emits_only any_event (dump' args global_rank world_size).
Proof.
  unfold dump.
  apply emits_only_bind; [apply emits_only_makedirs | intros _].
  apply emits_only_bind; [apply emits_only_open_dataset | intros _].
  apply emits_only_bind; [|intros m; now apply emits_only_write_file].
  apply emits_only_for_each. intros m epoch. unfold dump_epoch.
  apply emits_only_bind.
  - apply emits_only_for_each. intros m' ib. unfold dump_batch.
    destruct (_ =? 0); [|apply emits_only_ret].
    apply emits_only_bind; [now apply emits_only_emit | intros _].
    apply emits_only_ret.
  - intros m'. destruct (bool_decide _); [apply emits_only_raise|].
    apply emits_only_bind; [now apply emits_only_emit | intros _].
    apply emits_only_bind; [now apply emits_only_write_file | intros _].
    apply emits_only_ret.
Qed.

Lemma inc_dump_extends args global_rank world_size :
  emits_only any_event (inc_dump' args global_rank world_size).
Proof.
  apply (emits_only_weaken inc_dump_event); [easy|].
  apply inc_dump_events.
Qed.

(** The four mode switches and the teardown, as [main] runs them after the
    barrier. *)
Definition after_barrier (args : Namespace) (global_rank world_size : Z) : M unit :=
  _ ← when (Cli.train args)
           (_ ← emit (EvEnter TrainMode);
            external (train args global_rank world_size));
  _ ← when (Cli.dump args)
           (_ ← emit (EvEnter DumpMode); dump' args global_rank world_size);
  _ ← when (Cli.load args)
           (_ ← emit (EvEnter LoadMode);
            external (load args global_rank world_size));
  _ ← when (Cli.incremental_dump args)
           (_ ← emit (EvEnter IncDumpMode); inc_dump' args global_rank world_size);
  emit EvDestroyProcessGroup.

Lemma after_barrier_extends args global_rank world_size :
  emits_only any_event (after_barrier args global_rank world_size).
Proof.
  unfold after_barrier.
  apply emits_only_bind; [|intros _].
  { apply emits_only_when.
    apply emits_only_bind; [now apply emits_only_emit | intros _].
    apply emits_only_external. intros w. now apply Forall_forall. }
  apply emits_only_bind; [|intros _].
  { apply emits_only_when.
    apply emits_only_bind; [now apply emits_only_emit | intros _].
    apply dump_extends. }
  apply emits_only_bind; [|intros _].
  { apply emits_only_when.
    apply emits_only_bind; [now apply emits_only_emit | intros _].
    apply emits_only_external. intros w. now apply Forall_forall. }
  apply emits_only_bind; [|intros _].
  { apply emits_only_when.
    apply emits_only_bind; [now apply emits_only_emit | intros _].
    apply inc_dump_extends. }
  now apply emits_only_emit.
Qed.

Lemma main_unfold environ cli global_rank world_size :
  main' environ cli global_rank world_size =
  (args ← lift (parse_args environ cli);
   _ ← emit EvInitProcessGroup;
   _ ← when (local_rank args =? 0)
            (_ ← download_movielens (data_path args) 0; mret tt);
   _ ← emit EvBarrier;
   after_barrier args global_rank world_size).
Proof. reflexivity. Qed.


(** [m] first makes the calls [pre], at the world [w]. *)
Definition begins_with {A} (pre : list event) (m : M A) (w : World) : Prop :=
  exists rest, trace (m w).2 = trace w ++ pre ++ rest.

Lemma begins_with_extends {A} (m : M A) (w : World) :
  emits_only any_event m -> begins_with [] m w.
Proof. intros Hm. destruct (Hm w) as (new & Ht & _). now exists new. Qed.

Lemma begins_with_emit {B} (e : event) (k : unit -> M B) (pre : list event)
    (w : World) :
  begins_with pre (k tt)
    {| files := files w; dirs := dirs w; trace := trace w ++ [e] |} ->
  begins_with (e :: pre) (emit e ≫= k) w.
Proof.
  intros [rest Hr]. exists rest. unfold mbind, M_bind, emit. cbn in *.
  rewrite Hr, <- app_assoc. reflexivity.
Qed.

Lemma begins_with_bind {A B} (m : M A) (f : A -> M B) (pre : list event)
    (w : World) :
  begins_with pre m w -> (forall a, emits_only any_event (f a)) ->
  begins_with pre (m ≫= f) w.
Proof.
  intros [rest Hr] Hf. unfold begins_with, mbind, M_bind.
  destruct (m w) as [[a|e] w1]; cbn in *; [|now exists rest].
  destruct (Hf a w1) as (new & Hn & _). exists (rest ++ new).
  rewrite Hn, Hr, <- !app_assoc. reflexivity.
Qed.


Lemma bind_lift_ok {A B} (a : A) (k : A -> M B) (w : World) :
  (lift (Ok a) ≫= k) w = k a w.
Proof. reflexivity. Qed.

Lemma begins_with_makedirs {B} (p : string) (k : unit -> M B)
    (pre : list event) (w : World) :
  begins_with pre (k tt)
    {| files := files w; dirs := {[ p ]} ∪ dirs w; trace := trace w |} ->
  begins_with pre (makedirs p ≫= k) w.
Proof. intros H. exact H. Qed.

Lemma begins_with_exists_file {B} (p : string) (k : bool -> M B)
    (pre : list event) (w : World) :
  begins_with pre (k (bool_decide (is_Some (files w !! p)))) w ->
  begins_with pre (exists_file p ≫= k) w.
Proof. intros H. exact H. Qed.

Lemma main_begins_with_download environ cli args global_rank world_size w :
  parse_args environ cli = Ok args -> local_rank args = 0 ->
  begins_with [EvInitProcessGroup; EvDownloadCall (data_path args) 0]
    (main' environ cli global_rank world_size) w.
Proof.
  intros Hp Hl. rewrite main_unfold. unfold begins_with.
  rewrite Hp, bind_lift_ok. apply begins_with_emit.
  rewrite Hl. change (0 =? 0) with true. cbn [when].
  apply begins_with_bind.
  - apply begins_with_bind; [|intros; emits].
    unfold download_movielens. apply begins_with_emit.
    apply begins_with_extends. unfold extractall. emits.
  - intros _.
    apply emits_only_bind; [emits | intros _; apply after_barrier_extends].
Qed.

Lemma main_begins_with_retrieve environ cli args global_rank world_size w :
  parse_args environ cli = Ok args -> local_rank args = 0 ->
  files w !! path_join (data_path args) "ratings.dat" = None ->
  begins_with [EvInitProcessGroup; EvDownloadCall (data_path args) 0;
               EvLogText "download MovieLens-1M...";
               EvUrlRetrieve movielens_url
                 (path_join (data_path args) "ml-1m.zip")]
    (main' environ cli global_rank world_size) w.
Proof.
  intros Hp Hl Habsent. rewrite main_unfold. unfold begins_with.
  rewrite Hp, bind_lift_ok. apply begins_with_emit.
  rewrite Hl. change (0 =? 0) with true. cbn [when].
  apply begins_with_bind.
  - apply begins_with_bind; [|intros; emits].
    unfold download_movielens. apply begins_with_emit.
    change (0 =? 0) with true. cbn iota.
    apply begins_with_makedirs, begins_with_exists_file. cbn [files].
    rewrite Habsent.
    rewrite (bool_decide_eq_false_2 _ (is_Some_None (A:=blob))).
    apply begins_with_emit, begins_with_emit.
    apply begins_with_extends. unfold extractall. emits.
  - intros _.
    apply emits_only_bind; [emits | intros _; apply after_barrier_extends].
Qed.

(** C8.  The download is meant to run on global rank 0 only.  [main] gates
    it on the local rank, and calls [download_movielens] with its default
    [global_rank = 0]: in every process whose local rank is 0, whatever
    its global rank, the call is made as the first thing after the process
    group is set up, and when the ratings file is not there yet the archive
    is fetched. *)
Theorem main_downloads_on_local_rank_0 environ cli args global_rank world_size
    (w : World) :
  parse_args environ cli = Ok args -> local_rank args = 0 ->
  exists rest,
    trace (main' environ cli global_rank world_size w).2
      = trace w ++ EvInitProcessGroup :: EvDownloadCall (data_path args) 0 :: rest /\
    (files w !! path_join (data_path args) "ratings.dat" = None ->
     EvUrlRetrieve movielens_url (path_join (data_path args) "ml-1m.zip") ∈ rest).
Proof.
  intros Hp Hl.
  destruct (main_begins_with_download environ cli args global_rank world_size w
              Hp Hl) as [rest Hrest].
  exists rest. split; [exact Hrest|]. intros Habsent.
  destruct (main_begins_with_retrieve environ cli args global_rank world_size w
              Hp Hl Habsent) as [rest' Hrest'].
  rewrite Hrest' in Hrest. apply app_inv_head in Hrest.
  injection Hrest as <-.
  apply elem_of_cons. right. apply elem_of_cons. now left.
Qed.


(** In a process whose local rank is not 0 the barrier is the first thing
    after the set-up: no download is attempted. *)
Lemma main_skips_download environ cli args global_rank world_size (w : World) :
  parse_args environ cli = Ok args -> local_rank args <> 0 ->
  begins_with [EvInitProcessGroup; EvBarrier]
    (main' environ cli global_rank world_size) w.
Proof.
  intros Hp Hl. rewrite main_unfold. unfold begins_with.
  rewrite Hp, bind_lift_ok. apply begins_with_emit.
  replace (local_rank args =? 0) with false by (symmetry; now apply Z.eqb_neq).
  cbn [when]. change (begins_with [EvBarrier]
    (emit EvBarrier ≫= fun _ => after_barrier args global_rank world_size)
    {| files := files w; dirs := dirs w; trace := trace w ++ [EvInitProcessGroup] |}).
  apply begins_with_emit, begins_with_extends, after_barrier_extends.
Qed.

Lemma split_after_prefix {A} (Q : A -> Prop) (x : A) (pre tail : list A) :
  Forall Q pre -> ~ Q x ->
  forall pre' post, pre ++ tail = pre' ++ x :: post ->
  exists mid, pre' = pre ++ mid /\ tail = mid ++ x :: post.
Proof.
  intros Hpre Hx. induction Hpre as [|a pre Ha _ IH]; intros pre' post Heq.
  - now exists pre'.
  - destruct pre' as [|a' pre']; cbn in Heq; injection Heq as -> Heq.
    + contradiction.
    + destruct (IH _ _ Heq) as (mid & -> & ->). now exists mid.
Qed.

(** What [main] adds to the trace: set-up and download, then, unless the
    download raised, the barrier and everything else. *)
Lemma main_trace_shape environ cli global_rank world_size (w : World) :
  exists pre tail,
    trace (main' environ cli global_rank world_size w).2 = trace w ++ pre ++ tail /\
    Forall prologue_event pre /\
    (tail = [] \/ exists rest, tail = EvBarrier :: rest).
Proof.
  rewrite main_unfold. destruct (parse_args environ cli) as [args|e].
  2: { exists [], []. cbn. rewrite app_nil_r. repeat split; [constructor | now left]. }
  rewrite bind_lift_ok.
  set (w0 := {| files := files w; dirs := dirs w;
                trace := trace w ++ [EvInitProcessGroup] |}).
  set (guarded := when (local_rank args =? 0)
                 (_ ← download_movielens (Model:=Model) (Score:=Score)
                        (data_path args) 0; mret tt)).
  assert (Hguard : emits_only prologue_event guarded).
  { unfold guarded. apply emits_only_when.
    apply emits_only_bind; [apply download_movielens_events | intros; emits]. }
  destruct (Hguard w0) as (dl & Hdl & Qdl).
  change ((emit EvInitProcessGroup ≫= fun _ => guarded ≫= fun _ =>
           emit EvBarrier ≫= fun _ => after_barrier args global_rank world_size) w)
    with ((guarded ≫= fun _ =>
           emit EvBarrier ≫= fun _ => after_barrier args global_rank world_size) w0).
  unfold mbind at 1, M_bind at 1.
  destruct (guarded w0) as [[[]|e] w1]; cbn [snd] in *.
  - destruct (after_barrier_extends args global_rank world_size
                {| files := files w1; dirs := dirs w1;
                   trace := trace w1 ++ [EvBarrier] |}) as (rest & Hrest & _).
    exists (EvInitProcessGroup :: dl), (EvBarrier :: rest).
    split; [|split; [now constructor | right; now exists rest]].
    change ((emit EvBarrier ≫= fun _ => after_barrier args global_rank world_size) w1)
      with (after_barrier args global_rank world_size
              {| files := files w1; dirs := dirs w1;
                 trace := trace w1 ++ [EvBarrier] |}).
    rewrite Hrest. cbn [trace]. rewrite Hdl. cbn [trace w0].
    unfold w0. cbn [trace]. rewrite <- !app_assoc. reflexivity.
  - exists (EvInitProcessGroup :: dl), [].
    split; [|split; [now constructor | now left]].
    rewrite Hdl. unfold w0. cbn [trace]. rewrite app_nil_r, <- app_assoc.
    reflexivity.
Qed.

(** Every process passes the barrier before it enters a mode function. *)
Lemma main_barrier_before_modes environ cli global_rank world_size (w : World)
    (pre post : list event) (m : mode) :
  trace (main' environ cli global_rank world_size w).2
    = trace w ++ pre ++ EvEnter m :: post ->
  EvBarrier ∈ pre.
Proof.
  intros Ht.
  destruct (main_trace_shape environ cli global_rank world_size w)
    as (pre0 & tail & Hs & Hq & Htail).
  rewrite Hs in Ht. apply app_inv_head in Ht.
  destruct (split_after_prefix prologue_event (EvEnter m) pre0 tail Hq
              ltac:(easy) pre post Ht) as (mid & -> & Hmid).
  apply elem_of_app. right.
  destruct Htail as [-> | [rest ->]].
  - destruct mid; discriminate Hmid.
  - destruct mid as [|e mid]; [discriminate Hmid|].
    injection Hmid as <- _. now left.
Qed.

End Program.

(** Two nodes with one process each: the process of the second node has
    local rank 0 and global rank 1.  A model is the number of steps taken,
    which is also its watermark; a tensor is its number of rows. *)
Definition second_node_environ : gmap string string :=
  <[ "LOCAL_RANK"%string := "0"%string ]>
    (<[ "RANK"%string := "1"%string ]> {[ "PET_NNODES"%string := "2"%string ]}).

Definition second_node_args : Namespace :=
  {| Cli.train := false; Cli.load := false; Cli.dump := false;
     Cli.incremental_dump := false;
     data_path := "./ml-1m"; epochs := 5; batch_size := 1024; lr := "0.01";
     embedding_dim := 64; num_embeddings := 10000; mlp_dims := "128,64,32";
     save_dir := "./model_checkpoints"; seed := 42;
     local_rank := 0; local_world_size := 1; node_rank := 1; num_nodes := 2;
     master_addr := "localhost"; master_port := "29500"; backend := "nccl" |}.

Lemma second_node_parse :
  parse_args second_node_environ ∅ = Ok second_node_args.
Proof. vm_compute. reflexivity. Qed.

Definition empty_world : @World Z Z :=
  {| files := ∅; dirs := ∅; trace := [] |}.

Definition counting_main :=
  main (Model:=Z) (Batch:=unit) (Score:=Z) (Tensor:=Z) (fun rows => rows)
       (fun _ => 0) (fun _ _ => replicate 101 tt) (fun m _ => m + 1)
       (fun m => m) (fun m _ => ([], m))
       (fun _ _ _ w => (Ok tt, files w, [])) (fun _ _ _ w => (Ok tt, files w, [])).

Lemma main_downloads_on_local_rank_0_witness :
  exists rest,
    trace (counting_main second_node_environ ∅ 1 2 empty_world).2
      = EvInitProcessGroup :: EvDownloadCall "./ml-1m" 0 :: rest /\
    EvUrlRetrieve movielens_url "./ml-1m/ml-1m.zip" ∈ rest.
Proof.
  destruct (main_downloads_on_local_rank_0 (Tensor:=Z) (fun rows => rows)
              (fun _ => 0) (fun _ _ => replicate 101 tt) (fun m _ => m + 1)
              (fun m => m) (fun m _ => ([], m))
              (fun _ _ _ w => (Ok tt, files w, []))
              (fun _ _ _ w => (Ok tt, files w, []))
              second_node_environ ∅ second_node_args 1 2 empty_world
              second_node_parse eq_refl)
    as (rest & Ht & Hr).
  exists rest. split; [exact Ht|]. apply Hr. vm_compute. reflexivity.
Defined.


(** A run of the incremental-dump mode: two epochs of 101 batches, a dump
    at batches 0 and 100 of each; the watermark is the number of steps
    taken, and each call reports the steps since the last dump. *)
Definition counting_inc_dump :=
  inc_dump (Model:=Z) (Batch:=unit) (Score:=Z) (Tensor:=Z) (fun rows => rows)
           (fun _ => 0) (fun _ _ => replicate 101 tt) (fun m _ => m + 1)
           (fun m => m)
           (fun m s => ([("model"%string,
                          [("user_id"%string, (m - s, m - s))])], m)).

Definition dataset_world : @World Z Z :=
  {| files := list_to_map
                [("./ml-1m/ratings.dat"%string, DatasetFile "ml-1m/ratings.dat");
                 ("./ml-1m/users.dat"%string, DatasetFile "ml-1m/users.dat");
                 ("./ml-1m/movies.dat"%string, DatasetFile "ml-1m/movies.dat")];
     dirs := {[ "./ml-1m"%string ]};
     trace := [] |}.

Definition two_epochs : Namespace :=
  {| Cli.train := false; Cli.load := false; Cli.dump := false;
     Cli.incremental_dump := true;
     data_path := "./ml-1m"; epochs := 2; batch_size := 1024; lr := "0.01";
     embedding_dim := 64; num_embeddings := 10000; mlp_dims := "128,64,32";
     save_dir := "./model_checkpoints"; seed := 42;
     local_rank := 0; local_world_size := 1; node_rank := 0; num_nodes := 1;
     master_addr := "localhost"; master_port := "29500"; backend := "nccl" |}.

Example counting_inc_dump_run :
  let out := counting_inc_dump two_epochs 0 1 dataset_world in
  out.1 = Ok tt /\
  dump_calls (trace out.2) = [(0, 1); (1, 101); (101, 102); (102, 202)] /\
  trace out.2 =
    [ EvIncrementalDump 0 1; EvLog 0 0 (Some 1);
      EvIncrementalDump 1 101; EvLog 0 100 (Some 100); EvLogAverage 0;
      EvIncrementalDump 101 102; EvLog 1 0 (Some 1);
      EvIncrementalDump 102 202; EvLog 1 100 (Some 100); EvLogAverage 1 ] /\
  files out.2 = files dataset_world.
Proof. vm_compute. repeat split. Qed.

End DriverFacts.

(** ** More on the capacity estimate and the planner *)

Module PlannerFacts.
Import Binary64 Binary64Facts Capacity CapacityFacts.
Local Open Scope Z_scope.

(** X1.  For 1 <= n <= 2^49 the row-count rounding of [get_planner]
    returns the least power of two that is not below [n]: a power of two
    [p] with [n <= p < 2n] that no power of two at or above [n]
    undercuts. *)
Theorem next_power_of_2_least (n : Z) :
  1 <= n <= 2 ^ 49 ->
  exists k, 0 <= k /\ next_power_of_2 n = Ok (2 ^ k) /\
            n <= 2 ^ k < 2 * n /\
            forall j, 0 <= j -> n <= 2 ^ j -> 2 ^ k <= 2 ^ j.
Proof.
  intros Hn. exists (Z.log2_up n).
  split; [apply Z.log2_up_nonneg|].
  split; [now apply next_power_of_2_exact|].
  split; [apply pow2_log2_up_bounds; lia|].
  intros j Hj Hle. apply (spec_next_power_of_two_least n j); lia.
Qed.

Lemma next_power_of_2_least_witness :
  exists k, 0 <= k /\ next_power_of_2 10000 = Ok (2 ^ k) /\
            10000 <= 2 ^ k < 2 * 10000 /\
            forall j, 0 <= j -> 10000 <= 2 ^ j -> 2 ^ k <= 2 ^ j.
Proof.
  apply (next_power_of_2_least 10000).
  split; [lia | vm_compute; discriminate].
Defined.

(** X2.  Between two powers of two the estimate is that of the upper one:
    a table of [2^k < n <= 2^(k+1)] rows is given [b * d * 2^(k+1)]
    bytes, so one row more than a power of two doubles the memory. *)
Theorem total_hbm_need_rounds_up (c : EmbeddingConfig) (k : Z) :
  in_table (data_type c) ->
  Z.abs (embedding_dim c) < 2 ^ 48 ->
  0 <= k < 49 ->
  2 ^ k < num_embeddings c <= 2 ^ (k + 1) ->
  exists x, total_hbm_need c = Ok x /\
            int_value x =
            Some (bytes_of (data_type c) * embedding_dim c * 2 ^ (k + 1)).
Proof.
  intros Ht Hd Hk Hn.
  assert (H0 : 0 < 2 ^ k) by (apply Z.pow_pos_nonneg; lia).
  assert (H49 : 2 ^ (k + 1) <= 2 ^ 49) by (apply Z.pow_le_mono_r; lia).
  destruct (total_hbm_need_exact c Ht Hd ltac:(lia)) as (x & Hx & Hv).
  exists x. split; [exact Hx|]. rewrite Hv.
  unfold spec_capacity, spec_next_power_of_two.
  rewrite (Z.log2_up_unique (num_embeddings c) (k + 1)); [reflexivity | lia |].
  now replace (Z.pred (k + 1)) with k by lia.
Qed.

Lemma total_hbm_need_rounds_up_witness :
  exists x,
    total_hbm_need {| name := "user_id"; embedding_dim := 64;
                      num_embeddings := 8193; data_type := FP32 |} = Ok x /\
    int_value x = Some (4 * 64 * 2 ^ (13 + 1)).
Proof.
  apply (total_hbm_need_rounds_up
           {| name := "user_id"; embedding_dim := 64; num_embeddings := 8193;
              data_type := FP32 |} 13).
  - left. reflexivity.
  - vm_compute. reflexivity.
  - lia.
  - split; vm_compute; [reflexivity | discriminate].
Defined.

(** *** The constraints dict *)

(** The config that filled the entry of a table name: the last one of
    that name. *)
Definition last_named (nm : string) (cs : list EmbeddingConfig)
  : option EmbeddingConfig :=
  List.find (fun c => String.eqb (name c) nm) (List.rev cs).

Definition constraint_of (c : EmbeddingConfig)
  : option DynamicEmbParameterConstraints :=
  match total_hbm_need c with
  | Ok x => Some (make_constraints x)
  | Raise _ => None
  end.

Lemma find_snoc {A} (f : A -> bool) (l : list A) (a : A) :
  List.find f (l ++ [a]) =
  match List.find f l with
  | Some x => Some x
  | None => if f a then Some a else None
  end.
Proof.
  induction l as [|x l IH]; cbn; [reflexivity|].
  destruct (f x); [reflexivity | exact IH].
Qed.

Lemma fill_dict_const_lookup (cs : list EmbeddingConfig) :
  forall d d', fill_dict_const cs d = Ok d' ->
  forall nm, d' !! nm =
             match last_named nm cs with
             | Some c => constraint_of c
             | None => d !! nm
             end.
Proof.
  unfold last_named.
  induction cs as [|c cs IH]; intros d d' H nm; cbn [fill_dict_const] in H.
  - injection H as <-. reflexivity.
  - destruct (total_hbm_need c) as [t|] eqn:Ht; [|discriminate H].
    cbn [mbind result_bind] in H. rewrite (IH _ _ H nm).
    cbn [List.rev]. rewrite find_snoc.
    destruct (List.find _ (List.rev cs)); [reflexivity|].
    destruct (String.eqb (name c) nm) eqn:Hnm.
    + apply String.eqb_eq in Hnm. subst nm.
      rewrite lookup_insert_eq. unfold constraint_of. now rewrite Ht.
    + apply String.eqb_neq in Hnm. now rewrite lookup_insert_ne.
Qed.

Lemma fill_dict_const_all_ok (cs : list EmbeddingConfig) :
  forall d d', fill_dict_const cs d = Ok d' ->
  List.Forall (fun c => exists x, total_hbm_need c = Ok x) cs.
Proof.
  induction cs as [|c cs IH]; intros d d' H; [constructor|].
  cbn [fill_dict_const] in H.
  destruct (total_hbm_need c) as [t|] eqn:Ht; [|discriminate H].
  constructor; [now exists t | exact (IH _ _ H)].
Qed.

Lemma get_planner_ok dev ls ws cs bs p :
  get_planner dev ls ws cs bs = Ok p ->
  fill_dict_const cs ∅ = Ok (planner_constraints p) /\
  planner_eb_configs p = cs /\ planner_batch_size p = bs.
Proof.
  unfold get_planner.
  destruct (fill_dict_const cs ∅) as [d|]; [|discriminate].
  cbn. intros [= <-]. repeat split.
Qed.

(** X3.  When [get_planner] returns, every table has been estimated, and
    the constraints hold one entry per table name, computed from the last
    config of that name; a name no config carries has no entry. *)
Theorem get_planner_constraints dev ls ws (cs : list EmbeddingConfig) bs
    (p : DynamicEmbeddingShardingPlanner) :
  get_planner dev ls ws cs bs = Ok p ->
  planner_eb_configs p = cs /\
  planner_batch_size p = bs /\
  List.Forall (fun c => exists x, total_hbm_need c = Ok x) cs /\
  forall nm, planner_constraints p !! nm = last_named nm cs ≫= constraint_of.
Proof.
  intros Hp. apply get_planner_ok in Hp as (Hd & Hcs & Hbs).
  split; [exact Hcs|]. split; [exact Hbs|].
  split; [exact (fill_dict_const_all_ok _ _ _ Hd)|].
  intros nm. rewrite (fill_dict_const_lookup _ _ _ Hd nm).
  destruct (last_named nm cs); [reflexivity | apply lookup_empty].
Qed.

Lemma get_planner_constraints_witness :
  exists p,
    get_planner "cuda" 8 16
      [ {| name := "item"; embedding_dim := 8; num_embeddings := 3;
           data_type := FP32 |};
        {| name := "item"; embedding_dim := 8; num_embeddings := 100;
           data_type := FP16 |} ] 1024 = Ok p /\
    (global_hbm_for_values <$> (dynamicemb_options <$> planner_constraints p !! "item"))
      ≫= int_value = Some (2 * 8 * 128) /\
    planner_constraints p !! "user" = None.
Proof.
  destruct (get_planner "cuda" 8 16 _ 1024) as [p|] eqn:Hp;
    [|vm_compute in Hp; discriminate Hp].
  exists p. split; [reflexivity|].
  destruct (get_planner_constraints _ _ _ _ _ _ Hp) as (_ & _ & _ & Hl).
  split; rewrite Hl; vm_compute; reflexivity.
Defined.

(** X4.  [get_planner] raises exactly when the estimate of some table
    raises, and the exception is that of the first such table: the tables
    before it were estimated, the ones after it are not looked at. *)
Theorem get_planner_first_failure dev ls ws (cs : list EmbeddingConfig) bs
    (e : exn) :
  get_planner dev ls ws cs bs = Raise e <->
  exists pre c post,
    cs = pre ++ c :: post /\
    List.Forall (fun c' => exists x, total_hbm_need c' = Ok x) pre /\
    total_hbm_need c = Raise e.
Proof.
  unfold get_planner.
  assert (Hfill : forall d,
            fill_dict_const cs d = Raise e <->
            exists pre c post,
              cs = pre ++ c :: post /\
              List.Forall (fun c' => exists x, total_hbm_need c' = Ok x) pre /\
              total_hbm_need c = Raise e).
  { induction cs as [|c cs IH]; intros d; cbn [fill_dict_const].
    - split; [discriminate|]. intros (pre & c & post & H & _).
      destruct pre; discriminate H.
    - destruct (total_hbm_need c) as [t|e'] eqn:Ht; cbn [mbind result_bind].
      + rewrite IH. split.
        * intros (pre & c' & post & -> & Hpre & Hc').
          exists (c :: pre), c', post. repeat split; [|exact Hc'].
          constructor; [now exists t | exact Hpre].
        * intros (pre & c' & post & Heq & Hpre & Hc').
          destruct pre as [|c0 pre]; cbn in Heq; injection Heq as <- ->.
          { rewrite Ht in Hc'. discriminate Hc'. }
          exists pre, c', post. repeat split; [|exact Hc'].
          now inversion Hpre.
      + split.
        * intros [= ->]. exists [], c, cs. repeat split; [constructor | exact Ht].
        * intros (pre & c' & post & Heq & Hpre & Hc').
          destruct pre as [|c0 pre]; cbn in Heq; injection Heq as <- ->.
          { rewrite Ht in Hc'. now injection Hc' as ->. }
          inversion Hpre as [|? ? [x Hx] _]. rewrite Ht in Hx. discriminate Hx. }
  rewrite <- (Hfill ∅).
  destruct (fill_dict_const cs ∅) as [d|e']; cbn [mbind result_bind].
  - split; intros H; discriminate H.
  - split; intros [= ->]; reflexivity.
Qed.

End PlannerFacts.

(** ** The tables and the layers of [create_model] *)

Module NetworkFacts.
Import Binary64 Cli Network Capacity CapacityFacts PlannerFacts.
Local Open Scope Z_scope.

(** The rows each table is sized for. *)
Definition table_rows (args : Namespace) : list (string * Z) :=
  [ ("user_id"%string, spec_next_power_of_two (Cli.num_embeddings args));
    ("movie_id"%string, spec_next_power_of_two (Cli.num_embeddings args));
    ("gender"%string, 2); ("age"%string, 128); ("occupation"%string, 64);
    ("year"%string, 4096) ].

Lemma table_exact (nm : string) (d n : Z) :
  Z.abs d < 2 ^ 48 -> 1 <= n <= 2 ^ 49 ->
  exists x,
    total_hbm_need {| name := nm; embedding_dim := d; num_embeddings := n;
                      data_type := FP32 |} = Ok x /\
    int_value x = Some (4 * d * spec_next_power_of_two n).
Proof.
  intros Hd Hn.
  apply (total_hbm_need_exact
           {| name := nm; embedding_dim := d; num_embeddings := n;
              data_type := FP32 |}); [left; reflexivity | exact Hd | exact Hn].
Qed.

Lemma table_domain (nm : string) (d n : Z) :
  n < 1 ->
  total_hbm_need {| name := nm; embedding_dim := d; num_embeddings := n;
                    data_type := FP32 |} = Raise ValueError.
Proof.
  intros Hn. unfold total_hbm_need, next_power_of_2.
  cbn [data_type DATA_TYPE_NUM_BITS num_embeddings mbind result_bind].
  now rewrite math_log2_domain.
Qed.

(** [get_planner] on the six tables: for 1 <= num_embeddings <= 2^49 and
    |embedding_dim| < 2^48 it returns constraints for exactly these
    tables, with [4 * embedding_dim * rows] bytes each; with
    [num_embeddings < 1] it raises ValueError. *)
Lemma planner_of_tables (args : Namespace) (dev : string) (ls ws : Z) :
  (1 <= Cli.num_embeddings args <= 2 ^ 49 ->
   Z.abs (Cli.embedding_dim args) < 2 ^ 48 ->
   exists p,
     get_planner dev ls ws (eb_configs args) (Cli.batch_size args) = Ok p /\
     planner_batch_size p = Cli.batch_size args /\
     dom (planner_constraints p) =
       list_to_set (C := gset string) (fst <$> table_rows args) /\
     forall nm rows, In (nm, rows) (table_rows args) ->
       exists x, planner_constraints p !! nm = Some (make_constraints x) /\
                 int_value x = Some (4 * Cli.embedding_dim args * rows)) /\
  (Cli.num_embeddings args < 1 ->
   get_planner dev ls ws (eb_configs args) (Cli.batch_size args)
   = Raise ValueError).
Proof.
  unfold get_planner, eb_configs. split.
  - intros Hn Hd.
    destruct (table_exact "user_id" _ _ Hd Hn) as (x1 & H1 & V1).
    destruct (table_exact "movie_id" _ _ Hd Hn) as (x2 & H2 & V2).
    destruct (table_exact "gender" _ 2 Hd ltac:(cbn; lia)) as (x3 & H3 & V3).
    destruct (table_exact "age" _ 100 Hd ltac:(cbn; lia)) as (x4 & H4 & V4).
    destruct (table_exact "occupation" _ 50 Hd ltac:(cbn; lia)) as (x5 & H5 & V5).
    destruct (table_exact "year" _ 2050 Hd ltac:(cbn; lia)) as (x6 & H6 & V6).
    cbn [fill_dict_const]. rewrite H1. cbn [mbind result_bind].
    rewrite H2. cbn [mbind result_bind]. rewrite H3. cbn [mbind result_bind].
    rewrite H4. cbn [mbind result_bind]. rewrite H5. cbn [mbind result_bind].
    rewrite H6. cbn [mbind result_bind].
    eexists. split; [reflexivity|]. cbn [planner_batch_size planner_constraints].
    split; [reflexivity|]. split.
    + rewrite !dom_insert_L, dom_empty_L. cbn. set_solver.
    + intros nm rows Hin. cbn [table_rows In] in Hin.
      destruct Hin as [[= <- <-] | [[= <- <-] | [[= <- <-] | [[= <- <-] |
                      [[= <- <-] | [[= <- <-] | []]]]]]].
      * exists x1. split; [vm_compute; reflexivity | exact V1].
      * exists x2. split; [vm_compute; reflexivity | exact V2].
      * exists x3. split; [vm_compute; reflexivity | exact V3].
      * exists x4. split; [vm_compute; reflexivity | exact V4].
      * exists x5. split; [vm_compute; reflexivity | exact V5].
      * exists x6. split; [vm_compute; reflexivity | exact V6].
  - intros Hn. cbn [fill_dict_const].
    now rewrite (table_domain "user_id" _ _ Hn).
Qed.

(** *** The layers *)

Lemma last_cons (l : list Z) : forall a b, List.last (b :: l) a = List.last l b.
Proof.
  induction l as [|c l IH]; intros a b; [reflexivity|].
  change (List.last (b :: c :: l) a) with (List.last (c :: l) a).
  now rewrite !IH.
Qed.

Lemma last_in (l : list Z) : forall a, In (List.last l a) (a :: l).
Proof.
  induction l as [|b l IH]; intros a; [now left|].
  rewrite last_cons. right. apply IH.
Qed.

Lemma rev_head (l : list Z) : forall a, exists r, List.rev (a :: l) = List.last l a :: r.
Proof.
  induction l as [|b l IH]; intros a; [now exists []|].
  destruct (IH b) as (r & Hr).
  change (List.rev (a :: b :: l)) with (List.rev (b :: l) ++ [a]).
  rewrite Hr, last_cons. now exists (r ++ [a]).
Qed.

Lemma last_item_cons (a : Z) (l : list Z) : last_item (a :: l) = inr (List.last l a).
Proof.
  unfold last_item. destruct (rev_head l a) as (r & ->). reflexivity.
Qed.

Lemma output_width_app (l1 l2 : list layer) :
  forall w, output_width (l1 ++ l2) w = output_width l1 w ≫= output_width l2.
Proof.
  induction l1 as [|[i o|] l1 IH]; intros w; cbn [app output_width].
  - reflexivity.
  - destruct (w =? i); [apply IH | reflexivity].
  - apply IH.
Qed.

Lemma nn_Linear_inr (i o : Z) (l : layer) :
  nn_Linear i o = inr l -> l = Linear i o /\ 0 <= i /\ 0 <= o.
Proof.
  unfold nn_Linear. destruct (i <? 0) eqn:Hi; [discriminate|].
  destruct (o <? 0) eqn:Ho; [discriminate|]. cbn.
  apply Z.ltb_ge in Hi, Ho. now intros [= <-].
Qed.

Lemma nn_Linear_inl (i o : Z) (e : init_error) :
  nn_Linear i o = inl e -> e = RuntimeError /\ (i < 0 \/ o < 0).
Proof.
  unfold nn_Linear. destruct (i <? 0) eqn:Hi; cbn.
  - apply Z.ltb_lt in Hi. intros [= <-]. split; [reflexivity | now left].
  - destruct (o <? 0) eqn:Ho; [|discriminate].
    apply Z.ltb_lt in Ho. intros [= <-]. split; [reflexivity | now right].
Qed.

Lemma hidden_layers_step (a b : Z) (rest : list Z) :
  hidden_layers (a :: b :: rest) =
  try (nn_Linear a b) (fun l =>
  try (hidden_layers (b :: rest)) (fun ls => inr (l :: ReLU :: ls))).
Proof. reflexivity. Qed.

(** The layers between the first and the last size chain up. *)
Lemma hidden_layers_inr (sizes : list Z) :
  forall a ls, hidden_layers (a :: sizes) = inr ls ->
  output_width ls a = Some (List.last sizes a) /\
  length ls = (2 * length sizes)%nat /\
  (sizes <> [] -> List.Forall (fun d => 0 <= d) (a :: sizes)).
Proof.
  induction sizes as [|b rest IH]; intros a ls H.
  - cbn in H. injection H as <-. repeat split. intros []. reflexivity.
  - rewrite hidden_layers_step in H.
    destruct (nn_Linear a b) as [e|l] eqn:Hl; [discriminate H|].
    apply nn_Linear_inr in Hl as (-> & Ha & Hb). cbn [try] in H.
    destruct (hidden_layers (b :: rest)) as [e|ls'] eqn:Hh; [discriminate H|].
    cbn [try] in H. injection H as <-.
    destruct (IH b ls' Hh) as (Hw & Hlen & Hpos).
    split; [|split].
    + cbn [output_width]. rewrite Z.eqb_refl. rewrite Hw. f_equal.
      symmetry. apply last_cons.
    + cbn [length]. rewrite Hlen. lia.
    + intros _. constructor; [exact Ha|].
      destruct rest as [|c rest]; [constructor; [exact Hb | constructor]|].
      apply Hpos. discriminate.
Qed.

Lemma hidden_layers_inl (sizes : list Z) (e : init_error) :
  hidden_layers sizes = inl e ->
  e = RuntimeError /\ List.Exists (fun d => d < 0) sizes.
Proof.
  induction sizes as [|a rest IH]; [discriminate|].
  destruct rest as [|b rest]; [discriminate|].
  rewrite hidden_layers_step.
  destruct (nn_Linear a b) as [e'|l] eqn:Hl; cbn [try].
  - intros [= <-]. apply nn_Linear_inl in Hl as (-> & [Ha | Hb]).
    + split; [reflexivity | now constructor].
    + split; [reflexivity | constructor 2; now constructor].
  - destruct (hidden_layers (b :: rest)) as [e'|ls] eqn:Hh; cbn [try];
      [|discriminate].
    intros [= <-]. destruct (IH eq_refl) as (-> & Hex).
    split; [reflexivity | now constructor 2].
Qed.

Lemma assert_widths_inr (d : Z) (configs : list EmbeddingConfig) :
  assert_widths d configs = inr tt <->
  List.Forall (fun c => embedding_dim c = d) configs.
Proof.
  induction configs as [|c configs IH]; cbn [assert_widths].
  - split; [constructor | reflexivity].
  - destruct (d =? embedding_dim c) eqn:Hd.
    + apply Z.eqb_eq in Hd. rewrite IH. split.
      * intros H. now constructor.
      * intros H. now inversion H.
    + apply Z.eqb_neq in Hd. split; [discriminate|].
      intros H. inversion H. congruence.
Qed.

(** X6.  A model that [MovieLensModel.__init__] builds has tables of one
    width and an over arch whose layers chain: fed with rows of the
    embedding width (plus the last dense size when there are dense
    features), each [Linear] receives its own [in_features] and the
    stack ends in width 1; it has [2 * len(over_arch_layer_sizes) + 1]
    modules. *)
Theorem over_arch_chains (configs : list EmbeddingConfig) (dense_in_features : Z)
    (dense over : list Z) (m : MovieLensModel) :
  MovieLensModel_init configs dense_in_features dense over = inr m ->
  exists c0 rest,
    configs = c0 :: rest /\
    List.Forall (fun c => embedding_dim c = embedding_dim c0) configs /\
    over <> [] /\
    length (over_arch m) = (2 * length over + 1)%nat /\
    output_width (over_arch m)
      (if dense_in_features =? 0 then embedding_dim c0
       else List.last dense 0 + embedding_dim c0) = Some 1.
Proof.
  unfold MovieLensModel_init. intros H.
  destruct (hidden_layers dense) as [e|dl]; [discriminate H|]. cbn [try] in H.
  destruct configs as [|c0 rest]; [discriminate H|]. cbn [try] in H.
  destruct (assert_widths (embedding_dim c0) (c0 :: rest)) as [e|[]] eqn:Ha;
    [discriminate H|]. cbn [try] in H.
  apply assert_widths_inr in Ha.
  set (input := if dense_in_features =? 0 then embedding_dim c0
                else List.last dense 0 + embedding_dim c0).
  assert (Hin : exists r, (if dense_in_features =? 0 then inr (embedding_dim c0)
                           else try (last_item dense)
                                    (fun d => inr (d + embedding_dim c0))) = r /\
                          (forall i, r = inr i -> i = input)).
  { eexists. split; [reflexivity|]. unfold input.
    destruct (dense_in_features =? 0); [now intros i [= <-]|].
    destruct dense as [|a dense]; [discriminate|].
    rewrite last_item_cons. cbn [try]. intros i [= <-]. f_equal.
    symmetry. apply last_cons. }
  destruct Hin as (r & Hr & Hinput). rewrite Hr in H.
  destruct r as [e|i]; [discriminate H|]. cbn [try] in H.
  rewrite (Hinput i eq_refl) in H. clear Hr Hinput i.
  destruct over as [|o0 over]; [discriminate H|]. cbn [first_item try] in H.
  destruct (nn_Linear input o0) as [e|l1] eqn:H1; [discriminate H|].
  apply nn_Linear_inr in H1 as (-> & _ & _). cbn [try] in H.
  destruct (hidden_layers (o0 :: over)) as [e|hid] eqn:Hh; [discriminate H|].
  cbn [try] in H. rewrite last_item_cons in H. cbn [try] in H.
  destruct (nn_Linear (List.last over o0) 1) as [e|l2] eqn:H2; [discriminate H|].
  apply nn_Linear_inr in H2 as (-> & _ & _). cbn [try] in H.
  injection H as <-. cbn [over_arch].
  apply hidden_layers_inr in Hh as (Hw & Hlen & _).
  exists c0, rest. split; [reflexivity|]. split; [exact Ha|].
  split; [discriminate|]. split.
  - cbn [length]. rewrite length_app, Hlen. cbn [length]. lia.
  - cbn [output_width]. rewrite Z.eqb_refl, output_width_app, Hw.
    cbn. now rewrite Z.eqb_refl.
Qed.

Lemma over_arch_chains_witness :
  exists m, MovieLensModel_init (eb_configs DriverFacts.second_node_args) 0 [1; 1]
              [128; 64; 32] = inr m /\
            over_arch m = [ Linear 64 128; ReLU; Linear 128 64; ReLU;
                            Linear 64 32; ReLU; Linear 32 1 ] /\
            output_width (over_arch m) 64 = Some 1.
Proof.
  eexists. split; [reflexivity|]. split; [reflexivity|].
  destruct (over_arch_chains (eb_configs DriverFacts.second_node_args) 0 [1; 1]
              [128; 64; 32] _ eq_refl) as (c0 & rest & [= <- <-] & _ & _ & _ & Hw).
  exact Hw.
Defined.

Lemma split_fields_nonempty_ints (fields : list string) (dims : list Z) :
  ints_of fields = Ok dims -> length dims = length fields.
Proof.
  revert dims. induction fields as [|f fields IH]; intros dims; cbn [ints_of].
  - now intros [= <-].
  - destruct (int_of_string f); [|discriminate]. cbn [mbind result_bind].
    destruct (ints_of fields) as [zs|]; [|discriminate]. cbn.
    intros [= <-]. cbn. now rewrite (IH zs eq_refl).
Qed.

Lemma mlp_dims_of_nonempty (args : Namespace) (dims : list Z) :
  mlp_dims_of args = Ok dims -> dims <> [].
Proof.
  unfold mlp_dims_of, str_split.
  destruct (split_fields "," (mlp_dims args)) as [w ws].
  intros H%split_fields_nonempty_ints. destruct dims; [discriminate H | discriminate].
Qed.

(** X7.  In [create_model] the index accesses and the assertion of
    [MovieLensModel.__init__] cannot fail: whenever [--mlp_dims] parses,
    the widths are a non-empty list, and the constructor either builds
    the model (placeholder dense arch, over arch from [embedding_dim]
    down to 1, all sizes non-negative) or fails in torch with
    RuntimeError on a negative size. *)
Theorem create_model_network_outcome (args : Namespace) (dims : list Z) :
  mlp_dims_of args = Ok dims ->
  match create_model_network args dims with
  | inr m =>
      0 <= Cli.embedding_dim args /\ List.Forall (fun d => 0 <= d) dims /\
      dense_arch m = [Linear 1 1; ReLU] /\
      length (over_arch m) = (2 * length dims + 1)%nat /\
      output_width (over_arch m) (Cli.embedding_dim args) = Some 1
  | inl e =>
      e = RuntimeError /\
      (Cli.embedding_dim args < 0 \/ List.Exists (fun d => d < 0) dims)
  end.
Proof.
  intros Hd%mlp_dims_of_nonempty.
  destruct dims as [|o0 over]; [contradiction|]. clear Hd.
  unfold create_model_network, MovieLensModel_init.
  change (hidden_layers [1; 1]) with (inr (B := list layer) (A := init_error)
                                          [Linear 1 1; ReLU]).
  cbn [try eb_configs embedding_dim assert_widths].
  rewrite Z.eqb_refl. cbn [try Z.eqb first_item].
  destruct (nn_Linear (Cli.embedding_dim args) o0) as [e|l1] eqn:H1; cbn [try].
  { apply nn_Linear_inl in H1 as (-> & [H | H]); split; auto. }
  apply nn_Linear_inr in H1 as (-> & Hd & Ho).
  destruct (hidden_layers (o0 :: over)) as [e|hid] eqn:Hh; cbn [try].
  { apply hidden_layers_inl in Hh as (-> & Hex). split; auto. }
  rewrite last_item_cons. cbn [try].
  apply hidden_layers_inr in Hh as (Hw & Hlen & Hpos).
  assert (Hall : List.Forall (fun d => 0 <= d) (o0 :: over)).
  { destruct over as [|o1 over]; [now repeat constructor|].
    apply Hpos. discriminate. }
  destruct (nn_Linear (List.last over o0) 1) as [e|l2] eqn:H2; cbn [try].
  { apply nn_Linear_inl in H2 as (_ & [H | H]); [|lia]. exfalso.
    pose proof (last_in over o0) as Hlast.
    rewrite List.Forall_forall in Hall. specialize (Hall _ Hlast). lia. }
  apply nn_Linear_inr in H2 as (-> & _ & _). cbn [dense_arch over_arch].
  split; [exact Hd|]. split; [exact Hall|]. split; [reflexivity|]. split.
  - cbn [length]. rewrite length_app, Hlen. cbn [length]. lia.
  - cbn [output_width]. rewrite Z.eqb_refl, output_width_app, Hw.
    cbn. now rewrite Z.eqb_refl.
Qed.

Lemma create_model_network_outcome_witness :
  exists m, create_model_network DriverFacts.second_node_args [128; 64; 32] = inr m /\
            output_width (over_arch m) 64 = Some 1.
Proof.
  pose proof (create_model_network_outcome DriverFacts.second_node_args
                [128; 64; 32] eq_refl) as H.
  destruct (create_model_network DriverFacts.second_node_args [128; 64; 32])
    as [e|m] eqn:Hm; [vm_compute in Hm; discriminate Hm|].
  exists m. split; [reflexivity|]. apply H.
Defined.

(** *** [create_model] as a whole *)

Lemma create_model_network_width (args : Namespace) (dims : list Z)
    (m : MovieLensModel) :
  dims <> [] -> create_model_network args dims = inr m ->
  0 <= Cli.embedding_dim args.
Proof.
  intros Hd. destruct dims as [|o0 over]; [contradiction|]. clear Hd.
  unfold create_model_network, MovieLensModel_init.
  change (hidden_layers [1; 1]) with (inr (B := list layer) (A := init_error)
                                          [Linear 1 1; ReLU]).
  cbn [try eb_configs embedding_dim assert_widths].
  rewrite Z.eqb_refl. cbn [try Z.eqb first_item].
  destruct (nn_Linear (Cli.embedding_dim args) o0) as [e|l1] eqn:H1; cbn [try];
    [discriminate|].
  now apply nn_Linear_inr in H1 as (_ & Hd & _).
Qed.

(** X5.  The planner of a model that [create_model] has built.  Whenever
    [create_model] gets as far as returning, for an embedding width below
    2^48 and at most 2^49 rows, the width is not negative, there is at
    least one row, and the planner that was asked for holds constraints
    for exactly the six tables, with [4 * embedding_dim * rows] bytes
    each, where the rows are [num_embeddings] rounded up to a power of
    two for user_id and movie_id, and 2, 128, 64 and 4096 for gender,
    age, occupation and year. *)
Theorem create_model_tables (embedding_collection : list EmbeddingConfig -> bool)
    (args : Namespace) (dev : string) (ls ws : Z) (model : MovieLensModel)
    (p : DynamicEmbeddingShardingPlanner) :
  create_model embedding_collection args dev ls ws = inr (model, p) ->
  Cli.num_embeddings args <= 2 ^ 49 ->
  Cli.embedding_dim args < 2 ^ 48 ->
  0 <= Cli.embedding_dim args /\
  1 <= Cli.num_embeddings args /\
  planner_batch_size p = Cli.batch_size args /\
  dom (planner_constraints p) =
    list_to_set (C := gset string) (fst <$> table_rows args) /\
  forall nm rows, In (nm, rows) (table_rows args) ->
    exists x, planner_constraints p !! nm = Some (make_constraints x) /\
              int_value x = Some (4 * Cli.embedding_dim args * rows).
Proof.
  unfold create_model. intros H Hn Hd.
  destruct (embedding_collection (eb_configs args)); [|discriminate H].
  destruct (mlp_dims_of args) as [dims|e] eqn:Hdims; [|discriminate H].
  destruct (create_model_network args dims) as [e|m] eqn:Hm; [discriminate H|].
  destruct (get_planner dev ls ws (eb_configs args) (Cli.batch_size args))
    as [p'|e] eqn:Hp; [|discriminate H].
  injection H as <- <-.
  assert (H0 : 0 <= Cli.embedding_dim args).
  { apply (create_model_network_width args dims m); [|exact Hm].
    exact (mlp_dims_of_nonempty args dims Hdims). }
  destruct (planner_of_tables args dev ls ws) as [Hok Hbad].
  assert (H1 : 1 <= Cli.num_embeddings args).
  { destruct (Z.le_gt_cases 1 (Cli.num_embeddings args)) as [Hle | Hlt];
      [exact Hle|].
    rewrite Hbad in Hp by lia. discriminate Hp. }
  split; [exact H0|]. split; [exact H1|].
  destruct Hok as (p0 & Hp0 & Hrest); [lia | lia |].
  rewrite Hp in Hp0. injection Hp0 as <-. exact Hrest.
Qed.

Lemma create_model_tables_witness :
  exists model p x,
    create_model (fun _ => true) DriverFacts.second_node_args "cuda" 1 2
      = inr (model, p) /\
    planner_constraints p !! "age" = Some (make_constraints x) /\
    int_value x = Some (4 * 64 * 128).
Proof.
  destruct (create_model (fun _ => true) DriverFacts.second_node_args "cuda" 1 2)
    as [e|[model p]] eqn:Hc; [vm_compute in Hc; discriminate Hc|].
  destruct (create_model_tables _ _ _ _ _ _ _ Hc) as (_ & _ & _ & _ & Hrows).
  - vm_compute. discriminate.
  - vm_compute. reflexivity.
  - destruct (Hrows "age"%string 128) as (x & Hl & Hv); [cbn; tauto|].
    exists model, p, x. repeat split; assumption.
Defined.

End NetworkFacts.

(** ** Batches *)

Module BatchingFacts.
Import Binary64 Dataset Batching.
Local Open Scope Z_scope.

Lemma feature_keys_NoDup : NoDup feature_keys.
Proof. unfold feature_keys. compute_done. Qed.

(** A batch item that carries every feature. *)
Definition complete {Label : Type} (item : gmap string (list Z) * Label) : Prop :=
  List.Forall (fun key => is_Some (item.1 !! key)) feature_keys.

(** The values of one feature over the batch, item after item. *)
Definition column {Label : Type} (key : string)
    (batch : list (gmap string (list Z) * Label)) : list Z :=
  List.flat_map (fun item => default [] (item.1 !! key)) batch.

Lemma extend_features_ok (f : gmap string (list Z)) (ks : list string) :
  NoDup ks ->
  forall sf sf', extend_features f ks sf = Ok sf' ->
  List.Forall (fun key => is_Some (f !! key)) ks /\
  forall key, default [] (sf' !! key) =
              default [] (sf !! key) ++
              (if bool_decide (key ∈ ks) then default [] (f !! key) else []).
Proof.
  induction ks as [|k ks IH]; intros Hnd sf sf' H.
  - cbn in H. injection H as <-. split; [constructor|].
    intros key. cbn. now rewrite app_nil_r.
  - apply NoDup_cons in Hnd as [Hk Hnd]. cbn [extend_features] in H.
    unfold extend_feature in H. destruct (f !! k) as [t|] eqn:Hf; [|discriminate H].
    cbn [mbind result_bind] in H. destruct (IH Hnd _ _ H) as (Hall & Hsf).
    split; [constructor; [rewrite Hf; eauto | exact Hall]|].
    intros key. rewrite Hsf. destruct (decide (key = k)) as [->|Hne].
    + rewrite lookup_insert_eq. cbn [default].
      rewrite (bool_decide_eq_false_2 _ Hk), app_nil_r.
      rewrite bool_decide_eq_true_2 by (now left). now rewrite Hf.
    + rewrite lookup_insert_ne by congruence.
      destruct (decide (key ∈ ks)) as [Hin|Hnin].
      * rewrite !bool_decide_eq_true_2; [reflexivity | now right | exact Hin].
      * rewrite !bool_decide_eq_false_2; [reflexivity | | exact Hnin].
        intros [?|?]%elem_of_cons; contradiction.
Qed.

Lemma extend_features_raise (f : gmap string (list Z)) (ks : list string) (e : exn) :
  forall sf, extend_features f ks sf = Raise e ->
  e = KeyError /\ List.Exists (fun key => f !! key = None) ks.
Proof.
  induction ks as [|k ks IH]; intros sf H; [discriminate H|].
  cbn [extend_features] in H. unfold extend_feature in H.
  destruct (f !! k) as [t|] eqn:Hf; cbn [mbind result_bind] in H.
  - destruct (IH _ H) as (-> & Hex). split; [reflexivity | now constructor 2].
  - injection H as <-. split; [reflexivity | now constructor].
Qed.

Lemma gather_ok {Label : Type} (batch : list (gmap string (list Z) * Label)) :
  forall sf sf', gather batch sf = Ok sf' ->
  List.Forall complete batch /\
  forall key, key ∈ feature_keys ->
              default [] (sf' !! key) = default [] (sf !! key) ++ column key batch.
Proof.
  induction batch as [|item batch IH]; intros sf sf' H.
  - cbn in H. injection H as <-. split; [constructor|].
    intros key _. cbn. now rewrite app_nil_r.
  - cbn [gather] in H.
    destruct (extend_features item.1 feature_keys sf) as [sf1|] eqn:H1;
      [|discriminate H].
    cbn [mbind result_bind] in H.
    destruct (extend_features_ok _ _ feature_keys_NoDup _ _ H1) as (Hc & Hsf1).
    destruct (IH _ _ H) as (Hall & Hsf).
    split; [now constructor|].
    intros key Hkey. rewrite (Hsf key Hkey), Hsf1.
    rewrite (bool_decide_eq_true_2 _ Hkey). unfold column. cbn [List.flat_map].
    now rewrite <- app_assoc.
Qed.

Lemma gather_raise {Label : Type} (batch : list (gmap string (list Z) * Label))
    (e : exn) :
  forall sf, gather batch sf = Raise e ->
  e = KeyError /\ List.Exists (fun item => ~ complete item) batch.
Proof.
  induction batch as [|item batch IH]; intros sf H; [discriminate H|].
  cbn [gather] in H.
  destruct (extend_features item.1 feature_keys sf) as [sf1|e1] eqn:H1;
    cbn [mbind result_bind] in H.
  - destruct (IH _ H) as (-> & Hex). split; [reflexivity | now constructor 2].
  - injection H as <-. apply extend_features_raise in H1 as (-> & Hex).
    split; [reflexivity|]. constructor. intros Hc.
    apply List.Exists_exists in Hex as (key & Hin & Hnone).
    unfold complete in Hc. rewrite List.Forall_forall in Hc.
    specialize (Hc key Hin). rewrite Hnone in Hc. now destruct Hc.
Qed.

Lemma empty_features_lookup (key : string) :
  key ∈ feature_keys -> empty_features !! key = Some [].
Proof.
  unfold feature_keys. rewrite !elem_of_cons, elem_of_nil.
  intros [-> | [-> | [-> | [-> | [-> | [-> | []]]]]]]; reflexivity.
Qed.

Lemma collate_fn_ok {Label : Type} (batch : list (gmap string (list Z) * Label))
    (kjt : KeyedJaggedTensor) (labels : list Label) :
  collate_fn batch = Ok (kjt, labels) ->
  List.Forall complete batch /\
  kjt = {| keys := feature_keys;
           values := List.flat_map (fun key => column key batch) feature_keys;
           lengths := replicate (6 * length batch) 1 |} /\
  labels = snd <$> batch.
Proof.
  unfold collate_fn.
  destruct (gather batch empty_features) as [sf|] eqn:Hg; [|discriminate].
  cbn [mbind result_bind mret result_ret]. intros [= <- <-].
  apply gather_ok in Hg as (Hall & Hsf).
  split; [exact Hall|]. split; [|reflexivity].
  assert (Hv : List.concat ((fun key => default [] (sf !! key)) <$> feature_keys)
               = List.flat_map (fun key => column key batch) feature_keys).
  { rewrite List.flat_map_concat_map. f_equal.
    apply List.map_ext_in. intros key Hin%list_elem_of_In.
    rewrite (Hsf key Hin), (empty_features_lookup key Hin). reflexivity. }
  assert (Hl : List.concat ((fun _ : string => replicate (length batch) 1)
                              <$> feature_keys)
               = replicate (6 * length batch) 1).
  { cbn. rewrite !app_nil_r, <- !replicate_add. f_equal. lia. }
  rewrite <- Hv, <- Hl. reflexivity.
Qed.

(** X8.  What [collate_fn] returns: the keys are the six features, the
    values are laid out feature after feature and, within a feature,
    item after item, the labels are those of the items in order, and the
    lengths are [6 * len(batch)] ones whatever the items hold, so the
    lengths add up to the number of values exactly when the items
    together hold [6 * len(batch)] values. *)
Theorem collate_fn_layout {Label : Type}
    (batch : list (gmap string (list Z) * Label))
    (kjt : KeyedJaggedTensor) (labels : list Label) :
  collate_fn batch = Ok (kjt, labels) ->
  keys kjt = feature_keys /\
  values kjt = List.flat_map (fun key => column key batch) feature_keys /\
  lengths kjt = replicate (6 * length batch) 1 /\
  labels = snd <$> batch /\
  (List.fold_right Z.add 0 (lengths kjt) = Z.of_nat (length (values kjt)) <->
   length (values kjt) = (6 * length batch)%nat).
Proof.
  intros H. apply collate_fn_ok in H as (_ & -> & ->).
  cbn [keys values lengths]. repeat split; try reflexivity.
  - assert (Hsum : forall n, List.fold_right Z.add 0 (replicate n 1) = Z.of_nat n).
    { induction n as [|n IH]; [reflexivity|]. cbn [replicate List.fold_right].
      rewrite IH. lia. }
    rewrite Hsum. lia.
  - intros ->. clear. generalize (6 * length batch)%nat.
    induction n as [|n IH]; [reflexivity|]. cbn [replicate List.fold_right].
    rewrite IH. lia.
Qed.

Definition sample_batch : list (gmap string (list Z) * bool) :=
  [ ({[ "user_id"%string := [7]; "movie_id"%string := [30];
        "gender"%string := [1]; "age"%string := [25];
        "occupation"%string := [4]; "year"%string := [1995] ]}, true);
    ({[ "user_id"%string := [8]; "movie_id"%string := [31];
        "gender"%string := [0]; "age"%string := [35];
        "occupation"%string := [5]; "year"%string := [1996] ]}, false) ].

Lemma collate_fn_layout_witness :
  exists kjt,
    collate_fn sample_batch = Ok (kjt, [true; false]) /\
    values kjt = [7; 8; 30; 31; 1; 0; 25; 35; 4; 5; 1995; 1996] /\
    lengths kjt = replicate 12 1.
Proof.
  destruct (collate_fn sample_batch) as [[kjt labels]|] eqn:H;
    [|vm_compute in H; discriminate H].
  destruct (collate_fn_layout _ _ _ H) as (_ & Hv & Hl & Hlab & _).
  exists kjt. split; [now rewrite Hlab|].
  split; [rewrite Hv | rewrite Hl]; vm_compute; reflexivity.
Defined.

Lemma collate_fn_raise {Label : Type}
    (batch : list (gmap string (list Z) * Label)) (e : exn) :
  collate_fn batch = Raise e ->
  e = KeyError /\ List.Exists (fun item => ~ complete item) batch.
Proof.
  unfold collate_fn. intros H.
  destruct (gather batch empty_features) as [sf|e'] eqn:Hg; [discriminate H|].
  cbn [mbind result_bind] in H. injection H as <-.
  now apply gather_raise in Hg.
Qed.

(** X9.  [collate_fn] fails only with KeyError, and exactly when some
    item of the batch lacks one of the six features; otherwise it
    returns. *)
Theorem collate_fn_outcome {Label : Type}
    (batch : list (gmap string (list Z) * Label)) :
  match collate_fn batch with
  | Ok _ => List.Forall complete batch
  | Raise e => e = KeyError /\ List.Exists (fun item => ~ complete item) batch
  end.
Proof.
  destruct (collate_fn batch) as [[kjt labels]|e] eqn:H.
  - now apply collate_fn_ok in H.
  - now apply collate_fn_raise in H.
Qed.

(** *** Items of the dataset *)

(** The cell of a frame row that goes into a feature. *)
Definition cell (key : string) (row : Row) : option Z :=
  if String.eqb key "user_id" then Some (user_id row)
  else if String.eqb key "movie_id" then Some (movie_id row)
  else if String.eqb key "gender" then gender row
  else if String.eqb key "age" then age row
  else if String.eqb key "occupation" then occupation row
  else year row.

Section Items.
Variable to_long : option Z -> Z.

Lemma sparse_features_of_lookup (row : Row) (key : string) :
  key ∈ feature_keys ->
  sparse_features_of to_long row !! key = Some [to_long (cell key row)].
Proof.
  unfold feature_keys. rewrite !elem_of_cons, elem_of_nil.
  intros [-> | [-> | [-> | [-> | [-> | [-> | []]]]]]]; reflexivity.
Qed.

Lemma getitem_rows (ds : MovieLensDataset) (idxs : list Z) (rows : list Row) :
  mapM (iloc (data ds)) idxs = Some rows ->
  mapM (getitem to_long ds) idxs
  = Some ((fun row => (sparse_features_of to_long row, rating row)) <$> rows).
Proof.
  intros H%mapM_Some. apply mapM_Some.
  induction H as [|i row idxs rows Hi _ IH]; [constructor|].
  cbn [fmap list_fmap]. constructor; [|exact IH].
  unfold getitem. rewrite Hi. reflexivity.
Qed.

(** X10.  A batch made of dataset items, for any list of valid indices
    (negative ones counting from the end), collates without error into
    one value per feature and item: feature after feature, the cells of
    the indexed rows in index order, with the ratings as labels; the
    lengths then add up to the number of values. *)
Theorem collate_of_items (ds : MovieLensDataset) (idxs : list Z) (rows : list Row) :
  mapM (iloc (data ds)) idxs = Some rows ->
  exists items kjt,
    mapM (getitem to_long ds) idxs = Some items /\
    collate_fn items = Ok (kjt, rating <$> rows) /\
    keys kjt = feature_keys /\
    values kjt =
      List.flat_map (fun key => (fun row => to_long (cell key row)) <$> rows)
                    feature_keys /\
    lengths kjt = replicate (6 * length idxs) 1 /\
    length (values kjt) = length (lengths kjt).
Proof.
  intros Hrows.
  assert (Hlen : length rows = length idxs).
  { apply length_mapM in Hrows. congruence. }
  set (items := (fun row => (sparse_features_of to_long row, rating row)) <$> rows).
  assert (Hcol : forall key, key ∈ feature_keys ->
            column key items = (fun row => to_long (cell key row)) <$> rows).
  { intros key Hkey. unfold column, items. clear Hrows Hlen.
    induction rows as [|row rows IH]; [reflexivity|].
    cbn [fmap list_fmap List.flat_map]. cbn [fst].
    rewrite (sparse_features_of_lookup row key Hkey). cbn [default app].
    f_equal. exact IH. }
  assert (Hvals : List.flat_map (fun key => column key items) feature_keys =
                  List.flat_map
                    (fun key => (fun row => to_long (cell key row)) <$> rows)
                    feature_keys).
  { rewrite !List.flat_map_concat_map. f_equal.
    apply List.map_ext_in. intros key Hin%list_elem_of_In. now apply Hcol. }
  destruct (collate_fn items) as [[kjt labels]|e] eqn:Hc.
  - destruct (collate_fn_ok _ _ _ Hc) as (_ & -> & ->).
    exists items, {| keys := feature_keys;
                     values := List.flat_map (fun key => column key items) feature_keys;
                     lengths := replicate (6 * length items) 1 |}.
    split; [now apply getitem_rows|]. split.
    { rewrite Hc. f_equal. f_equal. unfold items. rewrite <- list_fmap_compose.
      reflexivity. }
    cbn [keys values lengths]. split; [reflexivity|]. split; [exact Hvals|].
    assert (Hitems : length items = length idxs)
      by (unfold items; now rewrite length_fmap).
    split; [now rewrite Hitems|].
    rewrite Hvals, length_replicate, Hitems. cbn [feature_keys List.flat_map].
    rewrite !length_app, !length_fmap. cbn [length]. lia.
  - exfalso. destruct (collate_fn_raise _ _ Hc) as (_ & Hex). apply List.Exists_exists in Hex as (item & Hin & Hnc).
    apply Hnc. unfold items in Hin. apply list_elem_of_In, list_elem_of_fmap in Hin
      as (row & -> & _).
    unfold complete. apply List.Forall_forall. intros key Hkey%list_elem_of_In.
    cbn [fst]. rewrite (sparse_features_of_lookup row key Hkey). eauto.
Qed.

End Items.

(** Two rows of a split; the second rating is by a user that [users.dat]
    does not list. *)
Definition sample_dataset : MovieLensDataset :=
  {| data := [ {| user_id := 7; movie_id := 30; rating := Fin 5 0;
                  timestamp := 978300760; gender := Some 1; age := Some 25;
                  occupation := Some 4; year := Some 1995 |};
               {| user_id := 8; movie_id := 31; rating := Fin 3 0;
                  timestamp := 978302109; gender := None; age := None;
                  occupation := None; year := Some 1996 |} ];
     max_user_id := Some 8; max_movie_id := Some 31;
     max_age := Some 25; max_occupation := Some 4 |}.

Lemma collate_of_items_witness :
  exists items kjt,
    mapM (getitem (default (-1)) sample_dataset) [-1; 0] = Some items /\
    collate_fn items = Ok (kjt, [Fin 3 0; Fin 5 0]) /\
    values kjt = [8; 7; 31; 30; -1; 1; -1; 25; -1; 4; 1996; 1995] /\
    lengths kjt = replicate 12 1.
Proof.
  destruct (collate_of_items (default (-1)) sample_dataset [-1; 0]
              (List.rev (data sample_dataset)) eq_refl)
    as (items & kjt & Hitems & Hc & _ & Hv & Hl & _).
  exists items, kjt. split; [exact Hitems|]. split; [exact Hc|].
  split; [rewrite Hv | rewrite Hl]; reflexivity.
Defined.

End BatchingFacts.

(** ** More on the joins, the split and the maxima *)

Module FrameFacts.
Import Binary64 Dataset DatasetFacts.
Local Open Scope Z_scope.

(** *** The left joins *)

(** The rows a left row turns into. *)
Definition block {L R O : Type} (key_l : L -> Z) (key_r : R -> Z)
    (combine : L -> option R -> O) (right : list R) (l : L) : list O :=
  match List.filter (fun r => key_r r =? key_l l) right with
  | [] => [combine l None]
  | ms => List.map (fun r => combine l (Some r)) ms
  end.

Lemma merge_left_ok {L R O : Type} (key_l : L -> Z) (key_r : R -> Z)
    (combine : L -> option R -> O) (left : list L) (right : list R) (d : list O) :
  merge_left key_l key_r combine left right = Ok d ->
  left <> [] /\ right <> [] /\
  d = List.flat_map (block key_l key_r combine right) left.
Proof.
  unfold merge_left. destruct left as [|l left]; [discriminate|].
  destruct right as [|r right]; [discriminate|].
  intros [= <-]. repeat split; discriminate.
Qed.

Lemma merge_left_empty {L R O : Type} (key_l : L -> Z) (key_r : R -> Z)
    (combine : L -> option R -> O) (left : list L) (right : list R) :
  left = [] \/ right = [] ->
  merge_left key_l key_r combine left right = Raise KeyError.
Proof.
  intros [-> | ->]; [reflexivity|]. now destruct left.
Qed.

Lemma block_spec {L R O : Type} (key_l : L -> Z) (key_r : R -> Z)
    (combine : L -> option R -> O) (right : list R) (l : L) :
  block key_l key_r combine right l <> [] /\
  List.Forall (fun o => exists r, o = combine l r)
              (block key_l key_r combine right l).
Proof.
  unfold block. destruct (List.filter _ right) as [|m ms].
  - split; [discriminate|]. constructor; [now exists None | constructor].
  - split; [discriminate|]. apply List.Forall_forall.
    intros o Hin. apply List.in_map_iff in Hin as (r & <- & _). now exists (Some r).
Qed.

Lemma merge_left_total {L R O : Type} (key_l : L -> Z) (key_r : R -> Z)
    (combine : L -> option R -> O) (left : list L) (right : list R) :
  left <> [] -> right <> [] ->
  merge_left key_l key_r combine left right
  = Ok (List.flat_map (block key_l key_r combine right) left) /\
  List.flat_map (block key_l key_r combine right) left <> [].
Proof.
  intros Hl Hr. destruct left as [|l left]; [contradiction|].
  destruct right as [|r right]; [contradiction|].
  split; [reflexivity|]. cbn [List.flat_map].
  destruct (block_spec key_l key_r combine (r :: right) l) as (Hne & _).
  destruct (block key_l key_r combine (r :: right) l); [contradiction | discriminate].
Qed.

(** The columns a rating brings along. *)
Definition rating_core (r : Rating) : Z * Z * double * Z :=
  (rating_user_id r, rating_movie_id r, rating_value r, rating_timestamp r).

Definition core (row : Row) : Z * Z * double * Z :=
  (user_id row, movie_id row, rating row, timestamp row).

Lemma constant_block {A B : Type} (f : A -> B) (c : B) (l : list A) :
  List.Forall (fun a => f a = c) l -> List.map f l = replicate (length l) c.
Proof.
  induction 1 as [|a l Ha _ IH]; [reflexivity|]. cbn. now rewrite Ha, IH.
Qed.

(** The rows of the joined frame that stem from one rating. *)
Definition rows_of (users_df : list User) (movies_df : list Movie) (r : Rating)
  : list Row :=
  List.flat_map (block movie_id movie_movie_id with_movie movies_df)
                (block rating_user_id user_user_id with_user users_df r).

Lemma joined_frame_ok ratings users movies (d : list Row) :
  joined_frame ratings users movies = Ok d ->
  ratings <> [] /\ users <> [] /\ movies <> [] /\
  d = List.flat_map (rows_of users movies) ratings.
Proof.
  unfold joined_frame.
  destruct (merge_left rating_user_id user_user_id with_user ratings users)
    as [d1|] eqn:H1; [|discriminate].
  cbn [mbind result_bind]. intros H2.
  apply merge_left_ok in H1 as (Hr & Hu & ->).
  apply merge_left_ok in H2 as (_ & Hm & ->).
  repeat split; try assumption.
  clear. induction ratings as [|r ratings IH]; [reflexivity|].
  cbn [List.flat_map]. rewrite List.flat_map_app. unfold rows_of at 1.
  now rewrite IH.
Qed.

Lemma joined_frame_total ratings users movies :
  ratings <> [] -> users <> [] -> movies <> [] ->
  exists d, joined_frame ratings users movies = Ok d.
Proof.
  intros Hr Hu Hm. unfold joined_frame.
  destruct (merge_left_total rating_user_id user_user_id with_user ratings users
              Hr Hu) as (-> & Hne).
  cbn [mbind result_bind].
  destruct (merge_left_total movie_id movie_movie_id with_movie _ movies Hne Hm)
    as (-> & _).
  eauto.
Qed.

Lemma rows_of_spec users movies (r : Rating) :
  rows_of users movies r <> [] /\
  List.Forall (fun row => core row = rating_core r) (rows_of users movies r).
Proof.
  unfold rows_of.
  destruct (block_spec rating_user_id user_user_id with_user users r) as (Hne & Hall).
  split.
  - destruct (block rating_user_id user_user_id with_user users r) as [|row b];
      [contradiction|].
    cbn [List.flat_map].
    destruct (block_spec movie_id movie_movie_id with_movie movies row) as (Hne' & _).
    destruct (block movie_id movie_movie_id with_movie movies row); [contradiction|].
    discriminate.
  - apply List.Forall_forall. intros row Hin.
    apply List.in_flat_map in Hin as (row1 & Hin1 & Hin).
    rewrite List.Forall_forall in Hall. destruct (Hall row1 Hin1) as (u & ->).
    destruct (block_spec movie_id movie_movie_id with_movie movies (with_user r u))
      as (_ & Hall').
    rewrite List.Forall_forall in Hall'. destruct (Hall' row Hin) as (m & ->).
    reflexivity.
Qed.

(** X11.  The two left joins neither drop nor invent a rating and keep
    the ratings in file order: the rating columns of the joined frame are
    those of the ratings, each repeated at least once (more than once
    only when the user or the film is listed several times). *)
Theorem joins_keep_ratings ratings users movies (d : list Row) :
  joined_frame ratings users movies = Ok d ->
  exists count : Rating -> nat,
    (forall r, (1 <= count r)%nat) /\
    List.map core d =
      List.flat_map (fun r => replicate (count r) (rating_core r)) ratings.
Proof.
  intros H. apply joined_frame_ok in H as (_ & _ & _ & ->).
  exists (fun r => length (rows_of users movies r)). split.
  - intros r. destruct (rows_of_spec users movies r) as (Hne & _).
    destruct (rows_of users movies r); [contradiction | cbn; lia].
  - induction ratings as [|r ratings IH]; [reflexivity|].
    cbn [List.flat_map]. rewrite List.map_app, IH. f_equal.
    apply constant_block. apply rows_of_spec.
Qed.

Lemma joins_keep_ratings_witness :
  exists (d : list Row) (count : Rating -> nat),
    joined_frame sample_ratings sample_users sample_movies = Ok d /\
    (forall r, (1 <= count r)%nat) /\
    List.map core d =
      List.flat_map (fun r => replicate (count r) (rating_core r)) sample_ratings.
Proof.
  eexists.
  destruct (joins_keep_ratings sample_ratings sample_users sample_movies _ eq_refl)
    as (count & Hc & Hd).
  exists count. split; [reflexivity|]. split; [exact Hc | exact Hd].
Defined.

(** *** Unique keys *)

Definition find_user (users_df : list User) (r : Rating) : option User :=
  List.find (fun u => user_user_id u =? rating_user_id r) users_df.

Definition find_movie (movies_df : list Movie) (r : Rating) : option Movie :=
  List.find (fun m => movie_movie_id m =? rating_movie_id r) movies_df.

Lemma filter_unique {A : Type} (key : A -> Z) (k : Z) (l : list A) :
  List.NoDup (List.map key l) ->
  List.filter (fun a => key a =? k) l =
  match List.find (fun a => key a =? k) l with
  | Some a => [a]
  | None => []
  end.
Proof.
  induction l as [|a l IH]; intros Hnd; [reflexivity|].
  cbn [List.map] in Hnd. apply List.NoDup_cons_iff in Hnd as (Ha & Hnd).
  cbn [List.filter List.find]. destruct (key a =? k) eqn:Hk.
  - f_equal. apply Z.eqb_eq in Hk.
    assert (Hnone : List.filter (fun a0 => key a0 =? k) l = []).
    { clear IH Hnd. induction l as [|b l IH]; [reflexivity|].
      cbn [List.filter]. destruct (key b =? k) eqn:Hb.
      - exfalso. apply Ha. left. apply Z.eqb_eq in Hb. congruence.
      - apply IH. intros Hin. apply Ha. now right. }
    exact Hnone.
  - now apply IH.
Qed.

(** X12.  When no user id and no film id is listed twice, the joined
    frame has exactly one row per rating, in file order: the rating with
    the attributes of its user and the year of its film, or with the
    missing value where [users.dat] or [movies.dat] has no such id. *)
Theorem joined_frame_unique_keys ratings users movies :
  ratings <> [] -> users <> [] -> movies <> [] ->
  List.NoDup (List.map user_user_id users) ->
  List.NoDup (List.map movie_movie_id movies) ->
  joined_frame ratings users movies =
  Ok (List.map (fun r => with_movie (with_user r (find_user users r))
                                    (find_movie movies r)) ratings).
Proof.
  intros Hr Hu Hm Hnu Hnm.
  destruct (joined_frame ratings users movies) as [d|e] eqn:H.
  - apply joined_frame_ok in H as (_ & _ & _ & ->). f_equal.
    clear Hr. induction ratings as [|r ratings IH]; [reflexivity|].
    cbn [List.flat_map List.map]. rewrite IH. clear IH.
    assert (Hrow : rows_of users movies r =
                   [with_movie (with_user r (find_user users r))
                               (find_movie movies r)]);
      [|now rewrite Hrow].
    unfold rows_of, block. rewrite (filter_unique user_user_id _ users Hnu).
    unfold find_user.
    destruct (List.find (fun u => user_user_id u =? rating_user_id r) users) as [u|];
      cbn [List.map List.flat_map]; rewrite app_nil_r;
      rewrite (filter_unique movie_movie_id _ movies Hnm); unfold find_movie;
      cbn [movie_id with_user];
      now destruct (List.find (fun m => movie_movie_id m =? rating_movie_id r) movies).
  - exfalso. destruct (joined_frame_total ratings users movies Hr Hu Hm) as (d & Hd).
    rewrite Hd in H. discriminate H.
Qed.

Lemma joined_frame_unique_keys_witness :
  exists d,
    joined_frame sample_ratings sample_users sample_movies = Ok d /\
    List.map user_id d = [1; 2; 1; 2; 3] /\
    List.map gender d = [Some 0; Some 1; Some 0; Some 1; None] /\
    List.map year d = [Some 1995; Some 1995; Some 1996; Some 1996; Some 1995].
Proof.
  eexists. split.
  - apply (joined_frame_unique_keys sample_ratings sample_users sample_movies);
      try discriminate; cbn; repeat constructor; cbn; intuition discriminate.
  - repeat split; reflexivity.
Defined.

(** X13.  An empty file makes the constructor fail: with no ratings, no
    users or no films the joins raise KeyError (a frame built from no
    records has no column to join on); no dataset with missing attributes
    throughout is produced. *)
Theorem empty_file_raises `{SortKernel} ratings users movies (split : string) :
  ratings = [] \/ users = [] \/ movies = [] ->
  MovieLensDataset_init ratings users movies split = Raise KeyError.
Proof.
  intros Hempty. unfold MovieLensDataset_init, ordered_frame, joined_frame.
  destruct (merge_left rating_user_id user_user_id with_user ratings users)
    as [d1|e] eqn:H1; cbn [mbind result_bind].
  - apply merge_left_ok in H1 as (Hr & Hu & _).
    destruct Hempty as [-> | [-> | ->]]; try contradiction.
    now rewrite merge_left_empty by (now right).
  - destruct ratings as [|r ratings]; [now injection H1 as <-|].
    destruct users as [|u users]; [now injection H1 as <-|].
    discriminate H1.
Qed.

Lemma empty_file_raises_witness :
  MovieLensDataset_init (H := merge_kernel) sample_ratings [] sample_movies "train"
  = Raise KeyError.
Proof.
  apply (empty_file_raises (H := merge_kernel)). right. left. reflexivity.
Defined.

(** *** The split *)

Lemma ordered_frame_nonempty `{SortKernel} ratings users movies (d : list Row) :
  ordered_frame ratings users movies = Ok d -> d <> [].
Proof.
  unfold ordered_frame.
  destruct (joined_frame ratings users movies) as [j|] eqn:Hj; [|discriminate].
  cbn. intros [= <-] Hnil.
  pose proof (sort_values_perm j) as Hp. rewrite Hnil in Hp.
  apply Permutation_sym, Permutation_nil in Hp. subst j.
  apply joined_frame_ok in Hj as (Hr & _ & _ & Hd).
  destruct ratings as [|r ratings]; [contradiction|].
  cbn [List.flat_map] in Hd. destruct (rows_of_spec users movies r) as (Hne & _).
  destruct (rows_of users movies r); [contradiction | discriminate Hd].
Qed.

(** X14.  Of a frame of [N] rows ([N < 2^50]) the train split has
    [floor(4N/5)] rows and the test split the other [N - floor(4N/5)],
    which is at least one: the test split is never empty, and the train
    split is empty exactly when the frame has a single row. *)
Theorem split_sizes `{SortKernel} ratings users movies (other : string)
    (train test : MovieLensDataset) :
  String.eqb other "train" = false ->
  MovieLensDataset_init ratings users movies "train" = Ok train ->
  MovieLensDataset_init ratings users movies other = Ok test ->
  let N := Z.of_nat (length (data train) + length (data test)) in
  N < 2 ^ 50 ->
  1 <= N /\
  Z.of_nat (length (data train)) = 4 * N / 5 /\
  1 <= Z.of_nat (length (data test)) /\
  (data train = [] <-> N = 1).
Proof.
  intros Hother Htrain Htest N HN.
  destruct (init_splits _ _ _ _ _ _ Hother Htrain Htest)
    as (d & idx & Hd & Hidx & Ht & Hs).
  apply ordered_frame_nonempty in Hd.
  assert (Hlen : N = Z.of_nat (length d)).
  { unfold N. rewrite <- length_app, Ht, Hs, take_drop. reflexivity. }
  rewrite split_idx_floor in Hidx by lia. injection Hidx as <-.
  assert (Hsum : N = Z.of_nat (length (data train)) + Z.of_nat (length (data test)))
    by (unfold N; lia).
  clearbody N.
  assert (H1 : 1 <= N) by (destruct d; [contradiction | cbn in Hlen; lia]).
  assert (Hq : 0 <= 4 * N / 5 < N).
  { split; [apply Z.div_pos; lia|]. apply Z.div_lt_upper_bound; lia. }
  assert (Htl : Z.of_nat (length (data train)) = 4 * N / 5).
  { rewrite Ht, length_take, <- Hlen. lia. }
  split; [exact H1|]. split; [exact Htl|]. split.
  - lia.
  - split.
    + intros Hnil. rewrite Hnil in Htl. cbn in Htl.
      destruct (Z.eq_dec N 1) as [|Hne]; [assumption|].
      assert (1 <= 4 * N / 5) by (apply Z.div_le_lower_bound; lia). lia.
    + intros HN1. rewrite HN1 in Htl. change (4 * 1 / 5) with 0 in Htl.
      destruct (data train); [reflexivity | cbn in Htl; lia].
Qed.

Lemma split_sizes_witness :
  exists train test : MovieLensDataset,
    MovieLensDataset_init (H := merge_kernel)
      sample_ratings sample_users sample_movies "train" = Ok train /\
    MovieLensDataset_init (H := merge_kernel)
      sample_ratings sample_users sample_movies "test" = Ok test /\
    Z.of_nat (length (data train)) = 4 * 5 / 5 /\
    1 <= Z.of_nat (length (data test)).
Proof.
  do 2 eexists. do 2 (split; [vm_compute; reflexivity|]).
  destruct (split_sizes (H := merge_kernel) sample_ratings sample_users
              sample_movies "test" _ _ eq_refl eq_refl eq_refl)
    as (_ & Ht & Hs & _).
  - vm_compute. reflexivity.
  - split; [exact Ht | exact Hs].
Defined.

(** *** The maxima *)

Lemma column_max_bound (col : Row -> option Z) (d : list Row) :
  forall acc,
    (forall a, acc = Some a ->
       exists m, List.fold_left
                   (fun acc r =>
                      match acc, col r with
                      | Some a, Some v => Some (Z.max a v)
                      | None, v => v
                      | a, None => a
                      end) d acc = Some m /\ a <= m) /\
    (forall r v, In r d -> col r = Some v ->
       exists m, List.fold_left
                   (fun acc r =>
                      match acc, col r with
                      | Some a, Some v => Some (Z.max a v)
                      | None, v => v
                      | a, None => a
                      end) d acc = Some m /\ v <= m).
Proof.
  induction d as [|x d IH]; intros acc; cbn [List.fold_left].
  - split; [|intros r v []]. intros a ->. exists a. split; [reflexivity | lia].
  - split.
    + intros a ->. destruct (col x) as [v|].
      * destruct (proj1 (IH (Some (Z.max a v))) _ eq_refl) as (m & Hm & Hle).
        exists m. split; [exact Hm | lia].
      * exact (proj1 (IH (Some a)) _ eq_refl).
    + intros r v [-> | Hin] Hv.
      * rewrite Hv. destruct acc as [a|].
        -- destruct (proj1 (IH (Some (Z.max a v))) _ eq_refl) as (m & Hm & Hle).
           exists m. split; [exact Hm | lia].
        -- exact (proj1 (IH (Some v)) _ eq_refl).
      * exact (proj2 (IH _) r v Hin Hv).
Qed.

(** X15.  The maxima are taken over the whole frame, before the split:
    the train and the test dataset report the same four maxima, and the
    user id and the film id of every row of either split are within
    them. *)
Theorem maxima_cover_both_splits `{SortKernel} ratings users movies (other : string)
    (train test : MovieLensDataset) :
  String.eqb other "train" = false ->
  MovieLensDataset_init ratings users movies "train" = Ok train ->
  MovieLensDataset_init ratings users movies other = Ok test ->
  max_user_id train = max_user_id test /\
  max_movie_id train = max_movie_id test /\
  max_age train = max_age test /\
  max_occupation train = max_occupation test /\
  forall row, In row (data train ++ data test) ->
    exists mu mm,
      max_user_id train = Some mu /\ user_id row <= mu /\
      max_movie_id train = Some mm /\ movie_id row <= mm.
Proof.
  intros Hother. unfold MovieLensDataset_init.
  destruct (ordered_frame ratings users movies) as [d|]; [|discriminate].
  cbn [mbind result_bind].
  destruct (split_idx (Z.of_nat (length d))) as [idx|]; [|discriminate].
  cbn [mbind result_bind mret result_ret]. rewrite Hother.
  change (String.eqb "train" "train") with true. cbn iota.
  intros [= <-] [= <-]. cbn [max_user_id max_movie_id max_age max_occupation data].
  repeat (split; [reflexivity|]).
  rewrite take_drop. intros row Hin.
  destruct (proj2 (column_max_bound (fun r => Some (user_id r)) d None)
              row _ Hin eq_refl) as (mu & Hmu & Hle).
  destruct (proj2 (column_max_bound (fun r => Some (movie_id r)) d None)
              row _ Hin eq_refl) as (mm & Hmm & Hle').
  exists mu, mm. repeat split; assumption.
Qed.

Lemma maxima_cover_both_splits_witness :
  exists train test : MovieLensDataset,
    MovieLensDataset_init (H := merge_kernel)
      sample_ratings sample_users sample_movies "train" = Ok train /\
    MovieLensDataset_init (H := merge_kernel)
      sample_ratings sample_users sample_movies "test" = Ok test /\
    max_user_id train = max_user_id test /\
    max_user_id test = Some 3 /\ List.map user_id (data test) = [1].
Proof.
  do 2 eexists. do 2 (split; [vm_compute; reflexivity|]).
  destruct (maxima_cover_both_splits (H := merge_kernel) sample_ratings
              sample_users sample_movies "test" _ _ eq_refl eq_refl eq_refl)
    as (Hu & _).
  split; [exact Hu|]. split; reflexivity.
Defined.

End FrameFacts.

(** ** More on [parse_args] *)

Module ArgsFacts.
Import Cli.
Local Open Scope Z_scope.

Lemma int_of_string_raise (s : string) (e : exn) :
  int_of_string s = Raise e -> e = ValueError.
Proof.
  unfold int_of_string.
  destruct (strip s) as [|c t]; cbn.
  - now intros [= <-].
  - destruct (Ascii.eqb c "+") eqn:Hp.
    + apply Ascii.eqb_eq in Hp. subst c.
      destruct (parse_digits t 0 false); [discriminate | now intros [= <-]].
    + destruct (Ascii.eqb c "-") eqn:Hm.
      * apply Ascii.eqb_eq in Hm. subst c.
        destruct (parse_digits t 0 false); [discriminate | now intros [= <-]].
      * assert (Hbody : forall (r : result Z),
                  r = match parse_digits (String c t) 0 false with
                      | Some z => Ok (1 * z)
                      | None => Raise ValueError
                      end -> r = Raise e -> e = ValueError).
        { intros r ->. destruct (parse_digits (String c t) 0 false);
            [discriminate | now intros [= <-]]. }
        apply Hbody.
        destruct c as [[] [] [] [] [] [] [] []]; try reflexivity;
          discriminate Hp || discriminate Hm.
Qed.

(** *** Environment variables that [int] rejects *)

Lemma py_int_env (environ : gmap string string) (var : string) (k : Z) :
  (exists z, py_int (environ_get environ var (VInt k)) = Ok z) \/
  py_int (environ_get environ var (VInt k)) = Raise ValueError.
Proof.
  unfold environ_get. destruct (environ !! var) as [s|]; cbn [py_int].
  - destruct (int_of_string s) as [z|e] eqn:Hs; [left; now exists z|].
    right. now rewrite (int_of_string_raise s e Hs).
  - left. now exists k.
Qed.

Lemma py_int_env_bad (environ : gmap string string) (var s : string) (k : Z) :
  environ !! var = Some s -> raises (int_of_string s) ->
  py_int (environ_get environ var (VInt k)) = Raise ValueError.
Proof.
  intros Hs Hr. unfold environ_get. rewrite Hs. cbn [py_int].
  destruct (int_of_string s) as [z|e] eqn:Hi; [destruct Hr|].
  now rewrite (int_of_string_raise s e Hi).
Qed.

(** X16.  An environment variable that [int] cannot read breaks
    [parse_args] whatever the command line holds: if LOCAL_RANK,
    LOCAL_WORLD_SIZE, RANK or PET_NNODES is set to such a text, building
    the parser raises ValueError, also when the flag of that variable is
    given on the command line. *)
Theorem malformed_environment (environ cli : gmap string string) (var s : string) :
  In var ["LOCAL_RANK"; "LOCAL_WORLD_SIZE"; "RANK"; "PET_NNODES"]%string ->
  environ !! var = Some s -> raises (int_of_string s) ->
  parse_args environ cli = Raise ValueError.
Proof.
  intros Hvar Hs Hr.
  assert (Hb : build_parser environ all_flags = Raise ValueError).
  { unfold all_flags.
    cbn [build_parser default_value String.eqb Ascii.eqb Bool.eqb mbind result_bind].
    destruct Hvar as [<- | [<- | [<- | [<- | []]]]].
    - now rewrite (py_int_env_bad environ _ s 0 Hs Hr).
    - destruct (py_int_env environ "LOCAL_RANK" 0) as [[z ->] | ->]; [|reflexivity].
      cbn [fmap result_fmap mbind result_bind].
      now rewrite (py_int_env_bad environ _ s 1 Hs Hr).
    - destruct (py_int_env environ "LOCAL_RANK" 0) as [[z ->] | ->]; [|reflexivity].
      cbn [fmap result_fmap mbind result_bind].
      destruct (py_int_env environ "LOCAL_WORLD_SIZE" 1) as [[z' ->] | ->];
        [|reflexivity].
      cbn [fmap result_fmap mbind result_bind].
      now rewrite (py_int_env_bad environ _ s 0 Hs Hr).
    - destruct (py_int_env environ "LOCAL_RANK" 0) as [[z ->] | ->]; [|reflexivity].
      cbn [fmap result_fmap mbind result_bind].
      destruct (py_int_env environ "LOCAL_WORLD_SIZE" 1) as [[z' ->] | ->];
        [|reflexivity].
      cbn [fmap result_fmap mbind result_bind].
      destruct (py_int_env environ "RANK" 0) as [[z'' ->] | ->]; [|reflexivity].
      cbn [fmap result_fmap mbind result_bind].
      now rewrite (py_int_env_bad environ _ s 1 Hs Hr). }
  unfold parse_args. now rewrite Hb.
Qed.

Lemma malformed_environment_witness :
  parse_args {[ "RANK"%string := "node-1"%string ]}
             {[ "--node_rank"%string := "1"%string ]} = Raise ValueError.
Proof.
  apply (malformed_environment _ _ "RANK"%string "node-1"%string).
  - cbn. tauto.
  - apply lookup_singleton_eq.
  - exact I.
Defined.

End ArgsFacts.

(** ** More on the driver: the protocol of [main], the files of [dump],
    the download *)

Module RunFacts.
Import Cli Driver DriverFacts.
Local Open Scope Z_scope.

Section Program.
Context {Model Batch Score Tensor : Type}.

Abbreviation World := (@World Model Score).
Abbreviation M := (@M Model Score).
Abbreviation event := (@event Score).

Variable size0 : Tensor -> Z.
Variable create_model : Namespace -> Model.
Variable train_loader : Namespace -> Z -> list Batch.
Variable train_step : Model -> Batch -> Model.
Variable get_score : Model -> Score.
Variable incremental_dump :
  Model -> Score -> @ret_tensors_t Tensor * Score.
Variable train load :
  Namespace -> Z -> Z -> World ->
  result unit * gmap string (@blob Model) * list event.

Abbreviation inc_dump' :=
  (inc_dump size0 create_model train_loader train_step get_score
            incremental_dump).
Abbreviation dump' := (dump create_model train_loader train_step).
Abbreviation main' :=
  (main size0 create_model train_loader train_step get_score incremental_dump
        train load).

(** *** Set-up first, teardown last *)

(** The calls between the set-up and the teardown of the process group. *)
Definition inner_event (e : event) : Prop :=
  match e with
  | EvInitProcessGroup | EvDestroyProcessGroup => False
  | _ => True
  end.

Definition succeeded {A} (r : result A) : bool :=
  match r with Ok _ => true | Raise _ => false end.

(** [m] makes calls that satisfy [Q] and then, if and only if it returns,
    the call [e] as its last. *)
Definition closes {A} (Q : event -> Prop) (e : event) (m : M A) : Prop :=
  forall w : World, exists new,
    trace (m w).2 = trace w ++ new ++ (if succeeded (m w).1 then [e] else []) /\
    Forall Q new.

Lemma closes_emit Q (e : event) : closes Q e (emit e).
Proof. intros w. exists []. cbn. split; [reflexivity | constructor]. Qed.

Lemma closes_bind {A B} Q (e : event) (m : M A) (f : A -> M B) :
  emits_only Q m -> (forall a, closes Q e (f a)) -> closes Q e (m ≫= f).
Proof.
  intros Hm Hf w. unfold mbind, M_bind.
  destruct (Hm w) as (n1 & H1 & Q1).
  destruct (m w) as [[a|x] w1]; cbn in *.
  - destruct (Hf a w1) as (n2 & H2 & Q2).
    exists (n1 ++ n2). rewrite H2, H1, <- !app_assoc. split; [reflexivity|].
    apply Forall_app. now split.
  - exists n1. rewrite app_nil_r. now split.
Qed.

Lemma dump_inner args global_rank world_size :
  emits_only inner_event (dump' args global_rank world_size).
Proof.
  unfold dump.
  apply emits_only_bind; [apply emits_only_makedirs | intros _].
  apply emits_only_bind; [apply emits_only_open_dataset | intros _].
  apply emits_only_bind; [|intros m; now apply emits_only_write_file].
  apply emits_only_for_each. intros m epoch. unfold dump_epoch.
  apply emits_only_bind.
  - apply emits_only_for_each. intros m' ib. unfold dump_batch.
    destruct (_ =? 0); [|apply emits_only_ret].
    apply emits_only_bind; [now apply emits_only_emit | intros _].
    apply emits_only_ret.
  - intros m'. destruct (bool_decide _); [apply emits_only_raise|].
    apply emits_only_bind; [now apply emits_only_emit | intros _].
    apply emits_only_bind; [now apply emits_only_write_file | intros _].
    apply emits_only_ret.
Qed.

Lemma inc_dump_inner args global_rank world_size :
  emits_only inner_event (inc_dump' args global_rank world_size).
Proof.
  apply (emits_only_weaken inc_dump_event).
  - now intros [].
  - apply inc_dump_events.
Qed.

Lemma download_inner (data_dir : string) (global_rank : Z) :
  emits_only inner_event
    (download_movielens (Model:=Model) (Score:=Score) data_dir global_rank).
Proof.
  unfold download_movielens, extractall.
  repeat first
    [ apply emits_only_ret | apply emits_only_makedirs
    | apply emits_only_exists_file | apply emits_only_remove_file
    | apply emits_only_rmtree | apply emits_only_listdir
    | apply emits_only_emit; exact I
    | apply emits_only_write_file; exact I
    | apply emits_only_move_file; exact I
    | apply emits_only_for_each; intros
    | apply emits_only_bind; [| intros ?]
    | match goal with
      | |- emits_only _ (if ?b then _ else _) => destruct b
      end ].
Qed.

(** X17.  The protocol of [main], for mode functions [train] and [load]
    that neither set up nor destroy the process group themselves: once
    the arguments are parsed, setting up the process group is the first
    call, destroying it is the last call and is made if and only if
    [main] returns (a mode that raises leaves the group standing), neither
    call is repeated in between, and every entry into a mode comes after
    the barrier. *)
Theorem main_protocol environ cli args global_rank world_size (w : World) :
  (forall a g s w0, Forall inner_event (train a g s w0).2) ->
  (forall a g s w0, Forall inner_event (load a g s w0).2) ->
  parse_args environ cli = Ok args ->
  let out := main' environ cli global_rank world_size w in
  exists body,
    trace out.2 =
      trace w ++ EvInitProcessGroup :: body ++
      (if succeeded out.1 then [EvDestroyProcessGroup] else []) /\
    Forall inner_event body /\
    forall pre m post, body = pre ++ EvEnter m :: post -> EvBarrier ∈ pre.
Proof.
  intros Htrain Hload Hp. cbn zeta.
  assert (Hrest : closes inner_event EvDestroyProcessGroup
            (_ ← when (local_rank args =? 0)
                      (_ ← download_movielens (Model:=Model) (Score:=Score)
                             (data_path args) 0; mret tt);
             _ ← emit EvBarrier;
             after_barrier size0 create_model train_loader train_step get_score
                           incremental_dump train load
                           args global_rank world_size)).
  { apply closes_bind; [|intros _].
    { apply emits_only_when.
      apply emits_only_bind; [apply download_inner | intros; apply emits_only_ret]. }
    apply closes_bind; [now apply emits_only_emit | intros _].
    unfold after_barrier.
    apply closes_bind; [|intros _].
    { apply emits_only_when.
      apply emits_only_bind; [now apply emits_only_emit | intros _].
      apply emits_only_external. intros w0. apply Htrain. }
    apply closes_bind; [|intros _].
    { apply emits_only_when.
      apply emits_only_bind; [now apply emits_only_emit | intros _].
      apply dump_inner. }
    apply closes_bind; [|intros _].
    { apply emits_only_when.
      apply emits_only_bind; [now apply emits_only_emit | intros _].
      apply emits_only_external. intros w0. apply Hload. }
    apply closes_bind; [|intros _].
    { apply emits_only_when.
      apply emits_only_bind; [now apply emits_only_emit | intros _].
      apply inc_dump_inner. }
    apply closes_emit. }
  pose proof (main_barrier_before_modes size0 create_model train_loader
                train_step get_score incremental_dump train load
                environ cli global_rank world_size w) as Hbarrier.
  rewrite main_unfold in *. rewrite Hp, bind_lift_ok in *.
  set (w0 := {| files := files w; dirs := dirs w;
                trace := trace w ++ [EvInitProcessGroup] |}).
  destruct (Hrest w0) as (body & Ht & Hq).
  exists body. split; [|split; [exact Hq|]].
  - unfold mbind at 1, M_bind at 1. cbn [emit]. fold w0.
    rewrite Ht. unfold w0. cbn [trace]. now rewrite <- app_assoc.
  - intros pre m post Hbody.
    unfold mbind at 1, M_bind at 1 in Hbarrier. cbn [emit] in Hbarrier.
    fold w0 in Hbarrier.
    rewrite Ht in Hbarrier.
    specialize (Hbarrier (EvInitProcessGroup :: pre)
                  (post ++ if succeeded
                                (((when (local_rank args =? 0)
                                     (download_movielens (data_path args) 0
                                      ≫= fun _ => mret tt))
                                  ≫= fun _ => emit EvBarrier
                                  ≫= fun _ =>
                                    after_barrier size0 create_model train_loader
                                      train_step get_score incremental_dump
                                      train load args global_rank world_size)
                                   w0).1
                           then [EvDestroyProcessGroup] else []) m). unfold w0 in Hbarrier. cbn [trace] in Hbarrier.
    rewrite Hbody, <- !app_assoc in Hbarrier. cbn in Hbarrier.
    specialize (Hbarrier eq_refl).
    apply elem_of_cons in Hbarrier as [Hb | Hb]; [discriminate Hb | exact Hb].
Qed.

End Program.

Lemma main_protocol_witness :
  let out := counting_main second_node_environ ∅ 1 2 empty_world in
  exists body,
    trace out.2 =
      trace empty_world ++ EvInitProcessGroup :: body ++
      (if succeeded out.1 then [EvDestroyProcessGroup] else []) /\
    Forall inner_event body /\
    forall pre m post, body = pre ++ EvEnter m :: post -> EvBarrier ∈ pre.
Proof.
  apply (main_protocol (Tensor:=Z) (fun rows => rows)
           (fun _ => 0) (fun _ _ => replicate 101 tt) (fun m _ => m + 1)
           (fun m => m) (fun m _ => ([], m))
           (fun _ _ _ w => (Ok tt, files w, []))
           (fun _ _ _ w => (Ok tt, files w, []))
           second_node_environ ∅ second_node_args 1 2 empty_world).
  - intros a g s w0. constructor.
  - intros a g s w0. constructor.
  - vm_compute. reflexivity.
Defined.

End RunFacts.

(** ** The outcomes of [dump] and [inc_dump], and the files of [dump] *)

Module DumpFacts.
Import Cli Driver DriverFacts.
Local Open Scope Z_scope.

(** *** Strings *)

Lemma length_append (s t : string) :
  String.length (s ++ t) = (String.length s + String.length t)%nat.
Proof. induction s as [|c s IH]; simpl; [reflexivity | now f_equal]. Qed.

Lemma append_inv_tail (s1 s2 t : string) : (s1 ++ t = s2 ++ t -> s1 = s2)%string.
Proof.
  revert s2. induction s1 as [|c s1 IH]; intros [|c' s2] H; cbn in H.
  - reflexivity.
  - apply (f_equal String.length) in H. simpl in H.
    rewrite ?length_append in H. simpl in H. lia.
  - apply (f_equal String.length) in H. simpl in H.
    rewrite ?length_append in H. simpl in H. lia.
  - injection H as -> H. now rewrite (IH _ H).
Qed.

Lemma append_inv_head (s t1 t2 : string) : (s ++ t1 = s ++ t2 -> t1 = t2)%string.
Proof. induction s as [|c s IH]; cbn; [easy|]. intros [= H]. now apply IH. Qed.

(** [os.path.join] keeps apart what differs below the same directory. *)
Lemma path_join_inj (a b1 b2 : string) :
  starts_with_slash b1 = false -> starts_with_slash b2 = false ->
  path_join a b1 = path_join a b2 -> b1 = b2.
Proof.
  unfold path_join. intros -> ->.
  destruct (_ || _); intros H.
  - exact (append_inv_head _ _ _ H).
  - apply append_inv_head in H. cbn in H. now injection H.
Qed.

Lemma checkpoint_name_inj (e1 e2 global_rank : Z) :
  checkpoint_name e1 global_rank = checkpoint_name e2 global_rank -> e1 = e2.
Proof.
  unfold checkpoint_name. intros H.
  apply (append_inv_head "model_epoch_") in H.
  apply append_inv_tail in H.
  apply (inj pretty) in H. lia.
Qed.

Lemma checkpoint_path_inj (dir : string) (e1 e2 global_rank : Z) :
  path_join dir (checkpoint_name e1 global_rank) =
  path_join dir (checkpoint_name e2 global_rank) -> e1 = e2.
Proof.
  intros H. apply path_join_inj in H; [|reflexivity..].
  exact (checkpoint_name_inj _ _ _ H).
Qed.

Lemma checkpoint_path_not_dump (dir : string) (e global_rank : Z) :
  path_join dir "dynamicemb" <> path_join dir (checkpoint_name e global_rank).
Proof.
  intros H. apply path_join_inj in H; [|reflexivity..]. discriminate H.
Qed.

Section Program.
Context {Model Batch Score Tensor : Type}.

Abbreviation World := (@World Model Score).
Abbreviation M := (@M Model Score).
Abbreviation event := (@event Score).

(** *** Loops *)

Lemma for_each_app {A S} (body : S -> A -> M S) (l1 l2 : list A) (s : S)
    (w : World) :
  for_each body (l1 ++ l2) s w = (for_each body l1 s ≫= for_each body l2) w.
Proof.
  revert s w. induction l1 as [|x l1 IH]; intros s w; cbn [for_each app].
  - reflexivity.
  - unfold mbind, M_bind. destruct (body s x w) as [[s'|e] w1]; [|reflexivity].
    apply IH.
Qed.

(** A loop whose body raises ZeroDivisionError on the items that are
    [bad] and returns on the others. *)
Lemma for_each_outcome {A S} (body : S -> A -> M S) (bad : A -> Prop)
    (l : list A) :
  (forall s x w, (bad x /\ (body s x w).1 = Raise ZeroDivisionError) \/
                 (~ bad x /\ exists s', (body s x w).1 = Ok s')) ->
  forall s w,
    (Exists bad l /\ (for_each body l s w).1 = Raise ZeroDivisionError) \/
    (Forall (fun x => ~ bad x) l /\ exists s', (for_each body l s w).1 = Ok s').
Proof.
  intros Hb. induction l as [|x l IH]; intros s w; cbn [for_each].
  - right. split; [constructor | now exists s].
  - unfold mbind, M_bind.
    destruct (Hb s x w) as [[Hx Hr] | [Hx [s' Hr]]];
      destruct (body s x w) as [[s1|e] w1]; cbn in Hr; try discriminate Hr.
    + left. split; [now left | exact Hr].
    + destruct (IH s1 w1) as [[He Hl] | [Hf Hl]].
      * left. split; [now right | exact Hl].
      * right. split; [now constructor | exact Hl].
Qed.

Lemma snd_imap {A} (f : nat -> A -> Z * A) (l : list A) :
  (forall i a, (f i a).2 = a) -> (imap f l).*2 = l.
Proof.
  revert f. induction l as [|a l IH]; intros f Hf; cbn; [reflexivity|].
  rewrite Hf. f_equal. apply IH. intros i b. apply Hf.
Qed.

Lemma snd_enumerate (l : list Batch) : (enumerate l).*2 = l.
Proof. apply snd_imap. reflexivity. Qed.

Variable size0 : Tensor -> Z.
Variable create_model : Namespace -> Model.
Variable train_loader : Namespace -> Z -> list Batch.
Variable train_step : Model -> Batch -> Model.
Variable get_score : Model -> Score.
Variable incremental_dump :
  Model -> Score -> @ret_tensors_t Tensor * Score.

Abbreviation inc_dump' :=
  (inc_dump size0 create_model train_loader train_step get_score
            incremental_dump).
Abbreviation dump' := (dump create_model train_loader train_step).

(** *** The three files of the dataset *)

Definition dataset_there (data_path : string) (w : World) : bool :=
  bool_decide (is_Some (files w !! path_join data_path "ratings.dat")) &&
  bool_decide (is_Some (files w !! path_join data_path "users.dat")) &&
  bool_decide (is_Some (files w !! path_join data_path "movies.dat")).

Lemma open_dataset_run (data_path : string) (w : World) :
  open_dataset data_path w =
  (if dataset_there data_path w then Ok tt else Raise FileNotFoundError, w).
Proof.
  unfold open_dataset, dataset_there, mbind, M_bind, exists_file. cbn.
  now destruct (_ && _).
Qed.

(** *** The model along the epochs *)

(** The model after the steps of one epoch, and after the first [n]
    epochs. *)
Definition epoch_model (args : Namespace) (model : Model) (epoch : Z) : Model :=
  fold_left train_step (train_loader args epoch) model.

Definition model_after (args : Namespace) (n : Z) : Model :=
  fold_left (epoch_model args) (seqZ 0 n) (create_model args).

Lemma model_after_succ (args : Namespace) (n : nat) :
  model_after args (Z.of_nat (S n)) =
  epoch_model args (model_after args (Z.of_nat n)) (Z.of_nat n).
Proof.
  unfold model_after. rewrite seqZ_S, fold_left_app. reflexivity.
Qed.

Lemma dump_batches (epoch : Z) (ibs : list (Z * Batch)) :
  forall (m : Model) (w : World), exists new,
    for_each (dump_batch train_step epoch) ibs m w =
    (Ok (fold_left train_step ibs.*2 m),
     {| files := files w; dirs := dirs w; trace := trace w ++ new |}).
Proof.
  induction ibs as [|ib ibs IH]; intros m w; cbn [for_each].
  - exists []. rewrite app_nil_r. now destruct w.
  - unfold mbind at 1, M_bind at 1, dump_batch.
    destruct (_ =? 0).
    + unfold mbind, M_bind, emit, mret, M_ret.
      destruct (IH (train_step m ib.2)
                  {| files := files w; dirs := dirs w;
                     trace := trace w ++ [EvLog epoch ib.1 None] |})
        as [new Hnew].
      exists (EvLog epoch ib.1 None :: new). cbn [fst snd].
      change (for_each (dump_batch train_step epoch) ibs (train_step m ib.2)
                {| files := files w; dirs := dirs w;
                   trace := trace w ++ [EvLog epoch ib.1 None] |} =
              (Ok (fold_left train_step (ib :: ibs).*2 m),
               {| files := files w; dirs := dirs w;
                  trace := trace w ++ EvLog epoch ib.1 None :: new |})).
      rewrite Hnew. cbn. now rewrite <- app_assoc.
    + unfold mret, M_ret. destruct (IH (train_step m ib.2) w) as [new Hnew].
      exists new. exact Hnew.
Qed.

(** One epoch of [dump]: an empty loader raises and leaves the world as
    it is; otherwise the checkpoint of the epoch is written. *)
Lemma dump_epoch_run (args : Namespace) (global_rank : Z) (m : Model)
    (epoch : Z) (w : World) :
  (train_loader args epoch = [] /\
   dump_epoch train_loader train_step args global_rank m epoch w =
   (Raise ZeroDivisionError, w)) \/
  (train_loader args epoch <> [] /\ exists new,
   dump_epoch train_loader train_step args global_rank m epoch w =
   (Ok (epoch_model args m epoch),
    {| files := <[ path_join (save_dir args) (checkpoint_name epoch global_rank)
                   := Checkpoint (epoch_model args m epoch) ]> (files w);
       dirs := dirs w; trace := trace w ++ new |})).
Proof.
  unfold dump_epoch, epoch_model.
  destruct (train_loader args epoch) as [|b bs] eqn:Hb.
  - left. split; [reflexivity|]. cbn. now destruct w.
  - right. split; [discriminate|].
    unfold mbind at 1, M_bind at 1.
    destruct (dump_batches epoch (enumerate (b :: bs)) m w) as [new ->].
    rewrite snd_enumerate.
    rewrite (bool_decide_eq_false_2 (b :: bs = [])) by discriminate.
    exists (new ++ [EvLogAverage epoch;
                    EvWrite (path_join (save_dir args)
                                       (checkpoint_name epoch global_rank))]).
    unfold mbind, M_bind, emit, write_file, mret, M_ret. cbn.
    now rewrite <- !app_assoc.
Qed.

(** The first [n] epochs of [dump], none of them with an empty loader. *)
Lemma dump_epochs_run (args : Namespace) (global_rank : Z) (n : nat) (w : World) :
  (forall e, 0 <= e < Z.of_nat n -> train_loader args e <> []) ->
  exists w',
    for_each (dump_epoch train_loader train_step args global_rank)
             (seqZ 0 (Z.of_nat n)) (create_model args) w =
    (Ok (model_after args (Z.of_nat n)), w') /\
    dirs w' = dirs w /\
    (forall e, 0 <= e < Z.of_nat n ->
       files w' !! path_join (save_dir args) (checkpoint_name e global_rank) =
       Some (Checkpoint (model_after args (e + 1)))) /\
    (forall p,
       (forall e, 0 <= e < Z.of_nat n ->
                  p <> path_join (save_dir args) (checkpoint_name e global_rank)) ->
       files w' !! p = files w !! p).
Proof.
  induction n as [|n IH]; intros Hne.
  - exists w. split; [reflexivity|]. split; [reflexivity|].
    split; [intros e He; lia | reflexivity].
  - destruct IH as (w1 & Hrun & Hd & Hcp & Hframe); [intros e He; apply Hne; lia|].
    rewrite seqZ_S, for_each_app. unfold mbind at 1, M_bind at 1. rewrite Hrun.
    cbn [for_each]. unfold mbind at 1, M_bind at 1.
    destruct (dump_epoch_run args global_rank (model_after args (Z.of_nat n))
                (0 + Z.of_nat n) w1) as [[Hempty _] | [_ [new Hstep]]].
    { exfalso. apply (Hne (0 + Z.of_nat n)); [lia | exact Hempty]. }
    rewrite Hstep. eexists. split; [|split; [|split]].
    + unfold mret, M_ret. rewrite model_after_succ. reflexivity.
    + exact Hd.
    + intros e He. cbn [files].
      destruct (decide (e = Z.of_nat n)) as [-> | Hen].
      * rewrite Z.add_0_l, lookup_insert_eq.
        replace (Z.of_nat n + 1) with (Z.of_nat (S n)) by lia.
        now rewrite model_after_succ.
      * rewrite lookup_insert_ne.
        -- apply Hcp. lia.
        -- intros Heq. apply checkpoint_path_inj in Heq. lia.
    + intros p Hp. cbn [files]. rewrite lookup_insert_ne.
      * apply Hframe. intros e He. apply Hp. lia.
      * intros Heq. apply (Hp (0 + Z.of_nat n)); [lia | now symmetry].
Qed.

Lemma seqZ_to_nat (m n : Z) : seqZ m n = seqZ m (Z.of_nat (Z.to_nat n)).
Proof. unfold seqZ. now rewrite Nat2Z.id. Qed.

Lemma model_after_to_nat (args : Namespace) (n : Z) :
  model_after args n = model_after args (Z.of_nat (Z.to_nat n)).
Proof. unfold model_after. now rewrite <- seqZ_to_nat. Qed.

Lemma dump_run (args : Namespace) (global_rank world_size : Z) (w : World) :
  dump' args global_rank world_size w =
  let w1 := {| files := files w; dirs := {[ save_dir args ]} ∪ dirs w;
               trace := trace w |} in
  if dataset_there (data_path args) w then
    (for_each (dump_epoch train_loader train_step args global_rank)
              (seqZ 0 (epochs args)) (create_model args) ≫= fun model =>
     write_file (path_join (save_dir args) "dynamicemb") (EmbeddingDump model)) w1
  else (Raise FileNotFoundError, w1).
Proof.
  unfold dump. unfold mbind at 1, M_bind at 1. cbn [makedirs].
  unfold mbind at 1, M_bind at 1. rewrite open_dataset_run.
  cbn zeta. change (dataset_there (data_path args) _)
    with (dataset_there (data_path args) w).
  now destruct (dataset_there (data_path args) w).
Qed.

(** X18.  What a finished [dump] leaves below the save directory: for
    every epoch [e] of [range(args.epochs)] the checkpoint file of that
    epoch and rank holds the model as it was after the first [e + 1]
    epochs of training steps, the embedding dump holds the model after
    all epochs (the fresh model when there is no epoch), and every other
    file is as before. *)
Theorem dump_files (args : Namespace) (global_rank world_size : Z)
    (w w' : World) :
  dump' args global_rank world_size w = (Ok tt, w') ->
  (forall e, 0 <= e < epochs args ->
     files w' !! path_join (save_dir args) (checkpoint_name e global_rank) =
     Some (Checkpoint (model_after args (e + 1)))) /\
  files w' !! path_join (save_dir args) "dynamicemb" =
    Some (EmbeddingDump (model_after args (epochs args))) /\
  (forall p,
     p <> path_join (save_dir args) "dynamicemb" ->
     (forall e, 0 <= e < epochs args ->
        p <> path_join (save_dir args) (checkpoint_name e global_rank)) ->
     files w' !! p = files w !! p).
Proof.
  rewrite dump_run. cbn zeta.
  destruct (dataset_there (data_path args) w); [|discriminate].
  set (w1 := {| files := files w; dirs := {[save_dir args]} ∪ dirs w;
                trace := trace w |}).
  intros Hok.
  assert (Hbody : forall s x (w0 : World),
            (train_loader args x = [] /\
             (dump_epoch train_loader train_step args global_rank s x w0).1 =
             Raise ZeroDivisionError) \/
            (train_loader args x <> [] /\
             exists s',
               (dump_epoch train_loader train_step args global_rank s x w0).1 =
               Ok s')).
  { intros s x w0.
    destruct (dump_epoch_run args global_rank s x w0)
      as [[Hx ->] | [Hx [new ->]]]; [left | right]; split; eauto. }
  assert (Hne : forall e, 0 <= e < Z.of_nat (Z.to_nat (epochs args)) ->
                          train_loader args e <> []).
  { intros e He Hempty.
    destruct (for_each_outcome _ _ (seqZ 0 (epochs args)) Hbody
                (create_model args) w1) as [[_ Hr] | [Hall _]].
    - unfold mbind, M_bind in Hok.
      destruct (for_each _ _ _ w1) as [[m|x] w2]; cbn in Hr;
        [discriminate Hr | discriminate Hok].
    - rewrite Forall_forall in Hall. apply (Hall e); [|exact Hempty].
      apply elem_of_seqZ. lia. }
  destruct (dump_epochs_run args global_rank (Z.to_nat (epochs args)) w1 Hne)
    as (w2 & Hrun & _ & Hcp & Hframe).
  rewrite <- seqZ_to_nat, <- model_after_to_nat in Hrun.
  unfold mbind, M_bind in Hok. rewrite Hrun in Hok. unfold write_file in Hok.
  injection Hok as <-. cbn [files]. split; [|split].
  - intros e He. rewrite lookup_insert_ne by apply checkpoint_path_not_dump.
    apply Hcp. lia.
  - apply lookup_insert_eq.
  - intros p Hp Hq. rewrite lookup_insert_ne by congruence.
    rewrite Hframe; [reflexivity|]. intros e He. apply Hq. lia.
Qed.

(** *** Outcomes *)

(** The outcome of a training mode at the world [w], as far as the driver
    follows it (the contents of the files are not read): FileNotFoundError
    when one of the three files is missing, ZeroDivisionError when an
    epoch of [range(args.epochs)] has no batch, a return otherwise. *)
Definition outcome_spec (args : Namespace) (w : World) (r : result unit) : Prop :=
  (r = Raise FileNotFoundError <-> dataset_there (data_path args) w = false) /\
  (r = Raise ZeroDivisionError <->
     dataset_there (data_path args) w = true /\
     exists e, 0 <= e < epochs args /\ train_loader args e = []) /\
  (r = Ok tt <->
     dataset_there (data_path args) w = true /\
     forall e, 0 <= e < epochs args -> train_loader args e <> []).

Lemma outcome_cases (args : Namespace) (w : World) (r : result unit) :
  (dataset_there (data_path args) w = false /\ r = Raise FileNotFoundError) \/
  (dataset_there (data_path args) w = true /\
   Exists (fun e => train_loader args e = []) (seqZ 0 (epochs args)) /\
   r = Raise ZeroDivisionError) \/
  (dataset_there (data_path args) w = true /\
   Forall (fun e => train_loader args e <> []) (seqZ 0 (epochs args)) /\
   r = Ok tt) ->
  outcome_spec args w r.
Proof.
  assert (Hex : Exists (fun e => train_loader args e = []) (seqZ 0 (epochs args)) ->
                exists e, 0 <= e < epochs args /\ train_loader args e = []).
  { rewrite Exists_exists. intros (e & He & Hempty). exists e.
    apply elem_of_seqZ in He. split; [lia | exact Hempty]. }
  assert (Hall : Forall (fun e => train_loader args e <> []) (seqZ 0 (epochs args)) ->
                 forall e, 0 <= e < epochs args -> train_loader args e <> []).
  { rewrite Forall_forall. intros H e He. apply H, elem_of_seqZ. lia. }
  intros [(Hd & ->) | [(Hd & He & ->) | (Hd & Hf & ->)]]; unfold outcome_spec;
    rewrite Hd.
  - split; [easy|]. split; (split; [discriminate | intros [H _]; discriminate H]).
  - apply Hex in He. split; [split; discriminate|]. split; [easy|].
    split; [discriminate|]. intros [_ H]. destruct He as (e & He & Hempty).
    now destruct (H e He).
  - specialize (Hall Hf). split; [split; discriminate|]. split; [|easy].
    split; [discriminate|]. intros [_ (e & He & Hempty)].
    now destruct (Hall e He).
Qed.

Lemma inc_dump_batches_ok (epoch : Z) (ibs : list (Z * Batch)) :
  forall (st : Model * Score) (w : World), exists st' w',
    for_each (inc_dump_batch size0 train_step incremental_dump epoch) ibs st w =
    (Ok st', w').
Proof.
  induction ibs as [|ib ibs IH]; intros st w; cbn [for_each].
  - now exists st, w.
  - unfold mbind at 1, M_bind at 1, inc_dump_batch.
    destruct (_ =? 0).
    + unfold mbind, M_bind, emit, mret, M_ret. apply IH.
    + unfold mret, M_ret. apply IH.
Qed.

Lemma inc_dump_epoch_outcome (args : Namespace) (st : Model * Score) (epoch : Z)
    (w : World) :
  (train_loader args epoch = [] /\
   (inc_dump_epoch size0 train_loader train_step incremental_dump
                   args st epoch w).1 = Raise ZeroDivisionError) \/
  (train_loader args epoch <> [] /\
   exists st',
     (inc_dump_epoch size0 train_loader train_step incremental_dump
                     args st epoch w).1 = Ok st').
Proof.
  unfold inc_dump_epoch.
  destruct (inc_dump_batches_ok epoch (enumerate (train_loader args epoch)) st w)
    as (st' & w' & Hrun).
  unfold mbind, M_bind. rewrite Hrun.
  destruct (train_loader args epoch) as [|b bs].
  - left. split; reflexivity.
  - right. split; [discriminate|]. exists st'.
    now rewrite (bool_decide_eq_false_2 (b :: bs = [])) by discriminate.
Qed.

Lemma dump_epoch_outcome (args : Namespace) (global_rank : Z) (m : Model)
    (epoch : Z) (w : World) :
  (train_loader args epoch = [] /\
   (dump_epoch train_loader train_step args global_rank m epoch w).1 =
   Raise ZeroDivisionError) \/
  (train_loader args epoch <> [] /\
   exists m',
     (dump_epoch train_loader train_step args global_rank m epoch w).1 = Ok m').
Proof.
  destruct (dump_epoch_run args global_rank m epoch w)
    as [[Hx ->] | [Hx [new ->]]]; [left | right]; split; eauto.
Qed.

Lemma inc_dump_run (args : Namespace) (global_rank world_size : Z) (w : World) :
  inc_dump' args global_rank world_size w =
  let w1 := {| files := files w; dirs := {[ save_dir args ]} ∪ dirs w;
               trace := trace w |} in
  if dataset_there (data_path args) w then
    (for_each (inc_dump_epoch size0 train_loader train_step incremental_dump args)
              (seqZ 0 (epochs args))
              (create_model args, get_score (create_model args)) ≫= fun _ =>
     mret tt) w1
  else (Raise FileNotFoundError, w1).
Proof.
  unfold inc_dump. unfold mbind at 1, M_bind at 1. cbn [makedirs].
  unfold mbind at 1, M_bind at 1. rewrite open_dataset_run.
  cbn zeta. change (dataset_there (data_path args) _)
    with (dataset_there (data_path args) w).
  now destruct (dataset_there (data_path args) w).
Qed.

(** How [dump] and [inc_dump] end at a world, as far as the presence of
    the files and the loaders decide it. *)
Lemma mode_outcomes_model (args : Namespace) (global_rank world_size : Z)
    (w : World) :
  outcome_spec args w (dump' args global_rank world_size w).1 /\
  outcome_spec args w (inc_dump' args global_rank world_size w).1.
Proof.
  split; apply outcome_cases.
  - rewrite dump_run. cbn zeta.
    destruct (dataset_there (data_path args) w); [|now left].
    right.
    destruct (for_each_outcome _ _ (seqZ 0 (epochs args))
                (dump_epoch_outcome args global_rank) (create_model args)
                {| files := files w; dirs := {[save_dir args]} ∪ dirs w;
                   trace := trace w |}) as [[He Hr] | [Hf [m Hr]]];
      unfold mbind, M_bind; destruct (for_each _ _ _ _) as [[m'|x] w2];
      cbn in Hr; try discriminate Hr.
    + left. injection Hr as ->. now repeat split.
    + right. now repeat split.
  - rewrite inc_dump_run. cbn zeta.
    destruct (dataset_there (data_path args) w); [|now left].
    right.
    destruct (for_each_outcome _ _ (seqZ 0 (epochs args))
                (inc_dump_epoch_outcome args)
                (create_model args, get_score (create_model args))
                {| files := files w; dirs := {[save_dir args]} ∪ dirs w;
                   trace := trace w |}) as [[He Hr] | [Hf [m Hr]]];
      unfold mbind, M_bind; destruct (for_each _ _ _ _) as [[m'|x] w2];
      cbn in Hr; try discriminate Hr.
    + left. injection Hr as ->. now repeat split.
    + right. now repeat split.
Qed.

(** X19.  A [dump] or an [inc_dump] that returns has found the three
    files of the dataset below [args.data_path] and at least one batch in
    every epoch of [range(args.epochs)]: an epoch without batches divides
    the summed loss by zero. *)
Theorem modes_return_only_if (args : Namespace) (global_rank world_size : Z)
    (w : World) :
  (dump' args global_rank world_size w).1 = Ok tt \/
  (inc_dump' args global_rank world_size w).1 = Ok tt ->
  dataset_there (data_path args) w = true /\
  forall e, 0 <= e < epochs args -> train_loader args e <> [].
Proof.
  destruct (mode_outcomes_model args global_rank world_size w)
    as [(_ & _ & Hd) (_ & _ & Hi)].
  intros [H | H]; [now apply Hd | now apply Hi].
Qed.

End Program.

(** A run of the dump mode: two epochs of 101 batches, the model being
    the number of steps taken. *)
Definition counting_dump :=
  dump (Model:=Z) (Batch:=unit) (Score:=Z)
       (fun _ => 0) (fun _ _ => replicate 101 tt) (fun m _ => m + 1).

Lemma dump_files_witness :
  exists w',
    counting_dump two_epochs 0 1 dataset_world = (Ok tt, w') /\
    files w' !! path_join "./model_checkpoints" (checkpoint_name 0 0)
      = Some (Checkpoint 101) /\
    files w' !! path_join "./model_checkpoints" (checkpoint_name 1 0)
      = Some (Checkpoint 202) /\
    files w' !! path_join "./model_checkpoints" "dynamicemb"
      = Some (EmbeddingDump 202).
Proof.
  destruct (counting_dump two_epochs 0 1 dataset_world) as [[[]|e] w'] eqn:Hd;
    [|vm_compute in Hd; discriminate Hd].
  exists w'. split; [reflexivity|].
  destruct (dump_files (Score:=Z) (fun _ => 0) (fun _ _ => replicate 101 tt)
              (fun m _ => m + 1) two_epochs 0 1 dataset_world w' Hd)
    as (Hcp & Hemb & _).
  split; [exact (Hcp 0 ltac:(cbn; lia))|].
  split; [exact (Hcp 1 ltac:(cbn; lia)) | exact Hemb].
Defined.

Lemma modes_return_only_if_witness :
  dataset_there "./ml-1m" dataset_world = true /\
  forall e, 0 <= e < 2 -> replicate 101 tt <> [].
Proof.
  apply (modes_return_only_if (Score:=Z) (Tensor:=Z) (fun rows => rows)
           (fun _ => 0) (fun _ _ => replicate 101 tt) (fun m _ => m + 1)
           (fun m => m) (fun m _ => ([], m)) two_epochs 0 1 dataset_world).
  left. vm_compute. reflexivity.
Defined.

End DumpFacts.

(** ** [download_movielens] on the layout of the archive *)

Module DownloadFacts.
Import Cli Driver DriverFacts DumpFacts.
Local Open Scope Z_scope.

Lemma append_assoc (a b c : string) : ((a ++ b) ++ c = a ++ b ++ c)%string.
Proof.
  induction a as [|x a IH]; [reflexivity|].
  change (String x ((a ++ b) ++ c) = String x (a ++ b ++ c))%string.
  now f_equal.
Qed.

Lemma rev_app_append (s t acc : string) :
  String.rev_app (s ++ t) acc = String.rev_app t (String.rev_app s acc).
Proof. revert acc. induction s as [|c s IH]; intros acc; cbn; [reflexivity | apply IH]. Qed.

(** A path that ends in the directory of the archive is not empty and
    does not end in a slash. *)
Lemma path_join_below (d f : string) :
  starts_with_slash f = false ->
  path_join (d ++ "ml-1m") f = (d ++ "ml-1m" ++ "/" ++ f)%string.
Proof.
  intros Hf. unfold path_join. rewrite Hf.
  assert (Hne : String.eqb (d ++ "ml-1m") "" = false) by now destruct d.
  assert (Hend : starts_with_slash (String.rev (d ++ "ml-1m")) = false).
  { unfold String.rev. now rewrite rev_app_append. }
  rewrite Hne, Hend. cbn [orb]. now rewrite append_assoc.
Qed.

(** Where [extractall(dirname)] puts the members when the archive
    directory [dirname/ml-1m] is [data_dir] itself. *)
Lemma layout (data_dir : string) :
  path_join (dirname data_dir) "ml-1m" = data_dir ->
  exists d, data_dir = (d ++ "ml-1m")%string /\
            forall f, path_join (dirname data_dir) ("ml-1m/" ++ f) =
                      (d ++ "ml-1m" ++ "/" ++ f)%string.
Proof.
  unfold path_join. cbn [starts_with_slash append Ascii.eqb Bool.eqb].
  destruct (_ || _); intros H.
  - exists (dirname data_dir). split; [now symmetry | reflexivity].
  - exists (dirname data_dir ++ "/")%string. rewrite append_assoc.
    split; [now symmetry|]. intros f. now rewrite append_assoc.
Qed.

Section Program.
Context {Model Score : Type}.

Abbreviation World := (@World Model Score).
Abbreviation blob := (@blob Model).

Definition member_names : list string :=
  [ "README"; "movies.dat"; "ratings.dat"; "users.dat" ].

Lemma extractall_run (dest : string) (w : World) :
  extractall dest w =
  (Ok tt,
   {| files :=
        <[ path_join dest "ml-1m/users.dat" := DatasetFile "ml-1m/users.dat" ]>
        (<[ path_join dest "ml-1m/ratings.dat" := DatasetFile "ml-1m/ratings.dat" ]>
        (<[ path_join dest "ml-1m/movies.dat" := DatasetFile "ml-1m/movies.dat" ]>
        (<[ path_join dest "ml-1m/README" := DatasetFile "ml-1m/README" ]>
           (files w))));
      dirs := dirs w;
      trace := trace w ++ [ EvWrite (path_join dest "ml-1m/README");
                            EvWrite (path_join dest "ml-1m/movies.dat");
                            EvWrite (path_join dest "ml-1m/ratings.dat");
                            EvWrite (path_join dest "ml-1m/users.dat") ] |}).
Proof.
  unfold extractall, archive_members. cbn [for_each].
  unfold mbind, M_bind, write_file, mret, M_ret. cbn [files dirs trace].
  now rewrite <- !app_assoc.
Qed.

(** The call that fetches. *)
Lemma download_fetches (data_dir : string) (w : World) :
  path_join (dirname data_dir) "ml-1m" = data_dir ->
  files w !! path_join data_dir "ratings.dat" = None ->
  exists new,
    download_movielens data_dir 0 w =
    (Ok data_dir,
     {| files :=
          delete (path_join data_dir "ml-1m.zip")
            (<[ path_join (dirname data_dir) "ml-1m/users.dat"
                := DatasetFile "ml-1m/users.dat" ]>
            (<[ path_join (dirname data_dir) "ml-1m/ratings.dat"
                := DatasetFile "ml-1m/ratings.dat" ]>
            (<[ path_join (dirname data_dir) "ml-1m/movies.dat"
                := DatasetFile "ml-1m/movies.dat" ]>
            (<[ path_join (dirname data_dir) "ml-1m/README"
                := DatasetFile "ml-1m/README" ]>
            (<[ path_join data_dir "ml-1m.zip" := ZipArchive ]> (files w))))));
        dirs := {[ data_dir ]} ∪ dirs w;
        trace := trace w ++ new |}) /\
    EvUrlRetrieve movielens_url (path_join data_dir "ml-1m.zip") ∈ new.
Proof.
  intros Hlayout Habsent. unfold download_movielens.
  change (0 =? 0) with true. cbn iota.
  unfold mbind at 1, M_bind at 1. cbn [emit].
  unfold mbind at 1, M_bind at 1. cbn [makedirs files dirs trace].
  unfold mbind at 1, M_bind at 1. cbn [exists_file files dirs trace].
  rewrite Habsent, (bool_decide_eq_false_2 _ (is_Some_None (A:=blob))).
  unfold mbind at 1, M_bind at 1. cbn [emit files dirs trace].
  unfold mbind at 1, M_bind at 1. cbn [emit files dirs trace].
  unfold mbind at 1, M_bind at 1. cbn [write_file files dirs trace].
  unfold mbind at 1, M_bind at 1. rewrite extractall_run.
  cbn [files dirs trace].
  rewrite Hlayout, String.eqb_refl.
  unfold mbind, M_bind, mret, M_ret, remove_file. cbn [files dirs trace].
  eexists. split.
  - rewrite <- !app_assoc. reflexivity.
  - cbn. apply elem_of_cons. right. apply elem_of_cons. right.
    apply elem_of_cons. now left.
Qed.

(** X20.  On the layout of the archive, where [data_dir] is the
    directory [ml-1m] of its own parent ([./ml-1m], [ml-1m],
    [data/ml-1m]), a call of rank 0 that does not find [ratings.dat]
    returns [data_dir] with the four files of the archive in it, the
    downloaded zip removed and every other file untouched; and the next
    call finds the ratings, fetches nothing and writes nothing. *)
Theorem download_then_present (data_dir : string) (w : World) :
  path_join (dirname data_dir) "ml-1m" = data_dir ->
  files w !! path_join data_dir "ratings.dat" = None ->
  exists w1,
    download_movielens data_dir 0 w = (Ok data_dir, w1) /\
    (forall f, f ∈ member_names ->
       files w1 !! path_join data_dir f = Some (DatasetFile ("ml-1m/" ++ f))) /\
    files w1 !! path_join data_dir "ml-1m.zip" = None /\
    (forall p, p <> path_join data_dir "ml-1m.zip" ->
               (forall f, f ∈ member_names -> p <> path_join data_dir f) ->
               files w1 !! p = files w !! p) /\
    exists w2,
      download_movielens data_dir 0 w1 = (Ok data_dir, w2) /\
      files w2 = files w1 /\
      trace w2 = trace w1 ++ [ EvDownloadCall data_dir 0;
                               EvLogText ("MovieLens in " ++ data_dir) ].
Proof.
  intros Hlayout Habsent.
  destruct (download_fetches data_dir w Hlayout Habsent) as (new & Hrun & _).
  destruct (layout data_dir Hlayout) as (d & Hd & Hmember).
  pose proof (Hmember "users.dat"%string) as Hu.
  pose proof (Hmember "ratings.dat"%string) as Hr.
  pose proof (Hmember "movies.dat"%string) as Hm.
  pose proof (Hmember "README"%string) as He.
  change ("ml-1m/" ++ "users.dat")%string with "ml-1m/users.dat"%string in Hu.
  change ("ml-1m/" ++ "ratings.dat")%string with "ml-1m/ratings.dat"%string in Hr.
  change ("ml-1m/" ++ "movies.dat")%string with "ml-1m/movies.dat"%string in Hm.
  change ("ml-1m/" ++ "README")%string with "ml-1m/README"%string in He.
  rewrite Hu, Hr, Hm, He in Hrun. clear Hu Hr Hm He.
  assert (Hbelow : forall f, starts_with_slash f = false ->
                             path_join data_dir f = (d ++ "ml-1m" ++ "/" ++ f)%string).
  { intros f Hf. rewrite Hd at 1. now apply path_join_below. }
  assert (Hzip := Hbelow "ml-1m.zip"%string eq_refl).
  assert (Hratings := Hbelow "ratings.dat"%string eq_refl).
  assert (Hdistinct : forall a b : string,
            a <> b -> (d ++ "ml-1m" ++ "/" ++ a)%string <> (d ++ "ml-1m" ++ "/" ++ b)%string).
  { intros a b Hab Heq. apply append_inv_head in Heq.
    apply (append_inv_head "ml-1m/") in Heq. contradiction. }
  rewrite Hzip in Hrun.
  eexists. split; [exact Hrun|]. cbn [files trace].
  assert (Hfiles : forall f, f ∈ member_names ->
            delete (d ++ "ml-1m" ++ "/" ++ "ml-1m.zip")%string
              (<[ (d ++ "ml-1m" ++ "/" ++ "users.dat")%string
                  := DatasetFile "ml-1m/users.dat" ]>
              (<[ (d ++ "ml-1m" ++ "/" ++ "ratings.dat")%string
                  := DatasetFile "ml-1m/ratings.dat" ]>
              (<[ (d ++ "ml-1m" ++ "/" ++ "movies.dat")%string
                  := DatasetFile "ml-1m/movies.dat" ]>
              (<[ (d ++ "ml-1m" ++ "/" ++ "README")%string
                  := DatasetFile "ml-1m/README" ]>
              (<[ (d ++ "ml-1m" ++ "/" ++ "ml-1m.zip")%string := ZipArchive ]>
                 (files w))))))
              !! path_join data_dir f = Some (DatasetFile ("ml-1m/" ++ f))).
  { intros f Hf. unfold member_names in Hf.
    repeat (apply elem_of_cons in Hf as [-> | Hf]);
      [| | | | now apply elem_of_nil in Hf];
      rewrite Hbelow by reflexivity;
      (rewrite lookup_delete_ne by (apply Hdistinct; discriminate));
      repeat first [ apply lookup_insert_eq
                   | rewrite lookup_insert_ne by (apply Hdistinct; discriminate) ]. }
  split; [exact Hfiles|].
  split; [rewrite Hzip; apply lookup_delete_eq|].
  split.
  - intros p Hp Hq. rewrite Hzip in Hp.
    assert (Hq' : forall f, f ∈ member_names -> p <> (d ++ "ml-1m" ++ "/" ++ f)%string).
    { intros f Hf.
      assert (Hs : starts_with_slash f = false).
      { unfold member_names in Hf.
        repeat (apply elem_of_cons in Hf as [-> | Hf]); try reflexivity.
        now apply elem_of_nil in Hf. }
      rewrite <- (Hbelow f Hs). now apply Hq. }
    rewrite lookup_delete_ne by congruence.
    rewrite !lookup_insert_ne; [reflexivity | congruence |..];
      apply not_eq_sym, Hq'; unfold member_names;
      repeat first [ now apply list_elem_of_here | apply list_elem_of_further ].
  - unfold download_movielens. change (0 =? 0) with true. cbn iota.
    unfold mbind at 1, M_bind at 1. cbn [emit].
    unfold mbind at 1, M_bind at 1. cbn [makedirs files dirs trace].
    unfold mbind at 1, M_bind at 1. cbn [exists_file files dirs trace].
    rewrite (Hfiles "ratings.dat"%string)
      by (unfold member_names;
          repeat first [ now apply list_elem_of_here | apply list_elem_of_further ]).
    rewrite bool_decide_eq_true_2 by (eexists; reflexivity).
    unfold mbind, M_bind, emit, mret, M_ret. cbn [files dirs trace].
    eexists. split; [reflexivity|]. cbn [files trace].
    split; [reflexivity|]. now rewrite <- app_assoc.
Qed.

End Program.

Lemma download_then_present_witness :
  exists w1,
    download_movielens "data/ml-1m" 0 empty_world = (Ok "data/ml-1m"%string, w1) /\
    files w1 !! "data/ml-1m/ratings.dat"%string
      = Some (DatasetFile "ml-1m/ratings.dat") /\
    files w1 !! "data/ml-1m/ml-1m.zip"%string = None /\
    exists w2,
      download_movielens "data/ml-1m" 0 w1 = (Ok "data/ml-1m"%string, w2) /\
      files w2 = files w1 /\
      trace w2 = trace w1 ++ [ EvDownloadCall "data/ml-1m" 0;
                               EvLogText "MovieLens in data/ml-1m" ].
Proof.
  destruct (download_then_present (Model:=Z) (Score:=Z) "data/ml-1m" empty_world)
    as (w1 & Hrun & Hfiles & Hzip & _ & Hagain).
  - vm_compute. reflexivity.
  - vm_compute. reflexivity.
  - exists w1. split; [exact Hrun|].
    split; [apply (Hfiles "ratings.dat"%string); unfold member_names;
            repeat first [ now apply list_elem_of_here
                         | apply list_elem_of_further ]|].
    split; [exact Hzip | exact Hagain].
Defined.

End DownloadFacts.

(** ** The divisor of [L2NormEmbeddingPostprocessor.forward] *)

Module PostprocessorFacts.
Import Binary64 Postprocessor.
Local Open Scope Z_scope.





(** [round32] agrees with the Standard Library's IEEE-754 specification
    of binary32 on values around every boundary of the format. *)
Example round32_matches_binary_normalize :
  forallb (fun m =>
             forallb (fun e => Binary64Facts.same_value (round32 m e)
                                 (binary_normalize 24 128 m e false))
                     [ 0; 1; 10; -3; -23; -24; -72; -126; -149; -150; -151;
                       -200; 100; 104; 105; 127 ])
          [ 0; 1; 3; 7; 2 ^ 23; 2 ^ 24 - 1; 2 ^ 24; 2 ^ 24 + 1; 2 ^ 24 + 2;
            2 ^ 24 + 3; 2 ^ 25 + 1; 2 ^ 25 + 2; 2 ^ 25 + 3; 2 ^ 25 + 5;
            4722366482869645; 2 ^ 128 - 2 ^ 103 - 1; 2 ^ 128 - 2 ^ 103;
            2 ^ 128; - 5; - (2 ^ 24 + 1); - (2 ^ 24 + 3) ] = true.
Proof. vm_compute. reflexivity. Qed.




(** For a float64 tensor the scalar is [eps] itself; for a float32 tensor
    the default [eps] is the positive float32 nearest to [1e-6]. *)
Lemma eps_as_scalar (eps : double) :
  to_dtype float64 eps = eps /\
  to_dtype float32 default_eps = Fin 8796093 (-43).
Proof. split; [now destruct eps | vm_compute; reflexivity]. Qed.


End PostprocessorFacts.
